(** * CSR sparse matrix of spatial_stats: a shallow embedding of
      ext/spatial_stats/csr_matrix.c and the properties of its specification.

    The C extension builds a compressed-sparse-row matrix from a Ruby hash
    (a dictionary of keys) and answers read-only queries against it.  The
    embedding keeps the structure of the C code: Ruby objects are a small
    inductive type, C arrays are lists of cells that may be uninitialised,
    loops are bounded iterations over an explicit loop state, and every
    function returns an [outcome]: a value, a Ruby exception, or a fault (an
    access that C leaves undefined).

    Platform: [int] has 32 bits, [long] and [VALUE] have 64, so Fixnums have
    63.  A hash is the list of its entries in insertion order and has no
    default value; its keys are compared with [rb_eql].  [malloc] succeeds.
    Of [csr_matrix_free] the embedding keeps which pointers are passed to
    [free].  Not embedded: [csr_matrix_alloc] and [csr_matrix_memsize],
    which only serve the garbage collector. *)

From Stdlib Require Import ZArith String List PrimFloat SpecFloat FloatOps.
From stdpp Require Import base tactics option list numbers.

#[local] Open Scope Z_scope.

(** ** Ruby objects *)

(** The objects the extension can meet.  [RInteger] is a Ruby Integer, a
    Fixnum when it fits 63 bits and a Bignum otherwise; [Flonum] is a Ruby
    Float holding a C double (IEEE binary64, Rocq's primitive floats). *)
#[local] Unset Elimination Schemes.
Inductive VALUE : Type :=
| Qnil
| RInteger (z : Z)
| Flonum (d : float)
| RString (s : string)
| RSymbol (s : string)
| RArray (a : list VALUE)
| RHash (h : list (VALUE * VALUE)).
#[local] Set Elimination Schemes.

Inductive ruby_type : Set :=
| T_NIL | T_FIXNUM | T_BIGNUM | T_FLOAT | T_STRING | T_SYMBOL | T_ARRAY | T_HASH.

(** Fixnums are the integers of 63 bits (a 64-bit [VALUE]). *)
Definition FIXNUM_MAX : Z := 4611686018427387903.
Definition FIXNUM_MIN : Z := -4611686018427387904.

Definition FIXABLE (z : Z) : bool := (FIXNUM_MIN <=? z) && (z <=? FIXNUM_MAX).

Definition TYPE (v : VALUE) : ruby_type :=
  match v with
  | Qnil => T_NIL
  | RInteger z => if FIXABLE z then T_FIXNUM else T_BIGNUM
  | Flonum _ => T_FLOAT
  | RString _ => T_STRING
  | RSymbol _ => T_SYMBOL
  | RArray _ => T_ARRAY
  | RHash _ => T_HASH
  end.

Definition ruby_type_eqb (a b : ruby_type) : bool :=
  match a, b with
  | T_NIL, T_NIL | T_FIXNUM, T_FIXNUM | T_BIGNUM, T_BIGNUM | T_FLOAT, T_FLOAT
  | T_STRING, T_STRING
  | T_SYMBOL, T_SYMBOL | T_ARRAY, T_ARRAY | T_HASH, T_HASH => true
  | _, _ => false
  end.

(** ** Exceptions, faults and outcomes *)

(** Ruby's built-in exception classes that matter here. *)
Inductive rb_class : Set :=
| rb_eArgError | rb_eTypeError | rb_eRangeError | rb_eIndexError | rb_eKeyError.

(** An exception remembers where it was raised: an explicit [rb_raise] of the
    source with its message, a failed [Check_Type], a failed numeric
    conversion ([NUM2INT], [NUM2DBL]), or a negative index given to
    [rb_ary_store]. *)
Inductive exception : Type :=
| rb_raise (c : rb_class) (mesg : string)
| wrong_argument_type (got expected : ruby_type)
| no_implicit_conversion (got : ruby_type)
| integer_out_of_int_range (z : Z)
| float_out_of_range (d : float)
| index_too_small (i : Z).

Definition exc_class (e : exception) : rb_class :=
  match e with
  | rb_raise c _ => c
  | wrong_argument_type _ _ => rb_eTypeError
  | no_implicit_conversion _ => rb_eTypeError
  | integer_out_of_int_range _ => rb_eRangeError
  | float_out_of_range _ => rb_eRangeError
  | index_too_small _ => rb_eIndexError
  end.

(** What C leaves undefined (or implementation-defined) and the embedding
    therefore refuses to continue from. *)
Inductive fault : Set :=
| OutOfBounds        (* array access outside the allocated block *)
| Uninitialised      (* read of a cell that was never written *)
| SignedOverflow     (* int arithmetic leaving the range of int *)
| Narrowing          (* (int) cast of a long that does not fit *)
| NotAnArray         (* RARRAY_LEN / rb_ary_entry on another object *)
| NotAHash.          (* rb_hash_aref / rb_hash_aset on another object *)

Inductive outcome (A : Type) : Type :=
| Ok (a : A)
| Raise (e : exception)
| Undefined (f : fault).
Arguments Ok {A} a.
Arguments Raise {A} e.
Arguments Undefined {A} f.

#[global] Instance outcome_ret : MRet outcome := @Ok.
#[global] Instance outcome_bind : MBind outcome := fun A B k m =>
  match m with
  | Ok a => k a
  | Raise e => Raise e
  | Undefined f => Undefined f
  end.

(** ** C integers *)

Definition INT_MAX : Z := 2147483647.
Definition INT_MIN : Z := -2147483648.
Definition LONG_MAX : Z := 9223372036854775807.
Definition LONG_MIN : Z := -9223372036854775808.

Definition fits_int (z : Z) : bool := (INT_MIN <=? z) && (z <=? INT_MAX).

(** [a + b] on two ints. *)
Definition int_add (a b : Z) : outcome Z :=
  if fits_int (a + b) then Ok (a + b) else Undefined SignedOverflow.

(** [(int)len] for a long. *)
Definition int_of_long (z : Z) : outcome Z :=
  if fits_int z then Ok z else Undefined Narrowing.

(** ** C arrays obtained from malloc *)

(** A block of [n] cells; [None] is a cell not yet written. *)
Definition malloc_cells {T : Type} (n : Z) : list (option T) :=
  replicate (Z.to_nat n) None.

(** [a[i]] read. *)
Definition load {T : Type} (a : list (option T)) (i : Z) : outcome T :=
  if i <? 0 then Undefined OutOfBounds
  else match a !! Z.to_nat i with
       | Some (Some v) => Ok v
       | Some None => Undefined Uninitialised
       | None => Undefined OutOfBounds
       end.

(** [a[i] = v]. *)
Definition store {T : Type} (a : list (option T)) (i : Z) (v : T)
  : outcome (list (option T)) :=
  if (0 <=? i) && (i <? Z.of_nat (length a))
  then Ok (<[Z.to_nat i := Some v]> a)
  else Undefined OutOfBounds.

(** ** Bounded loops *)

(** [for (i = lo; steps remain; i++) s = body i s], stopping at the first
    exception or fault. *)
Fixpoint for_loop {S : Type} (steps : nat) (i : Z)
    (body : Z -> S -> outcome S) (s : S) : outcome S :=
  match steps with
  | O => Ok s
  | Datatypes.S k => s' ← body i s; for_loop k (i + 1) body s'
  end.

(** [for (i = lo; i < hi; i++)] with [hi] not changed by the body. *)
Definition for_range {S : Type} (lo hi : Z)
    (body : Z -> S -> outcome S) (s : S) : outcome S :=
  for_loop (Z.to_nat (hi - lo)) lo body s.

(** ** The part of Ruby's C API the extension calls *)

(** [Check_Type(v, t)]: TypeError unless [v] has the built-in type [t]. *)
Definition Check_Type (v : VALUE) (t : ruby_type) : outcome unit :=
  if ruby_type_eqb (TYPE v) t then Ok tt
  else Raise (wrong_argument_type (TYPE v) t).

Definition INT2NUM (i : Z) : VALUE := RInteger i.
Definition DBL2NUM (d : float) : VALUE := Flonum d.

(** The integer part of a double, when it is finite. *)
Definition float_trunc (d : float) : option Z :=
  match Prim2SF d with
  | S754_zero _ => Some 0
  | S754_finite s m e =>
      let mag := if 0 <=? e then Z.pos m * 2 ^ e else Z.pos m / 2 ^ (- e) in
      Some (if s then - mag else mag)
  | S754_infinity _ | S754_nan => None
  end.

(** The double nearest to an integer (ties to even; infinite beyond the
    range of doubles): [(double)z] for a Fixnum, [rb_big2dbl] for a Bignum. *)
Definition double_of_integer (z : Z) : float :=
  SF2Prim (binary_normalize prec emax z 0 false).

(** [NUM2INT(v)]: an Integer or Float within the range of int; RangeError
    outside it; TypeError for nil and for objects without [to_int]. *)
Definition NUM2INT (v : VALUE) : outcome Z :=
  match v with
  | RInteger z =>
      if fits_int z then Ok z else Raise (integer_out_of_int_range z)
  | Flonum d =>
      match float_trunc d with
      | Some z =>
          if (LONG_MIN <=? z) && (z <=? LONG_MAX)
          then if fits_int z then Ok z else Raise (integer_out_of_int_range z)
          else Raise (float_out_of_range d)
      | None => Raise (float_out_of_range d)
      end
  | _ => Raise (no_implicit_conversion (TYPE v))
  end.

(** [NUM2DBL(v)]: the double of a Float or Integer; TypeError otherwise. *)
Definition NUM2DBL (v : VALUE) : outcome float :=
  match v with
  | RInteger z => Ok (double_of_integer z)
  | Flonum d => Ok d
  | _ => Raise (no_implicit_conversion (TYPE v))
  end.

(** [eql?] as hashes use it on keys.  Identifiers are nil, integers, strings,
    symbols and arrays of these; a Float or a Hash used as a key is outside
    the embedding and is never found. *)
Fixpoint rb_eql (a b : VALUE) {struct a} : bool :=
  match a, b with
  | Qnil, Qnil => true
  | RInteger x, RInteger y => x =? y
  | RString s, RString t => String.eqb s t
  | RSymbol s, RSymbol t => String.eqb s t
  | RArray xs, RArray ys =>
      (fix all2 (xs ys : list VALUE) {struct xs} : bool :=
         match xs, ys with
         | [], [] => true
         | x :: xs', y :: ys' => rb_eql x y && all2 xs' ys'
         | _, _ => false
         end) xs ys
  | _, _ => false
  end.

Definition RARRAY_LEN (v : VALUE) : outcome Z :=
  match v with
  | RArray a => Ok (Z.of_nat (length a))
  | _ => Undefined NotAnArray
  end.

(** [rb_ary_entry(ary, offset)]: a negative offset counts from the end; nil
    outside the array. *)
Definition rb_ary_entry (ary : VALUE) (offset : Z) : outcome VALUE :=
  match ary with
  | RArray a =>
      let len := Z.of_nat (length a) in
      let offset := if offset <? 0 then offset + len else offset in
      if (offset <? 0) || (len <=? offset) then Ok Qnil
      else Ok (default Qnil (a !! Z.to_nat offset))
  | _ => Undefined NotAnArray
  end.

(** [ARY_MAX_SIZE]: [LONG_MAX / sizeof(VALUE)]. *)
Definition ARY_MAX_SIZE : Z := LONG_MAX / 8.

(** [rb_ary_new_capa(capa)]: an empty array; ArgumentError for a negative
    capacity and for one beyond [ARY_MAX_SIZE]. *)
Definition rb_ary_new_capa (capa : Z) : outcome VALUE :=
  if capa <? 0
  then Raise (rb_raise rb_eArgError "negative array size (or size too big)")
  else if ARY_MAX_SIZE <? capa
       then Raise (rb_raise rb_eArgError "array size too big")
       else Ok (RArray []).

(** [rb_ary_store(ary, idx, val)]: overwrites inside the array, grows it with
    nil up to [idx] beyond it. *)
Definition rb_ary_store (ary : VALUE) (idx : Z) (val : VALUE) : outcome VALUE :=
  match ary with
  | RArray a =>
      let len := Z.of_nat (length a) in
      let i := if idx <? 0 then idx + len else idx in
      if i <? 0 then Raise (index_too_small idx)
      else if i <? len then Ok (RArray (<[Z.to_nat i := val]> a))
      else Ok (RArray (a ++ replicate (Z.to_nat (i - len)) Qnil ++ [val]))
  | _ => Undefined NotAnArray
  end.

(** Hashes keep their entries in insertion order. *)
Fixpoint assoc_find (k : VALUE) (h : list (VALUE * VALUE)) : option VALUE :=
  match h with
  | [] => None
  | (k', v) :: h' => if rb_eql k' k then Some v else assoc_find k h'
  end.

Fixpoint assoc_set (k v : VALUE) (h : list (VALUE * VALUE))
  : list (VALUE * VALUE) :=
  match h with
  | [] => [(k, v)]
  | (k', v') :: h' =>
      if rb_eql k' k then (k', v) :: h' else (k', v') :: assoc_set k v h'
  end.

Definition rb_hash_new : VALUE := RHash [].

(** [rb_hash_aref(hash, key)]: nil when the key is absent. *)
Definition rb_hash_aref (hash key : VALUE) : outcome VALUE :=
  match hash with
  | RHash h => Ok (default Qnil (assoc_find key h))
  | _ => Undefined NotAHash
  end.

Definition rb_hash_aset (hash key val : VALUE) : outcome VALUE :=
  match hash with
  | RHash h => Ok (RHash (assoc_set key val h))
  | _ => Undefined NotAHash
  end.

(** [rb_funcall(hash, rb_intern("keys"), 0)]. *)
Definition rb_hash_keys (hash : VALUE) : outcome VALUE :=
  match hash with
  | RHash h => Ok (RArray (map fst h))
  | _ => Undefined NotAHash
  end.

(** ** The matrix and the object that owns it *)

(** [struct csr_matrix] of csr_matrix.h; the three pointers are the blocks
    they point to. *)
Record csr_matrix : Type := {
  init : Z;
  n : Z;
  nnz : Z;
  values : list (option float);
  col_index : list (option Z);
  row_index : list (option Z);
}.

(** What a call of the constructor can change: the struct behind [self], the
    instance variables of [self], and the blocks requested from malloc (sizes
    in bytes, latest first). *)
Record world : Type := {
  self_csr : csr_matrix;
  self_ivars : list (string * VALUE);
  heap : list Z;
}.

(** A step of the constructor: an outcome and the world it leaves, also when
    the outcome is an exception ([rb_raise] does not undo what was done). *)
Definition M (A : Type) : Type := world -> outcome A * world.

#[global] Instance M_ret : MRet M := fun A a w => (Ok a, w).
#[global] Instance M_bind : MBind M := fun A B k m w =>
  match m w with
  | (Ok a, w') => k a w'
  | (Raise e, w') => (Raise e, w')
  | (Undefined f, w') => (Undefined f, w')
  end.

(** A step that does not touch the world. *)
Definition lift {A : Type} (o : outcome A) : M A := fun w => (o, w).

Definition sizeof_double : Z := 8.
Definition sizeof_int : Z := 4.

(** [malloc(bytes)], which is taken to succeed: the request is recorded, the
    cells of the block are threaded through the code as a list. *)
Definition malloc (bytes : Z) : M unit := fun w =>
  (Ok tt, {| self_csr := self_csr w; self_ivars := self_ivars w;
             heap := bytes :: heap w |}).

(** [TypedData_Get_Struct] followed by reads, respectively writes, of the
    fields. *)
Definition get_csr : M csr_matrix := fun w => (Ok (self_csr w), w).

Definition set_csr (c : csr_matrix) : M unit := fun w =>
  (Ok tt, {| self_csr := c; self_ivars := self_ivars w; heap := heap w |}).

Definition rb_iv_set (name : string) (v : VALUE) : M unit := fun w =>
  (Ok tt, {| self_csr := self_csr w;
             self_ivars := (name, v) :: self_ivars w; heap := heap w |}).

(** ** mat_to_sparse *)

Definition weight_sym : VALUE := RSymbol "weight".
Definition id_sym : VALUE := RSymbol "id".

(** Body of the first loop: register the key and add the length of its row
    to [nnz]. *)
Definition count_row (data keys : VALUE) (i : Z) (st : VALUE * Z)
  : outcome (VALUE * Z) :=
  let '(key_lookup, nnz) := st in
  key ← rb_ary_entry keys i;
  key_lookup ← rb_hash_aset key_lookup key (INT2NUM i);
  row ← rb_hash_aref data key;
  _ ← Check_Type row T_ARRAY;
  len ← RARRAY_LEN row;
  len ← int_of_long len;
  nnz ← int_add nnz len;
  Ok (key_lookup, nnz).

(** The locals the second loop updates. *)
Record fill_state : Type := {
  f_values : list (option float);
  f_col_index : list (option Z);
  f_row_index : list (option Z);
  f_nz_idx : Z;
}.

(** Body of the inner loop: one entry of the row. *)
Definition fill_entry (key_lookup row : VALUE) (j : Z) (st : fill_state)
  : outcome fill_state :=
  entry ← rb_ary_entry row j;
  _ ← Check_Type entry T_HASH;
  key ← rb_hash_aref entry id_sym;
  w ← rb_hash_aref entry weight_sym;
  weight ← NUM2DBL w;
  values ← store (f_values st) (f_nz_idx st) weight;
  c ← rb_hash_aref key_lookup key;
  c ← NUM2INT c;
  col_index ← store (f_col_index st) (f_nz_idx st) c;
  Ok {| f_values := values; f_col_index := col_index;
        f_row_index := f_row_index st; f_nz_idx := f_nz_idx st + 1 |}.

(** Body of the second loop: one row. *)
Definition fill_row (data keys key_lookup : VALUE) (i : Z) (st : fill_state)
  : outcome fill_state :=
  row_index ← store (f_row_index st) i (f_nz_idx st);
  key ← rb_ary_entry keys i;
  row ← rb_hash_aref data key;
  m ← RARRAY_LEN row;
  m ← int_of_long m;
  for_range 0 m (fill_entry key_lookup row)
    {| f_values := f_values st; f_col_index := f_col_index st;
       f_row_index := row_index; f_nz_idx := f_nz_idx st |}.

Definition mat_to_sparse (data keys num_rows : VALUE) : M unit :=
  n ← lift (NUM2INT num_rows);
  '(key_lookup, nnz) ←
    lift (for_range 0 n (count_row data keys) (rb_hash_new, 0));
  _ ← malloc (sizeof_double * nnz);
  _ ← malloc (sizeof_int * nnz);
  n1 ← lift (int_add n 1);
  _ ← malloc (sizeof_int * n1);
  st ← lift (for_range 0 n (fill_row data keys key_lookup)
               {| f_values := malloc_cells nnz;
                  f_col_index := malloc_cells nnz;
                  f_row_index := malloc_cells n1;
                  f_nz_idx := 0 |});
  row_index ← lift (store (f_row_index st) n nnz);
  set_csr {| init := 1; n := n; nnz := nnz; values := f_values st;
             col_index := f_col_index st; row_index := row_index |}.

(** ** csr_matrix_initialize *)

Definition csr_matrix_initialize (data num_rows : VALUE) : M unit :=
  csr ← get_csr;
  _ ← set_csr {| init := 0; n := n csr; nnz := nnz csr; values := values csr;
                 col_index := col_index csr; row_index := row_index csr |};
  _ ← lift (Check_Type data T_HASH);
  _ ← lift (Check_Type num_rows T_FIXNUM);
  keys ← lift (rb_hash_keys data);
  rows ← lift (NUM2INT num_rows);
  len ← lift (RARRAY_LEN keys);
  len ← lift (int_of_long len);
  _ ← lift (if negb (rows =? len)
            then Raise (rb_raise rb_eArgError
                          "n_rows != keys.size, check your dimensions")
            else Ok tt);
  _ ← mat_to_sparse data keys num_rows;
  _ ← rb_iv_set "@n" num_rows;
  csr ← get_csr;
  rb_iv_set "@nnz" (INT2NUM (nnz csr)).

(** ** Accessors *)

Definition csr_matrix_values (csr : csr_matrix) : outcome VALUE :=
  result ← rb_ary_new_capa (nnz csr);
  for_range 0 (nnz csr)
    (fun i result => v ← load (values csr) i; rb_ary_store result i (DBL2NUM v))
    result.

Definition csr_matrix_col_index (csr : csr_matrix) : outcome VALUE :=
  result ← rb_ary_new_capa (nnz csr);
  for_range 0 (nnz csr)
    (fun i result =>
       c ← load (col_index csr) i; rb_ary_store result i (INT2NUM c))
    result.

(** The loop runs for [i <= csr->n]. *)
Definition csr_matrix_row_index (csr : csr_matrix) : outcome VALUE :=
  result ← rb_ary_new_capa (n csr + 1);
  for_range 0 (n csr + 1)
    (fun i result =>
       r ← load (row_index csr) i; rb_ary_store result i (INT2NUM r))
    result.

(** ** csr_matrix_mulvec and csr_matrix_dot_row *)

Definition csr_matrix_mulvec (csr : csr_matrix) (vec : VALUE) : outcome VALUE :=
  _ ← Check_Type vec T_ARRAY;
  len ← RARRAY_LEN vec;
  _ ← (if negb (len =? n csr)
       then Raise (rb_raise rb_eArgError
                     "Dimension Mismatch CSRMatrix.n != vec.size")
       else Ok tt);
  result ← rb_ary_new_capa (n csr);
  for_range 0 (n csr)
    (fun i result =>
       lo ← load (row_index csr) i;
       hi ← load (row_index csr) (i + 1);
       tmp ← for_range lo hi
               (fun jj tmp =>
                  v ← load (values csr) jj;
                  c ← load (col_index csr) jj;
                  x ← rb_ary_entry vec c;
                  x ← NUM2DBL x;
                  Ok (tmp + v * x)%float)
               0%float;
       rb_ary_store result i (DBL2NUM tmp))
    result.

Definition csr_matrix_dot_row (csr : csr_matrix) (vec row : VALUE)
  : outcome VALUE :=
  _ ← Check_Type vec T_ARRAY;
  _ ← Check_Type row T_FIXNUM;
  len ← RARRAY_LEN vec;
  _ ← (if negb (len =? n csr)
       then Raise (rb_raise rb_eArgError
                     "Dimension Mismatch CSRMatrix.n != vec.size")
       else Ok tt);
  i ← NUM2INT row;
  _ ← (if negb ((0 <=? i) && (i <? n csr))
       then Raise (rb_raise rb_eArgError "Index Error row_idx >= m or idx < 0")
       else Ok tt);
  lo ← load (row_index csr) i;
  hi ← load (row_index csr) (i + 1);
  tmp ← for_range lo hi
          (fun jj tmp =>
             v ← load (values csr) jj;
             c ← load (col_index csr) jj;
             x ← rb_ary_entry vec c;
             x ← NUM2DBL x;
             Ok (tmp + v * x)%float)
          0%float;
  Ok (DBL2NUM tmp).

(** ** csr_matrix_coordinates *)

(** The locals of the loop: the current row [i], the end of its slice, and
    the hash being filled. *)
Record coord_state : Type := {
  c_i : Z;
  c_row_end : Z;
  c_result : VALUE;
}.

Definition coordinates_step (csr : csr_matrix) (k : Z) (st : coord_state)
  : outcome coord_state :=
  '(i, row_end) ←
    (if k =? c_row_end st
     then row_end ← load (row_index csr) (c_i st + 1 + 1);
          Ok (c_i st + 1, row_end)
     else Ok (c_i st, c_row_end st));
  key ← rb_ary_new_capa 2;
  key ← rb_ary_store key 0 (INT2NUM i);
  c ← load (col_index csr) k;
  key ← rb_ary_store key 1 (INT2NUM c);
  v ← load (values csr) k;
  result ← rb_hash_aset (c_result st) key (DBL2NUM v);
  Ok {| c_i := i; c_row_end := row_end; c_result := result |}.

Definition csr_matrix_coordinates (csr : csr_matrix) : outcome VALUE :=
  let result := rb_hash_new in
  row_end ← load (row_index csr) 1;
  st ← for_range 0 (nnz csr) (coordinates_step csr)
         {| c_i := 0; c_row_end := row_end; c_result := result |};
  Ok (c_result st).

(** ** csr_matrix_free *)

(** What [csr_matrix_free] passes to [free]: the three blocks when [init] is
    1, then the struct itself. *)
Inductive pointer : Set :=
| ptr_values
| ptr_col_index
| ptr_row_index
| ptr_mat.

Definition csr_matrix_free (csr : csr_matrix) : list pointer :=
  (if init csr =? 1 then [ptr_values; ptr_col_index; ptr_row_index] else [])
  ++ [ptr_mat].

(** ** Method calls on a constructed object *)

(** The public methods besides the constructor.  Each one receives the struct
    behind [self] through a pointer and only reads it. *)
Inductive method : Type :=
| m_values
| m_col_index
| m_row_index
| m_mulvec (vec : VALUE)
| m_dot_row (vec row : VALUE)
| m_coordinates.

(** One call: the struct after the call and what the call returned. *)
Definition call (csr : csr_matrix) (m : method) : csr_matrix * outcome VALUE :=
  match m with
  | m_values => (csr, csr_matrix_values csr)
  | m_col_index => (csr, csr_matrix_col_index csr)
  | m_row_index => (csr, csr_matrix_row_index csr)
  | m_mulvec vec => (csr, csr_matrix_mulvec csr vec)
  | m_dot_row vec row => (csr, csr_matrix_dot_row csr vec row)
  | m_coordinates => (csr, csr_matrix_coordinates csr)
  end.

Definition calls (csr : csr_matrix) (ms : list method) : csr_matrix :=
  fold_left (fun c m => fst (call c m)) ms csr.

(** ** Inputs used in examples *)

(** A struct fresh from [ALLOC]: none of its fields means anything yet. *)
Definition blank_csr : csr_matrix :=
  {| init := 0; n := 0; nnz := 0; values := []; col_index := [];
     row_index := [] |}.

Definition blank_world : world :=
  {| self_csr := blank_csr; self_ivars := []; heap := [] |}.

Definition entry (id : VALUE) (weight : VALUE) : VALUE :=
  RHash [(id_sym, id); (weight_sym, weight)].

(** The example of the documentation of [csr_matrix_initialize]. *)
Definition example_data : VALUE :=
  RHash [ (RString "a", RArray [entry (RString "c") (RInteger 1)]);
          (RString "b", RArray [entry (RString "b") (RInteger 1)]);
          (RString "c", RArray [entry (RString "a") (RInteger 1)]) ].

Definition example_csr : csr_matrix :=
  self_csr (csr_matrix_initialize example_data (RInteger 3) blank_world).2.

(** * Predicates and inputs used in the statements *)

(** A block of [total] cells of which the first [length done] hold [done]. *)
Definition filled {T : Type} (done : list T) (total : nat) : list (option T) :=
  (Some <$> done) ++ replicate (total - length done) None.

(** Every entry of the key lookup maps a declared key to its position among
    the keys. *)
Definition lookup_ok (keys : list VALUE) (kl : list (VALUE * VALUE)) : Prop :=
  forall kv, In kv kl ->
    exists i : nat, kv.2 = RInteger (Z.of_nat i) /\ keys !! i = Some kv.1.

(** [rows] are the arrays stored under [keys] in [data]. *)
Definition rows_of (data : VALUE) (keys : list VALUE) (rows : list (list VALUE))
  : Prop :=
  Forall2 (fun k r => rb_hash_aref data k = Ok (RArray r)) keys rows.

(** An identifier: an object the embedding can use as a hash key, that is
    one that is [eql?] to itself there (nil, an integer, a string, a symbol,
    or an array of identifiers). *)
Definition identifier (v : VALUE) : Prop := rb_eql v v = true.

(** The invariant of a Ruby hash: no two keys are [eql?]. *)
Definition wf_hash (h : list (VALUE * VALUE)) : Prop :=
  Forall identifier (map fst h) /\ NoDup (map fst h).

(** The weight and the column [fill_entry] stores for an entry, read from the
    entry the way [fill_entry] reads them. *)
Definition resolve_entry (key_lookup e : VALUE) : outcome (float * Z) :=
  _ ← Check_Type e T_HASH;
  key ← rb_hash_aref e id_sym;
  w ← rb_hash_aref e weight_sym;
  weight ← NUM2DBL w;
  c ← rb_hash_aref key_lookup key;
  c ← NUM2INT c;
  Ok (weight, c).

Definition resolved_row (key_lookup : VALUE) (r : list VALUE)
    (ents : list (float * Z)) : Prop :=
  Forall2 (fun e wc => resolve_entry key_lookup e = Ok wc) r ents.

(** The value and column blocks hold [done] in their first cells. *)
Definition fill_inv (total : nat) (done : list (float * Z)) (st : fill_state)
  : Prop :=
  f_values st = filled done.*1 total /\
  f_col_index st = filled done.*2 total /\
  f_nz_idx st = Z.of_nat (length done) /\
  (length done <= total)%nat.

(** Row offsets: the number of entries before each of the first [k] rows. *)
Definition offsets (entss : list (list (float * Z))) (k : nat) : list Z :=
  (fun i => Z.of_nat (length (concat (take i entss)))) <$> seq 0 k.

Arguments offsets : simpl never.

(** The matrix whose rows hold the (weight, column) pairs [entss]. *)
Definition csr_of (entss : list (list (float * Z))) : csr_matrix :=
  {| init := 1;
     n := Z.of_nat (length entss);
     nnz := Z.of_nat (length (concat entss));
     values := Some <$> (concat entss).*1;
     col_index := Some <$> (concat entss).*2;
     row_index := Some <$> offsets entss (Datatypes.S (length entss)) |}.

(** [entss] is what the two loops read from [data]: row by row and entry by
    entry, the weight converted to a double and the identifier resolved
    through a key lookup that only knows the declared keys. *)
Definition built (data : VALUE) (entss : list (list (float * Z))) : Prop :=
  exists h kl rows,
    data = RHash h /\
    lookup_ok (map fst h) kl /\
    rows_of data (map fst h) rows /\
    Forall2 (resolved_row (RHash kl)) rows entss /\
    Z.of_nat (length (concat entss)) <= INT_MAX /\
    Z.of_nat (length h) < INT_MAX.

(** A matrix is constructed when a call of the constructor returned normally
    and left it behind [self]. *)
Definition constructed (csr : csr_matrix) : Prop :=
  exists data num_rows w w',
    csr_matrix_initialize data num_rows w = (Ok tt, w') /\ self_csr w' = csr.

(** Every column a successful construction stores is a row number. *)
Definition cols_in_range (entss : list (list (float * Z))) : Prop :=
  Forall (Forall (fun wc : float * Z =>
                    0 <= wc.2 < Z.of_nat (length entss))) entss.

Definition numeric (v : VALUE) : Prop :=
  match v with
  | RInteger _ | Flonum _ => True
  | _ => False
  end.

(** The double of a numeric object (0 for the others, which [NUM2DBL]
    rejects). *)
Definition to_double (v : VALUE) : float :=
  match NUM2DBL v with
  | Ok d => d
  | _ => 0%float
  end.

(** The sum the inner loop accumulates over the entries of one row, in
    storage order. *)
Definition row_dot (vec : list VALUE) (ents : list (float * Z)) : float :=
  fold_left
    (fun tmp wc =>
       (tmp + wc.1 * to_double (default Qnil (vec !! Z.to_nat wc.2)))%float)
    ents 0%float.

(** The weight of an entry as the constructor reads it. *)
Definition weight_of (e : VALUE) (d : float) : Prop :=
  exists wv, rb_hash_aref e weight_sym = Ok wv /\ NUM2DBL wv = Ok d.

(** The entry [csr_matrix_coordinates] is meant to store for the pair [wc]
    of row [i]: the key [[i, column]] and the weight. *)
Definition coord_entry (i : nat) (wc : float * Z) : VALUE * VALUE :=
  (RArray [INT2NUM (Z.of_nat i); INT2NUM wc.2], DBL2NUM wc.1).

(** The entries of all rows, in storage order. *)
Definition triples (entss : list (list (float * Z))) : list (VALUE * VALUE) :=
  concat (imap (fun i ents => coord_entry i <$> ents) entss).

(** The hash obtained by storing the pairs one after the other with
    [rb_hash_aset]: a later pair with a key already present overwrites its
    value. *)
Definition hash_of (kvs : list (VALUE * VALUE)) : list (VALUE * VALUE) :=
  fold_left (fun h kv => assoc_set kv.1 kv.2 h) kvs [].

(** The pair [wc] stored for the entry [e]: its weight, and the position of
    its identifier among the keys. *)
Definition entry_triple (keys : list VALUE) (e : VALUE) (wc : float * Z)
  : Prop :=
  weight_of e wc.1 /\
  exists idv, rb_hash_aref e id_sym = Ok idv /\
              0 <= wc.2 /\ keys !! Z.to_nat wc.2 = Some idv.

(** Non-decreasing: each element is at most its successor. *)
Definition non_decreasing (l : list Z) : Prop :=
  forall (i : nat) (a b : Z),
    l !! i = Some a -> l !! Datatypes.S i = Some b -> a <= b.

(** Two rows; the first holds an entry of weight 0.0. *)
Definition zero_weight_rows : list (VALUE * VALUE) :=
  [ (RString "a", RArray [entry (RString "a") (Flonum 0);
                          entry (RString "b") (RInteger 2)]);
    (RString "b", RArray []) ].

Definition zero_weight_data : VALUE := RHash zero_weight_rows.

(** The matrix of the documentation of [csr_matrix_coordinates]:
    rows [0 1 0], [0 0 0], [1 0 1]. *)
Definition doc_data : VALUE :=
  RHash [ (RString "a", RArray [entry (RString "b") (RInteger 1)]);
          (RString "b", RArray []);
          (RString "c", RArray [entry (RString "a") (RInteger 1);
                                entry (RString "c") (RInteger 1)]) ].

(** [o] raises nothing but exceptions satisfying [Q]. *)
Definition raises_only {A : Type} (Q : exception -> Prop) (o : outcome A)
  : Prop :=
  forall e, o = Raise e -> Q e.

(** The same for the constructor, which also changes the world. *)
Definition M_raises_only {A : Type} (Q : exception -> Prop) (m : M A) : Prop :=
  forall w e w', m w = (Raise e, w') -> Q e.

(** The classes the constructor can raise. *)
Definition constructor_class (e : exception) : Prop :=
  exc_class e = rb_eArgError \/ exc_class e = rb_eTypeError \/
  exc_class e = rb_eRangeError.

(** Some entry of some row names an identifier that is not a key of the
    hash. *)
Definition unresolved_id (h : list (VALUE * VALUE)) : Prop :=
  exists (k : VALUE) (r : list VALUE) (e idv : VALUE),
    In (k, RArray r) h /\
    In e r /\
    TYPE e = T_HASH /\
    rb_hash_aref e id_sym = Ok idv /\
    ~ In idv (map fst h).

(** One row whose only entry points at an identifier that is no key. *)
Definition dangling_data : VALUE :=
  RHash [ (RString "a", RArray [entry (RString "z") (RInteger 1)]) ].

Definition dimension_mismatch : exception :=
  rb_raise rb_eArgError "Dimension Mismatch CSRMatrix.n != vec.size".

Definition index_error : exception :=
  rb_raise rb_eArgError "Index Error row_idx >= m or idx < 0".

(** The world once the constructor has cleared [init]. *)
Definition cleared (w : world) : world :=
  {| self_csr := {| init := 0; n := n (self_csr w); nnz := nnz (self_csr w);
                    values := values (self_csr w);
                    col_index := col_index (self_csr w);
                    row_index := row_index (self_csr w) |};
     self_ivars := self_ivars w;
     heap := heap w |}.

(** The only row is an array whose entry is a number, not a hash. *)
Definition number_entry_data : VALUE :=
  RHash [ (RString "a", RArray [RInteger 1]) ].

(** ** Predicates and inputs of the further properties *)

(** An entry the constructor accepts under the declared [keys]: a hash whose
    [:id] is one of the keys and whose [:weight] is a number. *)
Definition accepted_entry (keys : list VALUE) (e : VALUE) : Prop :=
  exists idv wv,
    TYPE e = T_HASH /\
    rb_hash_aref e id_sym = Ok idv /\ In idv keys /\
    rb_hash_aref e weight_sym = Ok wv /\ numeric wv.

(** The key lookup the first loop builds when the keys are distinct: each
    key with its position. *)
Definition key_index (keys : list VALUE) : list (VALUE * VALUE) :=
  imap (fun i k => (k, INT2NUM (Z.of_nat i))) keys.

(** The struct behind [self] and the instance variables are those of [w]. *)
Definition same_object (w w' : world) : Prop :=
  self_csr w' = self_csr w /\ self_ivars w' = self_ivars w.

(** A step that leaves the object alone when it raises, respectively when
    it returns. *)
Definition raise_keeps {A : Type} (m : M A) : Prop :=
  forall w e w', m w = (Raise e, w') -> same_object w w'.

Definition return_keeps {A : Type} (m : M A) : Prop :=
  forall w a w', m w = (Ok a, w') -> same_object w w'.

(** The outcome is a value or an exception: nothing C leaves undefined was
    executed. *)
Definition no_fault {A : Type} (o : outcome A) : Prop :=
  match o with
  | Undefined _ => False
  | _ => True
  end.

(** The number of entries in the rows of [h] that are arrays. *)
Fixpoint total_entries (h : list (VALUE * VALUE)) : nat :=
  match h with
  | [] => O
  | (_, RArray r) :: h' => (length r + total_entries h')%nat
  | _ :: h' => total_entries h'
  end.

(** The weight of the last pair of a row that has column [j], if any. *)
Definition last_weight (j : Z) (ents : list (float * Z)) : option float :=
  fold_left (fun acc wc => if wc.2 =? j then Some wc.1 else acc) ents None.

(** One row that names its own identifier twice, with weights 1 and 5. *)
Definition duplicate_rows : list (VALUE * VALUE) :=
  [ (RString "a", RArray [entry (RString "a") (RInteger 1);
                          entry (RString "a") (RInteger 5)]) ].

(** The TypeError of a failed numeric conversion. *)
Definition conversion_error (e : exception) : Prop :=
  exists got, e = no_implicit_conversion got.

(** * Properties *)

(** ** Outcomes and loops *)

Lemma bind_Ok {A B : Type} (m : outcome A) (k : A -> outcome B) (b : B) :
  (m ≫= k) = Ok b <-> exists a, m = Ok a /\ k a = Ok b.
Proof.
  destruct m as [a|e|f]; simpl; split.
  - intros H. exists a. split; [reflexivity | exact H].
  - intros (a' & Ha & H). congruence.
  - discriminate.
  - intros (a' & Ha & _). discriminate.
  - discriminate.
  - intros (a' & Ha & _). discriminate.
Qed.

Lemma bind_ret {A B : Type} (a : A) (k : A -> outcome B) : (Ok a ≫= k) = k a.
Proof. reflexivity. Qed.

(** Splits a successful sequence of binds into its successful steps. *)
Ltac ok_steps H :=
  repeat match type of H with
    | (_ ≫= _) = Ok _ =>
        let a := fresh "a" in
        let Ha := fresh "Hstep" in
        apply bind_Ok in H as (a & Ha & H)
    end.

Lemma for_loop_app {S : Type} (k1 k2 : nat) (i : Z)
    (body : Z -> S -> outcome S) (s : S) :
  for_loop (k1 + k2) i body s
  = (for_loop k1 i body s ≫= for_loop k2 (i + Z.of_nat k1) body).
Proof.
  revert i s. induction k1 as [|k1 IH]; intros i s.
  - simpl. f_equal. lia.
  - change (Datatypes.S k1 + k2)%nat with (Datatypes.S (k1 + k2)).
    simpl. destruct (body i s) as [s1|e|f]; simpl; try reflexivity.
    rewrite IH. do 2 f_equal. lia.
Qed.

(** A loop depends on its body at the indices it visits only. *)
Lemma for_loop_ext {S : Type} (steps : nat) (lo : Z)
    (b1 b2 : Z -> S -> outcome S) (s : S) :
  (forall j t, lo <= j < lo + Z.of_nat steps -> b1 j t = b2 j t) ->
  for_loop steps lo b1 s = for_loop steps lo b2 s.
Proof.
  revert lo s. induction steps as [|steps IH]; intros lo s Hext; [reflexivity |].
  simpl. rewrite (Hext lo s) by lia.
  destruct (b2 lo s) as [s1|e|f]; simpl; try reflexivity.
  apply IH. intros j t Hj. apply Hext. lia.
Qed.

(** A loop that succeeds carries an invariant from its initial state to its
    final state. *)
Lemma for_loop_inv {S : Type} (P : nat -> S -> Prop) (steps : nat) (lo : Z)
    (body : Z -> S -> outcome S) (s s' : S) :
  for_loop steps lo body s = Ok s' ->
  P O s ->
  (forall (k : nat) (t t' : S),
      (k < steps)%nat -> P k t -> body (lo + Z.of_nat k) t = Ok t' ->
      P (Datatypes.S k) t') ->
  P steps s'.
Proof.
  revert lo s P. induction steps as [|steps IH]; intros lo s P Hrun H0 Hstep.
  - simpl in Hrun. congruence.
  - simpl in Hrun. apply bind_Ok in Hrun as (s1 & Hb & Hrun).
    apply (IH (lo + 1) s1 (fun k t => P (Datatypes.S k) t)); [exact Hrun | |].
    + apply (Hstep O s s1); [lia | exact H0 |].
      rewrite Z.add_0_r. exact Hb.
    + intros k t t' Hk HP Hbody. apply (Hstep (Datatypes.S k) t t'); [lia | exact HP |].
      rewrite <- Hbody. f_equal. lia.
Qed.

(** A loop whose body succeeds under an invariant succeeds. *)
Lemma for_loop_total {S : Type} (P : nat -> S -> Prop) (steps : nat) (lo : Z)
    (body : Z -> S -> outcome S) (s : S) :
  P O s ->
  (forall (k : nat) (t : S),
      (k < steps)%nat -> P k t ->
      exists t', body (lo + Z.of_nat k) t = Ok t' /\ P (Datatypes.S k) t') ->
  exists s', for_loop steps lo body s = Ok s' /\ P steps s'.
Proof.
  revert lo s P. induction steps as [|steps IH]; intros lo s P H0 Hstep.
  - exists s. split; [reflexivity | exact H0].
  - destruct (Hstep O s) as (s1 & Hb & H1); [lia | exact H0 |].
    rewrite Z.add_0_r in Hb.
    destruct (IH (lo + 1) s1 (fun k t => P (Datatypes.S k) t)) as (s' & Hrun & HP).
    + exact H1.
    + intros k t Hk HP. destruct (Hstep (Datatypes.S k) t) as (t' & Hbody & HP');
        [lia | exact HP |].
      exists t'. split; [| exact HP'].
      rewrite <- Hbody. f_equal. lia.
    + exists s'. split; [| exact HP]. simpl. rewrite Hb. exact Hrun.
Qed.

(** ** Identifiers *)

Lemma rb_eql_eq : forall a b : VALUE, rb_eql a b = true -> a = b.
Proof.
  fix IH 1. intros a b. destruct a as [|x|d|s|s|xs|h], b as [|y|d'|t|t|ys|h'];
    simpl; try discriminate.
  - reflexivity.
  - intros H. apply Z.eqb_eq in H. congruence.
  - intros H. apply String.eqb_eq in H. congruence.
  - intros H. apply String.eqb_eq in H. congruence.
  - intros H. f_equal. revert ys H.
    induction xs as [|x xs IHxs]; intros [|y ys] H; try discriminate.
    + reflexivity.
    + apply andb_prop in H as [Hx Hxs].
      f_equal; [apply IH; exact Hx | apply IHxs; exact Hxs].
Qed.

Lemma assoc_find_In (k v : VALUE) (h : list (VALUE * VALUE)) :
  assoc_find k h = Some v -> In (k, v) h.
Proof.
  induction h as [|[k' v'] h IH]; simpl; [discriminate |].
  destruct (rb_eql k' k) eqn:E.
  - apply rb_eql_eq in E. intros [= <-]. left. congruence.
  - intros H. right. apply IH. exact H.
Qed.

Lemma assoc_set_In (k v : VALUE) (h : list (VALUE * VALUE)) (kv : VALUE * VALUE) :
  In kv (assoc_set k v h) -> In kv h \/ kv = (k, v).
Proof.
  induction h as [|[k' v'] h IH]; simpl.
  - intros [<- | []]. right. reflexivity.
  - destruct (rb_eql k' k) eqn:E; simpl.
    + apply rb_eql_eq in E. subst k'. intros [<- | H]; [right; reflexivity | tauto].
    + intros [<- | H]; [tauto |]. destruct (IH H); tauto.
Qed.

Lemma assoc_find_wf (h : list (VALUE * VALUE)) (i : nat) (k v : VALUE) :
  wf_hash h -> h !! i = Some (k, v) -> assoc_find k h = Some v.
Proof.
  revert i. induction h as [|[k0 v0] h IH]; intros i [Hid Hnd] Hi; [discriminate |].
  simpl in Hid, Hnd. apply Forall_cons_iff in Hid as [Hk0 Hid].
  apply list.NoDup_cons in Hnd as [Hnotin Hnd].
  destruct i as [|i]; simpl in Hi.
  - injection Hi as -> ->. simpl. rewrite Hk0. reflexivity.
  - simpl. destruct (rb_eql k0 k) eqn:E.
    + apply rb_eql_eq in E. subst k0. exfalso. apply Hnotin.
      apply list_elem_of_fmap. exists (k, v). split; [reflexivity |].
      eapply list_elem_of_lookup_2. exact Hi.
    + apply (IH i); [split; assumption | exact Hi].
Qed.

Lemma rb_hash_aref_wf (h : list (VALUE * VALUE)) (i : nat) (k v : VALUE) :
  wf_hash h -> h !! i = Some (k, v) -> rb_hash_aref (RHash h) k = Ok v.
Proof. intros Hwf Hi. simpl. rewrite (assoc_find_wf h i k v Hwf Hi). reflexivity. Qed.

Lemma rows_of_prefix_wf (hpre rest : list (VALUE * VALUE))
    (rows : list (list VALUE)) :
  wf_hash (hpre ++ rest) ->
  map snd hpre = RArray <$> rows ->
  rows_of (RHash (hpre ++ rest)) (map fst hpre) rows.
Proof.
  intros Hwf Hrows. apply Forall2_same_length_lookup. split.
  - rewrite length_map. rewrite <- (length_map snd hpre), Hrows, length_fmap.
    reflexivity.
  - intros i k r Hk Hr.
    change (map fst hpre) with (fst <$> hpre) in Hk.
    rewrite list_lookup_fmap in Hk.
    destruct (hpre !! i) as [[k' v]|] eqn:Hi; [| discriminate].
    simpl in Hk. injection Hk as ->.
    assert (Hv : (map snd hpre) !! i = Some v).
    { change (map snd hpre) with (snd <$> hpre).
      rewrite list_lookup_fmap, Hi. reflexivity. }
    rewrite Hrows, list_lookup_fmap, Hr in Hv. simpl in Hv. injection Hv as <-.
    apply (rb_hash_aref_wf _ i). { exact Hwf. }
    rewrite lookup_app_l; [exact Hi |]. eapply lookup_lt_Some. exact Hi.
Qed.

Lemma rows_of_wf (h : list (VALUE * VALUE)) (rows : list (list VALUE)) :
  wf_hash h ->
  rows_of (RHash h) (map fst h) rows <-> map snd h = RArray <$> rows.
Proof.
  intros Hwf. split.
  - intros Hrows. apply list_eq. intros i.
    change (map snd h) with (snd <$> h). rewrite !list_lookup_fmap.
    destruct (h !! i) as [[k v]|] eqn:Hi; simpl.
    + assert (Hk : (map fst h) !! i = Some k).
      { change (map fst h) with (fst <$> h).
        rewrite list_lookup_fmap, Hi. reflexivity. }
      destruct (Forall2_lookup_l _ _ _ _ _ Hrows Hk) as (r & Hr & Hrow).
      cbv beta in Hrow. rewrite (rb_hash_aref_wf h i k v Hwf Hi) in Hrow.
      injection Hrow as ->. rewrite Hr. reflexivity.
    + apply Forall2_length in Hrows. rewrite length_map in Hrows.
      apply lookup_ge_None in Hi.
      rewrite (lookup_ge_None_2 rows i) by lia. reflexivity.
  - intros Hrows. rewrite <- (app_nil_r h) at 1.
    apply rows_of_prefix_wf; [rewrite app_nil_r; exact Hwf | exact Hrows].
Qed.

(** ** Blocks being filled from the left *)

Lemma malloc_cells_filled {T : Type} (n : Z) :
  @malloc_cells T n = filled [] (Z.to_nat n).
Proof. unfold malloc_cells, filled. simpl. f_equal. lia. Qed.

Lemma filled_full {T : Type} (l : list T) : filled l (length l) = Some <$> l.
Proof. unfold filled. rewrite Nat.sub_diag. simpl. apply app_nil_r. Qed.

Lemma length_filled {T : Type} (done : list T) (total : nat) :
  (length done <= total)%nat -> length (filled done total) = total.
Proof.
  intros H. unfold filled. rewrite length_app, length_fmap, length_replicate. lia.
Qed.

Lemma store_filled {T : Type} (done : list T) (total : nat) (v : T)
    (r : list (option T)) :
  (length done <= total)%nat ->
  store (filled done total) (Z.of_nat (length done)) v = Ok r ->
  (length done < total)%nat /\ r = filled (done ++ [v]) total.
Proof.
  intros Hle. unfold store. rewrite length_filled by exact Hle.
  destruct (0 <=? Z.of_nat (length done)) eqn:E0; [| discriminate].
  destruct (Z.of_nat (length done) <? Z.of_nat total) eqn:E1; [| discriminate].
  simpl. intros [= <-]. apply Z.ltb_lt in E1. split; [lia |].
  rewrite Nat2Z.id. unfold filled.
  rewrite insert_app_r_alt by (rewrite length_fmap; lia).
  rewrite length_fmap, Nat.sub_diag, fmap_app, length_app. simpl.
  destruct (total - length done)%nat as [|m] eqn:Em; [lia |].
  simpl. rewrite <- app_assoc. simpl. do 3 f_equal. lia.
Qed.

Lemma load_Some {T : Type} (l : list T) (i : Z) (v : T) :
  load (Some <$> l) i = Ok v <-> 0 <= i /\ l !! Z.to_nat i = Some v.
Proof.
  unfold load. destruct (i <? 0) eqn:E.
  - split; [discriminate | lia].
  - rewrite list_lookup_fmap. destruct (l !! Z.to_nat i) as [x|]; simpl.
    + split; [intros [= ->]; split; [lia | reflexivity] | intros [_ [= ->]]; reflexivity].
    + split; [discriminate | intros [_ H]; discriminate].
Qed.

Lemma load_Some_nat {T : Type} (l : list T) (i : nat) (v : T) :
  l !! i = Some v -> load (Some <$> l) (Z.of_nat i) = Ok v.
Proof. intros H. apply load_Some. rewrite Nat2Z.id. split; [lia | exact H]. Qed.

Lemma load_short {T : Type} (a : list (option T)) (i : Z) :
  Z.of_nat (length a) <= i -> load a i = Undefined OutOfBounds.
Proof.
  intros H. unfold load. destruct (i <? 0) eqn:E; [reflexivity |].
  rewrite lookup_ge_None_2 by lia. reflexivity.
Qed.

Lemma fits_int_spec (z : Z) : fits_int z = true <-> INT_MIN <= z <= INT_MAX.
Proof. unfold fits_int. rewrite andb_true_iff, !Z.leb_le. reflexivity. Qed.

Lemma int_add_Ok (a b c : Z) :
  int_add a b = Ok c <-> c = a + b /\ INT_MIN <= a + b <= INT_MAX.
Proof.
  unfold int_add. destruct (fits_int (a + b)) eqn:E.
  - apply fits_int_spec in E. split; [intros [= <-]; tauto | intros [-> _]; reflexivity].
  - split; [discriminate |]. intros [_ H]. apply fits_int_spec in H. congruence.
Qed.

Lemma int_of_long_Ok (a c : Z) :
  int_of_long a = Ok c <-> c = a /\ INT_MIN <= a <= INT_MAX.
Proof.
  unfold int_of_long. destruct (fits_int a) eqn:E.
  - apply fits_int_spec in E. split; [intros [= <-]; tauto | intros [-> _]; reflexivity].
  - split; [discriminate |]. intros [_ H]. apply fits_int_spec in H. congruence.
Qed.

Lemma rb_ary_entry_nat (a : list VALUE) (i : nat) (x : VALUE) :
  a !! i = Some x -> rb_ary_entry (RArray a) (Z.of_nat i) = Ok x.
Proof.
  intros H. unfold rb_ary_entry. pose proof (lookup_lt_Some _ _ _ H) as Hlt.
  destruct (Z.of_nat i <? 0) eqn:E0; [lia |].
  simpl. destruct (Z.of_nat (length a) <=? Z.of_nat i) eqn:E1.
  - apply Z.leb_le in E1. lia.
  - rewrite Nat2Z.id, H, ?E0. reflexivity.
Qed.

Lemma FIXABLE_spec (z : Z) : FIXABLE z = true <-> FIXNUM_MIN <= z <= FIXNUM_MAX.
Proof. unfold FIXABLE. rewrite andb_true_iff, !Z.leb_le. reflexivity. Qed.

Lemma FIXABLE_int (z : Z) : INT_MIN <= z <= INT_MAX -> FIXABLE z = true.
Proof.
  intros H. apply FIXABLE_spec.
  unfold INT_MIN, INT_MAX, FIXNUM_MIN, FIXNUM_MAX in *. lia.
Qed.

Lemma Check_Type_fixnum (z : Z) :
  FIXABLE z = true -> Check_Type (RInteger z) T_FIXNUM = Ok tt.
Proof. intros H. unfold Check_Type. cbn [TYPE]. rewrite H. reflexivity. Qed.

Lemma Check_Type_Ok (v : VALUE) (t : ruby_type) (u : unit) :
  Check_Type v t = Ok u <-> TYPE v = t.
Proof.
  unfold Check_Type. destruct (ruby_type_eqb (TYPE v) t) eqn:E.
  - split; [intros _ | intros _; destruct u; reflexivity].
    destruct (TYPE v), t; simpl in E; congruence.
  - split; [discriminate |]. intros <-. destruct (TYPE v); discriminate.
Qed.

(** ** The first loop of mat_to_sparse *)

Lemma count_rows_spec (data : VALUE) (keys : list VALUE) (klv : VALUE) (cnt : Z) :
  for_range 0 (Z.of_nat (length keys)) (count_row data (RArray keys))
    (rb_hash_new, 0) = Ok (klv, cnt) ->
  exists kl rows,
    klv = RHash kl /\ lookup_ok keys kl /\
    rows_of data keys rows /\
    cnt = Z.of_nat (length (concat rows)) /\ cnt <= INT_MAX.
Proof.
  unfold for_range. rewrite Z.sub_0_r, Nat2Z.id. intros Hrun.
  pose (P := fun (k : nat) (st : VALUE * Z) =>
    exists kl rows,
      st.1 = RHash kl /\ lookup_ok keys kl /\
      rows_of data (take k keys) rows /\
      st.2 = Z.of_nat (length (concat rows)) /\ st.2 <= INT_MAX).
  assert (HP : P (length keys) (klv, cnt)).
  { apply (for_loop_inv P _ _ _ _ _ Hrun).
    - exists [], []. simpl. split_and!; try reflexivity.
      + intros kv [].
      + rewrite take_0. constructor.
      + unfold INT_MAX. lia.
    - intros k [klv0 cnt0] [klv1 cnt1] Hk (kl & rows & Hkl & Hok & Hrows & Hcnt & Hmax) Hbody.
      simpl in Hkl, Hcnt, Hmax. subst klv0.
      destruct (lookup_lt_is_Some_2 keys k Hk) as [key Hkey].
      unfold count_row in Hbody. rewrite Z.add_0_l in Hbody.
      rewrite (rb_ary_entry_nat _ _ _ Hkey) in Hbody. simpl in Hbody.
      ok_steps Hbody. injection Hbody as <- <-.
      apply Check_Type_Ok in Hstep0.
      destruct a as [| | | | |r|]; try discriminate.
      simpl in Hstep1. injection Hstep1 as <-.
      apply int_of_long_Ok in Hstep2 as [-> _].
      apply int_add_Ok in Hstep3 as [-> [_ Hfit]].
      exists (assoc_set key (INT2NUM (Z.of_nat k)) kl), (rows ++ [r]).
      simpl. split_and!; try reflexivity.
      + intros kv H.
        apply assoc_set_In in H as [H | ->]; [apply Hok; exact H |].
        exists k. split; [reflexivity | exact Hkey].
      + rewrite (take_S_r _ _ _ Hkey). apply Forall2_app; [exact Hrows |].
        constructor; [exact Hstep | constructor].
      + rewrite concat_app, length_app. simpl. rewrite app_nil_r, Hcnt. lia.
      + rewrite Hcnt in Hfit. lia. }
  destruct HP as (kl & rows & Hkl & Hok & Hrows & Hcnt & Hmax). simpl in *.
  exists kl, rows. rewrite firstn_all in Hrows. split_and!; assumption.
Qed.

(** ** The second loop of mat_to_sparse *)

Lemma fill_entry_spec (kl : VALUE) (r : list VALUE) (total : nat)
    (done : list (float * Z)) (j : nat) (e : VALUE) (st st' : fill_state) :
  r !! j = Some e ->
  fill_inv total done st ->
  fill_entry kl (RArray r) (Z.of_nat j) st = Ok st' ->
  exists wc, resolve_entry kl e = Ok wc /\ fill_inv total (done ++ [wc]) st' /\
             f_row_index st' = f_row_index st.
Proof.
  intros He (Hv & Hc & Hnz & Hle) Hrun. unfold fill_entry in Hrun.
  rewrite (rb_ary_entry_nat _ _ _ He) in Hrun. simpl in Hrun.
  apply bind_Ok in Hrun as (u & Hu & Hrun).
  apply bind_Ok in Hrun as (key & Hid & Hrun).
  apply bind_Ok in Hrun as (w & Hw & Hrun).
  apply bind_Ok in Hrun as (weight & Hweight & Hrun).
  apply bind_Ok in Hrun as (vals & Hvals & Hrun).
  apply bind_Ok in Hrun as (cv & Hcv & Hrun).
  apply bind_Ok in Hrun as (c & Hcol & Hrun).
  apply bind_Ok in Hrun as (cols & Hcols & Hrun).
  injection Hrun as <-.
  rewrite Hv, Hnz in Hvals. rewrite Hc, Hnz in Hcols.
  rewrite <- (length_fmap fst done) in Hvals.
  rewrite <- (length_fmap snd done) in Hcols.
  apply store_filled in Hvals as [Hlt ->]; [| rewrite length_fmap; exact Hle].
  apply store_filled in Hcols as [_ ->]; [| rewrite length_fmap; exact Hle].
  rewrite length_fmap in Hlt.
  exists (weight, c). split; [| split].
  - unfold resolve_entry. rewrite Hu. simpl. rewrite Hid. simpl.
    rewrite Hw. simpl. rewrite Hweight. simpl. rewrite Hcv. simpl.
    rewrite Hcol. reflexivity.
  - unfold fill_inv. simpl. rewrite !fmap_app, length_app. simpl.
    split_and!; try reflexivity; lia.
  - reflexivity.
Qed.

Lemma fill_entries_spec (kl : VALUE) (r : list VALUE) (total : nat)
    (done : list (float * Z)) (st st' : fill_state) :
  for_range 0 (Z.of_nat (length r)) (fill_entry kl (RArray r)) st = Ok st' ->
  fill_inv total done st ->
  exists ents, resolved_row kl r ents /\ fill_inv total (done ++ ents) st' /\
               f_row_index st' = f_row_index st.
Proof.
  unfold for_range. rewrite Z.sub_0_r, Nat2Z.id. intros Hrun Hinv.
  pose (P := fun (j : nat) (t : fill_state) =>
    exists ents, resolved_row kl (take j r) ents /\
                 fill_inv total (done ++ ents) t /\
                 f_row_index t = f_row_index st).
  assert (HP : P (length r) st').
  { apply (for_loop_inv P _ _ _ _ _ Hrun).
    - exists []. rewrite take_0, app_nil_r. split_and!; [constructor | exact Hinv | reflexivity].
    - intros j t t' Hj (ents & Hres & Hfi & Hri) Hbody.
      destruct (lookup_lt_is_Some_2 r j Hj) as [e He].
      rewrite Z.add_0_l in Hbody.
      destruct (fill_entry_spec _ _ _ _ _ _ _ _ He Hfi Hbody) as (wc & Hwc & Hfi' & Hri').
      exists (ents ++ [wc]). split_and!.
      + rewrite (take_S_r _ _ _ He). apply Forall2_app; [exact Hres |].
        constructor; [exact Hwc | constructor].
      + rewrite app_assoc. exact Hfi'.
      + congruence. }
  destruct HP as (ents & Hres & Hfi & Hri). rewrite firstn_all in Hres.
  exists ents. split_and!; assumption.
Qed.

Lemma offsets_snoc (entss : list (list (float * Z))) (ents : list (float * Z)) :
  offsets (entss ++ [ents]) (Datatypes.S (length entss))
  = offsets entss (length entss) ++ [Z.of_nat (length (concat entss))].
Proof.
  unfold offsets. rewrite seq_S, fmap_app. simpl. f_equal.
  - apply list_fmap_ext. intros i x Hx. apply lookup_seq in Hx as [-> Hlt].
    simpl. rewrite take_app_le by lia. reflexivity.
  - rewrite take_app_le by lia. rewrite firstn_all. reflexivity.
Qed.

Lemma offsets_S (entss : list (list (float * Z))) :
  offsets entss (Datatypes.S (length entss))
  = offsets entss (length entss) ++ [Z.of_nat (length (concat entss))].
Proof.
  unfold offsets. rewrite seq_S, fmap_app. simpl. rewrite firstn_all. reflexivity.
Qed.

Lemma length_offsets (entss : list (list (float * Z))) (k : nat) :
  length (offsets entss k) = k.
Proof. unfold offsets. rewrite length_fmap, length_seq. reflexivity. Qed.

Lemma fill_rows_spec (data : VALUE) (keys : list VALUE) (kl : VALUE)
    (rows : list (list VALUE)) (total n1 : nat) (st st' : fill_state) :
  rows_of data keys rows ->
  for_range 0 (Z.of_nat (length keys)) (fill_row data (RArray keys) kl) st = Ok st' ->
  fill_inv total [] st ->
  f_row_index st = filled [] n1 ->
  exists entss,
    Forall2 (resolved_row kl) rows entss /\
    fill_inv total (concat entss) st' /\
    f_row_index st' = filled (offsets entss (length keys)) n1 /\
    (length keys <= n1)%nat.
Proof.
  unfold for_range. rewrite Z.sub_0_r, Nat2Z.id. intros Hrows Hrun Hinv Hri.
  pose (P := fun (k : nat) (t : fill_state) =>
    exists entss,
      Forall2 (resolved_row kl) (take k rows) entss /\
      fill_inv total (concat entss) t /\
      f_row_index t = filled (offsets entss k) n1 /\
      (k <= n1)%nat).
  pose proof Hrows as Hlen. apply Forall2_length in Hlen.
  assert (HP : P (length keys) st').
  { apply (for_loop_inv P _ _ _ _ _ Hrun).
    - exists []. rewrite take_0. split_and!; [constructor | exact Hinv | exact Hri | lia].
    - intros k t t' Hk (entss & Hres & Hfi & Hoff & Hkn) Hbody.
      destruct (lookup_lt_is_Some_2 keys k Hk) as [key Hkey].
      destruct (lookup_lt_is_Some_2 rows k) as [r Hr]; [lia |].
      pose proof (Forall2_lookup_lr _ _ _ _ _ _ Hrows Hkey Hr) as Hrow.
      simpl in Hrow.
      pose proof Hres as Hlen'. apply Forall2_length in Hlen'.
      rewrite length_take in Hlen'.
      assert (length entss = k) as Hk' by lia.
      unfold fill_row in Hbody. rewrite Z.add_0_l in Hbody.
      apply bind_Ok in Hbody as (ri & Hstore & Hbody).
      rewrite (rb_ary_entry_nat _ _ _ Hkey) in Hbody. simpl in Hbody.
      rewrite Hrow in Hbody. simpl in Hbody.
      apply bind_Ok in Hbody as (m & Hm & Hbody).
      apply int_of_long_Ok in Hm as [-> _].
      rewrite Hoff in Hstore.
      rewrite <- (length_offsets entss k) in Hstore at 2.
      apply store_filled in Hstore as [Hlt ->]; [| rewrite length_offsets; exact Hkn].
      rewrite length_offsets in Hlt.
      apply (fill_entries_spec _ _ total (concat entss)) in Hbody.
      2:{ destruct Hfi as (Hv & Hc & Hnz & Hle). unfold fill_inv. simpl.
          split_and!; assumption. }
      destruct Hbody as (ents & Hents & Hfi' & Hri'). simpl in Hri'.
      exists (entss ++ [ents]). split_and!.
      + rewrite (take_S_r _ _ _ Hr). apply Forall2_app; [exact Hres |].
        constructor; [exact Hents | constructor].
      + rewrite concat_app. simpl. rewrite app_nil_r. exact Hfi'.
      + rewrite Hri'. destruct Hfi as (_ & _ & Hnz & _). rewrite Hnz.
        rewrite <- Hk'. rewrite offsets_snoc. reflexivity.
      + lia. }
  destruct HP as (entss & Hres & Hfi & Hoff & Hkn).
  rewrite Hlen, firstn_all in Hres.
  exists entss. split_and!; assumption.
Qed.

(** ** What a successful construction leaves behind *)

Lemma M_bind_Ok {A B : Type} (m : M A) (k : A -> M B) (w w' : world) (b : B) :
  (m ≫= k) w = (Ok b, w') <->
  exists a w1, m w = (Ok a, w1) /\ k a w1 = (Ok b, w').
Proof.
  unfold mbind, M_bind. destruct (m w) as [[a|e|f] w1]; split.
  - intros H. exists a, w1. split; [reflexivity | exact H].
  - intros (a' & w2 & [= <- <-] & H). exact H.
  - discriminate.
  - intros (a' & w2 & [=] & _).
  - discriminate.
  - intros (a' & w2 & [=] & _).
Qed.

Lemma lift_Ok {A : Type} (o : outcome A) (w w' : world) (a : A) :
  lift o w = (Ok a, w') <-> o = Ok a /\ w' = w.
Proof.
  unfold lift. split; [intros [= -> ->]; tauto | intros [-> ->]; reflexivity].
Qed.

Lemma mat_to_sparse_Ok (h : list (VALUE * VALUE)) (num_rows : VALUE)
    (w w' : world) :
  NUM2INT num_rows = Ok (Z.of_nat (length h)) ->
  mat_to_sparse (RHash h) (RArray (map fst h)) num_rows w = (Ok tt, w') ->
  exists entss,
    built (RHash h) entss /\
    self_csr w' = csr_of entss /\
    self_ivars w' = self_ivars w /\
    heap w' = [sizeof_int * (n (csr_of entss) + 1);
               sizeof_int * nnz (csr_of entss);
               sizeof_double * nnz (csr_of entss)] ++ heap w.
Proof.
  intros Hn Hrun. unfold mat_to_sparse in Hrun. rewrite Hn in Hrun.
  apply M_bind_Ok in Hrun as (n0 & w0 & [[= <-] ->]%lift_Ok & Hrun).
  apply M_bind_Ok in Hrun as ([klv cnt] & w0 & [Hpass1 ->]%lift_Ok & Hrun).
  rewrite <- (length_map fst h) in Hpass1.
  apply count_rows_spec in Hpass1 as (kl & rows & -> & Hok & Hrows & -> & Hmax).
  apply M_bind_Ok in Hrun as ([] & w1 & [= <-] & Hrun).
  apply M_bind_Ok in Hrun as ([] & w2 & [= <-] & Hrun).
  apply M_bind_Ok in Hrun as (n1 & w3 & [Hn1 ->]%lift_Ok & Hrun).
  apply int_add_Ok in Hn1 as [-> [_ Hn1]].
  apply M_bind_Ok in Hrun as ([] & w4 & [= <-] & Hrun).
  apply M_bind_Ok in Hrun as (st & w5 & [Hpass2 ->]%lift_Ok & Hrun).
  apply M_bind_Ok in Hrun as (ri & w6 & [Hlast ->]%lift_Ok & Hrun).
  injection Hrun as <-. simpl.
  rewrite <- (length_map fst h) in Hpass2 at 1.
  eapply (fill_rows_spec _ _ _ rows (length (concat rows))
            (Datatypes.S (length h))) in Hpass2; [| exact Hrows | |].
  2:{ unfold fill_inv. simpl. rewrite !malloc_cells_filled, Nat2Z.id.
      split_and!; [reflexivity | reflexivity | reflexivity | lia]. }
  2:{ simpl. rewrite malloc_cells_filled. f_equal. lia. }
  destruct Hpass2 as (entss & Hres & (Hv & Hc & Hnz & Hle) & Hri & _).
  assert (Hlen : length entss = length h).
  { apply Forall2_length in Hres. apply Forall2_length in Hrows.
    rewrite length_map in Hrows. lia. }
  assert (Hcnt : length (concat entss) = length (concat rows)).
  { clear -Hres. induction Hres as [|r ents rows entss Hr _ IH]; [reflexivity |].
    simpl. rewrite !length_app, IH. f_equal. apply Forall2_length in Hr. lia. }
  rewrite length_map in Hri.
  rewrite Hri in Hlast.
  replace (Z.of_nat (length h))
    with (Z.of_nat (length (offsets entss (length h)))) in Hlast
    by (rewrite length_offsets; reflexivity).
  apply store_filled in Hlast as [_ ->]; [| rewrite length_offsets; lia].
  exists entss. split_and!.
  - exists h, kl, rows.
    split_and!; try assumption; try reflexivity; lia.
  - unfold csr_of. rewrite Hlen, Hcnt. f_equal.
    + rewrite Hv, <- Hcnt, <- (length_fmap fst (concat entss)). apply filled_full.
    + rewrite Hc, <- Hcnt, <- (length_fmap snd (concat entss)). apply filled_full.
    + rewrite <- Hlen, <- Hcnt, <- offsets_S.
      rewrite <- (length_offsets entss (Datatypes.S (length entss))) at 2.
      apply filled_full.
  - reflexivity.
  - simpl. rewrite Hlen, Hcnt. reflexivity.
Qed.

Lemma csr_matrix_initialize_Ok (data num_rows : VALUE) (w w' : world) :
  csr_matrix_initialize data num_rows w = (Ok tt, w') ->
  exists entss,
    built data entss /\
    num_rows = RInteger (Z.of_nat (length entss)) /\
    self_csr w' = csr_of entss /\
    heap w' = [sizeof_int * (n (csr_of entss) + 1);
               sizeof_int * nnz (csr_of entss);
               sizeof_double * nnz (csr_of entss)] ++ heap w.
Proof.
  intros Hrun. unfold csr_matrix_initialize in Hrun.
  apply M_bind_Ok in Hrun as (c0 & w0 & [= <- <-] & Hrun).
  apply M_bind_Ok in Hrun as ([] & w1 & [= <-] & Hrun).
  apply M_bind_Ok in Hrun as ([] & w2 & [Hdata ->]%lift_Ok & Hrun).
  apply M_bind_Ok in Hrun as ([] & w2 & [Hnum ->]%lift_Ok & Hrun).
  apply Check_Type_Ok in Hdata, Hnum.
  destruct data as [| | | | | |h]; try discriminate.
  destruct num_rows as [|z| | | | |]; try discriminate.
  apply M_bind_Ok in Hrun as (keys & w2 & [[= <-] ->]%lift_Ok & Hrun).
  apply M_bind_Ok in Hrun as (rows & w2 & [Hz ->]%lift_Ok & Hrun).
  apply M_bind_Ok in Hrun as (len & w2 & [[= <-] ->]%lift_Ok & Hrun).
  apply M_bind_Ok in Hrun as (len & w2 & [Hlen ->]%lift_Ok & Hrun).
  apply int_of_long_Ok in Hlen as [-> _].
  apply M_bind_Ok in Hrun as ([] & w2 & [Hdim ->]%lift_Ok & Hrun).
  destruct (rows =? Z.of_nat (length (map fst h))) eqn:E; [| discriminate].
  apply Z.eqb_eq in E. subst rows. rewrite length_map in Hz.
  apply M_bind_Ok in Hrun as ([] & w2 & Hmat & Hrun).
  apply mat_to_sparse_Ok in Hmat as (entss & Hbuilt & Hcsr & Hiv & Hheap);
    [| exact Hz].
  apply M_bind_Ok in Hrun as ([] & w3 & [= <-] & Hrun).
  apply M_bind_Ok in Hrun as (c1 & w4 & [= <- <-] & Hrun).
  injection Hrun as <-. simpl.
  exists entss. split_and!; try assumption.
  destruct Hbuilt as (h' & kl & rs & [= <-] & _ & Hrows & Hres & _).
  apply Forall2_length in Hrows, Hres. rewrite length_map in Hrows.
  simpl in Hz. destruct (fits_int z); [| discriminate].
  injection Hz as ->. f_equal. lia.
Qed.

Lemma resolve_entry_col (keys : list VALUE) (kl : list (VALUE * VALUE))
    (e : VALUE) (wc : float * Z) :
  lookup_ok keys kl ->
  resolve_entry (RHash kl) e = Ok wc ->
  exists idv, rb_hash_aref e id_sym = Ok idv /\
              0 <= wc.2 /\ keys !! Z.to_nat wc.2 = Some idv.
Proof.
  intros Hok Hres. unfold resolve_entry in Hres.
  apply bind_Ok in Hres as (u & Hu & Hres).
  apply bind_Ok in Hres as (key & Hid & Hres).
  apply bind_Ok in Hres as (wv & Hw & Hres).
  apply bind_Ok in Hres as (weight & Hweight & Hres).
  apply bind_Ok in Hres as (cv & Hcv & Hres).
  apply bind_Ok in Hres as (c & Hc & Hres).
  injection Hres as <-. simpl. simpl in Hcv. injection Hcv as <-.
  destruct (assoc_find key kl) as [cv|] eqn:Hfind; simpl in Hc; [| discriminate].
  apply assoc_find_In, Hok in Hfind as (i & Hi & Hkey).
  simpl in Hi, Hkey. subst cv. simpl in Hc.
  destruct (fits_int (Z.of_nat i)); [| discriminate]. injection Hc as <-.
  exists key. rewrite Nat2Z.id. split_and!; [exact Hid | lia | exact Hkey].
Qed.

Lemma resolve_entry_triple (keys : list VALUE) (kl : list (VALUE * VALUE))
    (e : VALUE) (wc : float * Z) :
  lookup_ok keys kl ->
  resolve_entry (RHash kl) e = Ok wc ->
  entry_triple keys e wc.
Proof.
  intros Hok He. split; [| eapply resolve_entry_col; eassumption].
  unfold resolve_entry in He.
  apply bind_Ok in He as (u & _ & He).
  apply bind_Ok in He as (key & _ & He).
  apply bind_Ok in He as (wv & Hw & He).
  apply bind_Ok in He as (weight & Hweight & He).
  apply bind_Ok in He as (cv & _ & He).
  apply bind_Ok in He as (c & _ & He).
  injection He as <-. exists wv. split; assumption.
Qed.

Lemma built_cols_in_range (data : VALUE) (entss : list (list (float * Z))) :
  built data entss -> cols_in_range entss.
Proof.
  intros (h & kl & rows & -> & Hok & Hrows & Hres & _).
  assert (Hlen : length entss = length h).
  { apply Forall2_length in Hrows, Hres. rewrite length_map in Hrows. lia. }
  unfold cols_in_range. rewrite Hlen. clear Hlen Hrows.
  induction Hres as [|r ents rows entss Hr _ IH]; constructor; [| exact IH].
  clear IH. induction Hr as [|e wc r ents He _ IH]; constructor; [| exact IH].
  destruct (resolve_entry_col _ _ _ _ Hok He) as (idv & _ & H0 & Hkey).
  apply lookup_lt_Some in Hkey. rewrite length_map in Hkey. lia.
Qed.

Lemma constructed_csr_of (csr : csr_matrix) :
  constructed csr ->
  exists entss, csr = csr_of entss /\ cols_in_range entss /\
                Z.of_nat (length entss) < INT_MAX /\
                Z.of_nat (length (concat entss)) <= INT_MAX.
Proof.
  intros (data & num_rows & w & w' & Hrun & <-).
  apply csr_matrix_initialize_Ok in Hrun as (entss & Hbuilt & _ & -> & _).
  exists entss. split_and!; [reflexivity | eapply built_cols_in_range; eassumption | |].
  - destruct Hbuilt as (h & kl & rows & _ & _ & Hrows & Hres & _ & Hn).
    apply Forall2_length in Hrows, Hres. rewrite length_map in Hrows. lia.
  - destruct Hbuilt as (h & kl & rows & _ & _ & _ & _ & Hnnz & _). exact Hnnz.
Qed.

(** ** The accessors on a constructed matrix *)

Lemma rb_ary_store_end (a : list VALUE) (v : VALUE) :
  rb_ary_store (RArray a) (Z.of_nat (length a)) v = Ok (RArray (a ++ [v])).
Proof.
  unfold rb_ary_store.
  destruct (Z.ltb_spec (Z.of_nat (length a)) 0) as [H|H]; [lia |].
  destruct (Z.ltb_spec (Z.of_nat (length a)) 0) as [H'|H']; [lia |].
  rewrite Z.ltb_irrefl, Z.sub_diag. reflexivity.
Qed.

(** The loop shared by the three accessors: copy a full block into a fresh
    Ruby array. *)
Lemma copy_loop {T : Type} (l : list T) (f : T -> VALUE) :
  for_range 0 (Z.of_nat (length l))
    (fun i result => v ← load (Some <$> l) i; rb_ary_store result i (f v))
    (RArray [])
  = Ok (RArray (f <$> l)).
Proof.
  unfold for_range. rewrite Z.sub_0_r, Nat2Z.id.
  destruct (for_loop_total (fun k res => res = RArray (f <$> take k l))
              (length l) 0
              (fun i result => v ← load (Some <$> l) i; rb_ary_store result i (f v))
              (RArray [])) as (res & Hrun & Hres).
  - rewrite take_0. reflexivity.
  - intros k t Hk ->. destruct (lookup_lt_is_Some_2 l k Hk) as [x Hx].
    exists (RArray (f <$> take (Datatypes.S k) l)). split; [| reflexivity].
    rewrite Z.add_0_l, (load_Some_nat _ _ _ Hx), bind_ret.
    replace (Z.of_nat k) with (Z.of_nat (length (f <$> take k l)))
      by (rewrite length_fmap, length_take; lia).
    rewrite rb_ary_store_end, (take_S_r _ _ _ Hx), fmap_app. reflexivity.
  - rewrite Hrun, Hres, firstn_all. reflexivity.
Qed.

(** A capacity that is a non-negative int is accepted. *)
Lemma rb_ary_new_capa_Ok (capa : Z) :
  0 <= capa <= INT_MAX -> rb_ary_new_capa capa = Ok (RArray []).
Proof.
  intros H. unfold rb_ary_new_capa.
  assert (E : ARY_MAX_SIZE = 1152921504606846975) by (vm_compute; reflexivity).
  replace (capa <? 0) with false by (symmetry; apply Z.ltb_ge; lia).
  replace (ARY_MAX_SIZE <? capa) with false; [reflexivity |].
  symmetry. apply Z.ltb_ge. rewrite E. unfold INT_MAX in H. lia.
Qed.

Lemma csr_matrix_values_csr_of (entss : list (list (float * Z))) :
  Z.of_nat (length (concat entss)) <= INT_MAX ->
  csr_matrix_values (csr_of entss)
  = Ok (RArray (DBL2NUM <$> (concat entss).*1)).
Proof.
  intros Hmax. unfold csr_matrix_values. cbn [nnz values csr_of].
  rewrite rb_ary_new_capa_Ok, bind_ret by lia.
  rewrite <- (length_fmap fst (concat entss)). apply copy_loop.
Qed.

Lemma csr_matrix_col_index_csr_of (entss : list (list (float * Z))) :
  Z.of_nat (length (concat entss)) <= INT_MAX ->
  csr_matrix_col_index (csr_of entss)
  = Ok (RArray (INT2NUM <$> (concat entss).*2)).
Proof.
  intros Hmax. unfold csr_matrix_col_index. cbn [nnz col_index csr_of].
  rewrite rb_ary_new_capa_Ok, bind_ret by lia.
  rewrite <- (length_fmap snd (concat entss)). apply copy_loop.
Qed.

Lemma csr_matrix_row_index_csr_of (entss : list (list (float * Z))) :
  Z.of_nat (length entss) < INT_MAX ->
  csr_matrix_row_index (csr_of entss)
  = Ok (RArray (INT2NUM <$> offsets entss (Datatypes.S (length entss)))).
Proof.
  intros Hmax. unfold csr_matrix_row_index, csr_of. cbn [n row_index].
  rewrite rb_ary_new_capa_Ok, bind_ret by lia.
  replace (Z.of_nat (length entss) + 1)
    with (Z.of_nat (length (offsets entss (Datatypes.S (length entss)))))
    by (rewrite length_offsets; lia).
  apply copy_loop.
Qed.

Lemma offsets_lookup (entss : list (list (float * Z))) (k i : nat) :
  (i < k)%nat ->
  offsets entss k !! i = Some (Z.of_nat (length (concat (take i entss)))).
Proof.
  intros Hlt. unfold offsets. rewrite list_lookup_fmap.
  rewrite (lookup_seq_lt _ _ _ Hlt). reflexivity.
Qed.

Lemma offsets_step_gen {T : Type} (ls : list (list T)) (i : nat) (l : list T) :
  ls !! i = Some l ->
  length (concat (take (Datatypes.S i) ls))
  = (length (concat (take i ls)) + length l)%nat.
Proof.
  intros H. rewrite (take_S_r _ _ _ H), concat_app, length_app. simpl.
  rewrite app_nil_r. reflexivity.
Qed.

Lemma offsets_step (entss : list (list (float * Z))) (i : nat)
    (ents : list (float * Z)) :
  entss !! i = Some ents ->
  length (concat (take (Datatypes.S i) entss))
  = (length (concat (take i entss)) + length ents)%nat.
Proof. apply offsets_step_gen. Qed.

Lemma concat_lookup {T : Type} (ls : list (list T)) (i j : nat) (l : list T) :
  ls !! i = Some l ->
  concat ls !! (length (concat (take i ls)) + j)%nat = l !! j \/
  (length l <= j)%nat.
Proof.
  intros H. destruct (decide (j < length l)%nat) as [Hj|Hj]; [left | right; lia].
  assert (Hsplit : concat ls
                   = concat (take i ls) ++ l ++ concat (drop (Datatypes.S i) ls)).
  { rewrite <- (take_drop_middle _ _ _ H) at 1. rewrite concat_app. reflexivity. }
  rewrite Hsplit. rewrite lookup_app_r by lia.
  replace (length (concat (take i ls)) + j - length (concat (take i ls)))%nat
    with j by lia.
  simpl. rewrite lookup_app_l by exact Hj. reflexivity.
Qed.

(** ** Multiplication on a constructed matrix *)

Lemma NUM2DBL_numeric (v : VALUE) : numeric v -> NUM2DBL v = Ok (to_double v).
Proof. unfold to_double. destruct v; intros []; reflexivity. Qed.

Lemma row_loop (entss : list (list (float * Z))) (vec : list VALUE) (i : nat)
    (ents : list (float * Z)) :
  entss !! i = Some ents ->
  Forall numeric vec ->
  Forall (fun wc : float * Z => 0 <= wc.2 < Z.of_nat (length vec)) ents ->
  for_range (Z.of_nat (length (concat (take i entss))))
    (Z.of_nat (length (concat (take (Datatypes.S i) entss))))
    (fun jj tmp =>
       v ← load (values (csr_of entss)) jj;
       c ← load (col_index (csr_of entss)) jj;
       x ← rb_ary_entry (RArray vec) c;
       x ← NUM2DBL x;
       Ok (tmp + v * x)%float)
    0%float
  = Ok (row_dot vec ents).
Proof.
  intros Hi Hvec Hcols. unfold for_range.
  rewrite (offsets_step _ _ _ Hi).
  replace (Z.to_nat _) with (length ents) by lia.
  match goal with |- for_loop _ _ ?b _ = _ =>
    destruct (for_loop_total (fun j tmp => tmp = row_dot vec (take j ents))
                (length ents) (Z.of_nat (length (concat (take i entss)))) b 0%float)
      as (res & Hrun & Hres)
  end.
  - rewrite take_0. reflexivity.
  - intros j t Hj ->. destruct (lookup_lt_is_Some_2 ents j Hj) as [[w c] Hwc].
    exists (row_dot vec (take (Datatypes.S j) ents)). split; [| reflexivity].
    assert (Hcat : concat entss !! (length (concat (take i entss)) + j)%nat
                   = Some (w, c)).
    { destruct (concat_lookup entss i j ents Hi) as [-> | Hge]; [exact Hwc | lia]. }
    rewrite <- Nat2Z.inj_add. cbn [values col_index csr_of].
    rewrite (load_Some_nat _ _ w) by (rewrite list_lookup_fmap, Hcat; reflexivity).
    rewrite bind_ret.
    rewrite (load_Some_nat _ _ c) by (rewrite list_lookup_fmap, Hcat; reflexivity).
    rewrite bind_ret.
    pose proof (proj1 (Forall_lookup _ _) Hcols _ _ Hwc) as Hc. simpl in Hc.
    destruct (lookup_lt_is_Some_2 vec (Z.to_nat c)) as [x Hx]; [lia |].
    rewrite <- (Z2Nat.id c) at 1 by lia.
    rewrite (rb_ary_entry_nat _ _ _ Hx), bind_ret.
    rewrite (NUM2DBL_numeric x)
      by (exact (proj1 (Forall_lookup _ _) Hvec _ _ Hx)).
    rewrite bind_ret. f_equal.
    rewrite (take_S_r _ _ _ Hwc). unfold row_dot. rewrite fold_left_app.
    simpl. rewrite Hx. reflexivity.
  - rewrite Hrun, Hres, firstn_all. reflexivity.
Qed.

Lemma cols_in_range_row (entss : list (list (float * Z))) (i : nat)
    (ents : list (float * Z)) :
  cols_in_range entss -> entss !! i = Some ents ->
  Forall (fun wc : float * Z => 0 <= wc.2 < Z.of_nat (length entss)) ents.
Proof. intros H Hi. exact (proj1 (Forall_lookup _ _) H _ _ Hi). Qed.

Lemma csr_matrix_mulvec_csr_of (entss : list (list (float * Z)))
    (vec : list VALUE) :
  cols_in_range entss ->
  length vec = length entss ->
  Forall numeric vec ->
  Z.of_nat (length entss) <= INT_MAX ->
  csr_matrix_mulvec (csr_of entss) (RArray vec)
  = Ok (RArray ((fun ents => DBL2NUM (row_dot vec ents)) <$> entss)).
Proof.
  intros Hcols Hlen Hvec Hmax. unfold csr_matrix_mulvec.
  change (Check_Type (RArray vec) T_ARRAY) with (Ok tt). rewrite bind_ret.
  change (RARRAY_LEN (RArray vec)) with (Ok (Z.of_nat (length vec))).
  rewrite bind_ret. cbn [n csr_of]. rewrite Hlen, Z.eqb_refl. cbn [negb].
  rewrite bind_ret, rb_ary_new_capa_Ok, bind_ret by lia. unfold for_range.
  rewrite Z.sub_0_r, Nat2Z.id.
  match goal with |- for_loop _ _ ?b _ = _ =>
    destruct (for_loop_total
                (fun k res => res = RArray ((fun ents => DBL2NUM (row_dot vec ents))
                                              <$> take k entss))
                (length entss) 0 b (RArray []))
      as (res & Hrun & Hres)
  end.
  - rewrite take_0. reflexivity.
  - intros k t Hk ->. destruct (lookup_lt_is_Some_2 entss k Hk) as [ents Hents].
    eexists. split; [| reflexivity].
    rewrite Z.add_0_l. cbn [row_index csr_of].
    rewrite (load_Some_nat _ _ _ (offsets_lookup entss (Datatypes.S (length entss)) k ltac:(lia))), bind_ret.
    replace (Z.of_nat k + 1) with (Z.of_nat (Datatypes.S k)) by lia.
    rewrite (load_Some_nat _ _ _ (offsets_lookup entss (Datatypes.S (length entss)) (Datatypes.S k) ltac:(lia))).
    rewrite bind_ret.
    change (Some <$> (concat entss).*1) with (values (csr_of entss)).
    change (Some <$> (concat entss).*2) with (col_index (csr_of entss)).
    pose proof (row_loop entss vec k ents Hents Hvec) as Hrow.
    unfold for_range in Hrow. rewrite Hrow
      by (rewrite Hlen; eapply cols_in_range_row; eassumption).
    rewrite bind_ret.
    replace (Z.of_nat k)
      with (Z.of_nat (length ((fun ents => DBL2NUM (row_dot vec ents))
                                <$> take k entss)))
      by (rewrite length_fmap, length_take; lia).
    rewrite rb_ary_store_end, (take_S_r _ _ _ Hents), fmap_app. reflexivity.
  - rewrite Hrun, Hres, firstn_all. reflexivity.
Qed.

Lemma csr_matrix_dot_row_csr_of (entss : list (list (float * Z)))
    (vec : list VALUE) (i : nat) (ents : list (float * Z)) :
  cols_in_range entss ->
  length vec = length entss ->
  Forall numeric vec ->
  Z.of_nat (length entss) <= INT_MAX ->
  entss !! i = Some ents ->
  csr_matrix_dot_row (csr_of entss) (RArray vec) (RInteger (Z.of_nat i))
  = Ok (DBL2NUM (row_dot vec ents)).
Proof.
  intros Hcols Hlen Hvec Hmax Hents. unfold csr_matrix_dot_row.
  pose proof (lookup_lt_Some _ _ _ Hents) as Hi.
  change (Check_Type (RArray vec) T_ARRAY) with (Ok tt). rewrite bind_ret.
  rewrite Check_Type_fixnum
    by (apply FIXABLE_int; unfold INT_MIN, INT_MAX in *; lia).
  rewrite bind_ret.
  change (RARRAY_LEN (RArray vec)) with (Ok (Z.of_nat (length vec))).
  rewrite bind_ret. cbn [n csr_of]. rewrite Hlen, Z.eqb_refl. cbn [negb].
  rewrite bind_ret. unfold NUM2INT.
  replace (fits_int (Z.of_nat i)) with true
    by (symmetry; apply fits_int_spec; unfold INT_MIN, INT_MAX in *; lia).
  rewrite bind_ret.
  replace (0 <=? Z.of_nat i) with true by (symmetry; apply Z.leb_le; lia).
  replace (Z.of_nat i <? Z.of_nat (length entss)) with true
    by (symmetry; apply Z.ltb_lt; lia).
  cbn [andb negb]. rewrite bind_ret. cbn [row_index csr_of].
  rewrite (load_Some_nat _ _ _ (offsets_lookup entss (Datatypes.S (length entss)) i ltac:(lia))), bind_ret.
  replace (Z.of_nat i + 1) with (Z.of_nat (Datatypes.S i)) by lia.
  rewrite (load_Some_nat _ _ _ (offsets_lookup entss (Datatypes.S (length entss)) (Datatypes.S i) ltac:(lia))).
  rewrite bind_ret.
  change (Some <$> (concat entss).*1) with (values (csr_of entss)).
  change (Some <$> (concat entss).*2) with (col_index (csr_of entss)).
  rewrite (row_loop entss vec i ents Hents Hvec)
    by (rewrite Hlen; eapply cols_in_range_row; eassumption).
  reflexivity.
Qed.

(** [dot_row] depends on the matrix through [n], the two offsets of the row
    and the cells of the slice between them only. *)
Lemma csr_matrix_dot_row_frame (csr csr' : csr_matrix) (vec : VALUE)
    (r lo hi : Z) :
  n csr' = n csr ->
  load (row_index csr) r = Ok lo ->
  load (row_index csr) (r + 1) = Ok hi ->
  load (row_index csr') r = Ok lo ->
  load (row_index csr') (r + 1) = Ok hi ->
  (forall jj, lo <= jj < hi ->
     load (values csr') jj = load (values csr) jj /\
     load (col_index csr') jj = load (col_index csr) jj) ->
  INT_MIN <= r <= INT_MAX ->
  csr_matrix_dot_row csr' vec (RInteger r)
  = csr_matrix_dot_row csr vec (RInteger r).
Proof.
  intros Hn Hlo Hhi Hlo' Hhi' Hslice Hr. unfold csr_matrix_dot_row.
  destruct (Check_Type vec T_ARRAY) as [[]|e|f]; simpl; try reflexivity.
  destruct (Check_Type (RInteger r) T_FIXNUM) as [[]|e|f]; simpl;
    try reflexivity.
  destruct (RARRAY_LEN vec) as [len|e|f]; simpl; try reflexivity.
  rewrite Hn. destruct (negb (len =? n csr)); simpl; [reflexivity |].
  rewrite (proj2 (fits_int_spec r) Hr). simpl.
  destruct (negb ((0 <=? r) && (r <? n csr))); simpl; [reflexivity |].
  rewrite Hlo, Hhi, Hlo', Hhi'. simpl.
  unfold for_range.
  rewrite (for_loop_ext _ _ _
             (fun jj tmp =>
                v ← load (values csr) jj;
                c ← load (col_index csr) jj;
                x ← rb_ary_entry vec c;
                x ← NUM2DBL x;
                Ok (tmp + v * x)%float)); [reflexivity |].
  intros j t Hj. destruct (Hslice j) as [-> ->]; [lia | reflexivity].
Qed.

(** ** Coordinates on a constructed matrix *)

Lemma take_concat_lt {T : Type} (ls : list (list T)) (i : nat) :
  (length (concat (take i ls)) < length (concat ls))%nat -> (i < length ls)%nat.
Proof.
  intros H. destruct (decide (i < length ls)%nat) as [Hlt|Hge]; [exact Hlt |].
  rewrite take_ge in H by lia. lia.
Qed.

Lemma csr_matrix_coordinates_total (entss : list (list (float * Z))) :
  (1 <= length entss)%nat ->
  exists h, csr_matrix_coordinates (csr_of entss) = Ok (RHash h).
Proof.
  intros Hn. unfold csr_matrix_coordinates. cbn [row_index nnz csr_of].
  change 1 with (Z.of_nat 1).
  rewrite (load_Some_nat _ _ _
             (offsets_lookup entss (Datatypes.S (length entss)) 1 ltac:(lia))).
  rewrite bind_ret. unfold for_range. rewrite Z.sub_0_r, Nat2Z.id.
  match goal with |- context [for_loop _ _ ?b ?s] =>
    destruct (for_loop_total
      (fun (k : nat) st =>
         exists h i, c_result st = RHash h /\ c_i st = Z.of_nat i /\
                     (i < length entss)%nat /\
                     c_row_end st
                     = Z.of_nat (length (concat (take (Datatypes.S i) entss))))
      (length (concat entss)) 0 b s) as (st & Hrun & (h & i & Hh & _))
  end.
  - exists [], O. cbn. split_and!; try reflexivity. lia.
  - intros k st Hk (h & i & Hh & Hi & Hlt & Hend).
    rewrite Z.add_0_l. unfold coordinates_step.
    assert (Hnext : exists i', (i' < length entss)%nat /\
              (if Z.of_nat k =? c_row_end st
               then row_end ← load (row_index (csr_of entss)) (c_i st + 1 + 1);
                    Ok (c_i st + 1, row_end)
               else Ok (c_i st, c_row_end st))
              = Ok (Z.of_nat i',
                    Z.of_nat (length (concat (take (Datatypes.S i') entss))))).
    { destruct (Z.of_nat k =? c_row_end st) eqn:E.
      - apply Z.eqb_eq in E. rewrite Hend in E.
        assert (Datatypes.S i < length entss)%nat as Hlt'
          by (apply take_concat_lt; lia).
        exists (Datatypes.S i). split; [exact Hlt' |].
        rewrite Hi. replace (Z.of_nat i + 1 + 1)
          with (Z.of_nat (Datatypes.S (Datatypes.S i))) by lia.
        cbn [row_index csr_of].
        rewrite (load_Some_nat _ _ _
                   (offsets_lookup entss (Datatypes.S (length entss))
                      (Datatypes.S (Datatypes.S i)) ltac:(lia))).
        rewrite bind_ret. do 2 f_equal. lia.
      - exists i. split; [exact Hlt |]. rewrite Hi, Hend. reflexivity. }
    destruct Hnext as (i' & Hlt' & ->). rewrite bind_ret.
    destruct (lookup_lt_is_Some_2 (concat entss) k Hk) as [[w c] Hwc].
    change (rb_ary_new_capa 2) with (Ok (RArray [])). rewrite bind_ret.
    change (rb_ary_store (RArray []) 0 (INT2NUM (Z.of_nat i')))
      with (Ok (RArray [INT2NUM (Z.of_nat i')])).
    rewrite bind_ret. cbn [col_index values csr_of].
    rewrite (load_Some_nat _ _ c) by (rewrite list_lookup_fmap, Hwc; reflexivity).
    rewrite bind_ret.
    change (rb_ary_store (RArray [INT2NUM (Z.of_nat i')]) 1 (INT2NUM c))
      with (Ok (RArray [INT2NUM (Z.of_nat i'); INT2NUM c])).
    rewrite bind_ret.
    rewrite (load_Some_nat _ _ w) by (rewrite list_lookup_fmap, Hwc; reflexivity).
    rewrite bind_ret, Hh. cbn [rb_hash_aset]. rewrite bind_ret.
    eexists. split; [reflexivity |]. cbn.
    eexists _, i'. split_and!; try reflexivity. exact Hlt'.
  - exists h. rewrite Hrun, bind_ret, Hh. reflexivity.
Qed.

Lemma csr_matrix_coordinates_short (csr : csr_matrix) :
  (length (row_index csr) <= 1)%nat ->
  csr_matrix_coordinates csr = Undefined OutOfBounds.
Proof.
  intros H. unfold csr_matrix_coordinates. rewrite load_short by lia. reflexivity.
Qed.

Lemma length_concat_take_rows (entss : list (list (float * Z))) (i : nat) :
  length (concat (take i (imap (fun i ents => coord_entry i <$> ents) entss)))
  = length (concat (take i entss)).
Proof.
  rewrite !length_concat. f_equal. rewrite !fmap_take. f_equal.
  apply list_eq. intros j. rewrite !list_lookup_fmap, list_lookup_imap.
  destruct (entss !! j) as [ents|]; simpl; [| reflexivity].
  rewrite length_fmap. reflexivity.
Qed.

Lemma triples_lookup (entss : list (list (float * Z))) (i j : nat)
    (ents : list (float * Z)) (wc : float * Z) :
  entss !! i = Some ents -> ents !! j = Some wc ->
  triples entss !! (length (concat (take i entss)) + j)%nat
  = Some (coord_entry i wc).
Proof.
  intros Hi Hj. unfold triples.
  rewrite <- length_concat_take_rows.
  destruct (concat_lookup
              (imap (fun i ents => coord_entry i <$> ents) entss) i j
              (coord_entry i <$> ents)) as [-> | Hge].
  - rewrite list_lookup_imap, Hi. reflexivity.
  - rewrite list_lookup_fmap, Hj. reflexivity.
  - rewrite length_fmap in Hge. apply lookup_lt_Some in Hj. lia.
Qed.

Lemma hash_of_snoc (kvs : list (VALUE * VALUE)) (kv : VALUE * VALUE) :
  hash_of (kvs ++ [kv]) = assoc_set kv.1 kv.2 (hash_of kvs).
Proof. unfold hash_of. rewrite fold_left_app. reflexivity. Qed.

(** On a matrix without empty rows the loop files every entry under its own
    row. *)
Lemma csr_matrix_coordinates_csr_of (entss : list (list (float * Z))) :
  (1 <= length entss)%nat ->
  Forall (fun ents => ents <> []) entss ->
  csr_matrix_coordinates (csr_of entss) = Ok (RHash (hash_of (triples entss))).
Proof.
  intros Hn Hne. unfold csr_matrix_coordinates. cbn [row_index nnz csr_of].
  change 1 with (Z.of_nat 1).
  rewrite (load_Some_nat _ _ _
             (offsets_lookup entss (Datatypes.S (length entss)) 1 ltac:(lia))).
  rewrite bind_ret. unfold for_range. rewrite Z.sub_0_r, Nat2Z.id.
  assert (Hlen : length (triples entss) = length (concat entss)).
  { pose proof (length_concat_take_rows entss (length entss)) as H.
    rewrite !firstn_all2 in H; [exact H | lia | rewrite length_imap; lia]. }
  match goal with |- context [for_loop _ _ ?b ?s] =>
    destruct (for_loop_total
      (fun (k : nat) st =>
         exists i : nat,
           c_i st = Z.of_nat i /\ (i < length entss)%nat /\
           c_row_end st
           = Z.of_nat (length (concat (take (Datatypes.S i) entss))) /\
           (length (concat (take i entss)) <= k
            <= length (concat (take (Datatypes.S i) entss)))%nat /\
           c_result st = RHash (hash_of (take k (triples entss))))
      (length (concat entss)) 0 b s) as (st & Hrun & (i & _ & _ & _ & _ & Hres))
  end.
  - exists O. cbn. split_and!; try reflexivity; lia.
  - intros k st Hk (i & Hi & Hlt & Hend & Hrange & Hres).
    rewrite Z.add_0_l. unfold coordinates_step.
    assert (Hnext : exists (i' : nat) (ents : list (float * Z)) (j : nat)
                           (wc : float * Z),
              entss !! i' = Some ents /\ ents !! j = Some wc /\
              k = (length (concat (take i' entss)) + j)%nat /\
              (if Z.of_nat k =? c_row_end st
               then row_end ← load (row_index (csr_of entss)) (c_i st + 1 + 1);
                    Ok (c_i st + 1, row_end)
               else Ok (c_i st, c_row_end st))
              = Ok (Z.of_nat i',
                    Z.of_nat (length (concat (take (Datatypes.S i') entss))))).
    { destruct (Z.of_nat k =? c_row_end st) eqn:E.
      - apply Z.eqb_eq in E. rewrite Hend in E. apply Nat2Z.inj in E.
        assert (Datatypes.S i < length entss)%nat as Hlt'
          by (apply take_concat_lt; lia).
        destruct (lookup_lt_is_Some_2 entss (Datatypes.S i) Hlt') as [ents Hents].
        pose proof (proj1 (Forall_lookup _ _) Hne _ _ Hents) as Hnonempty.
        destruct ents as [|wc ents]; [contradiction |].
        exists (Datatypes.S i), (wc :: ents), O, wc.
        split_and!; [exact Hents | reflexivity | lia |].
        rewrite Hi. replace (Z.of_nat i + 1 + 1)
          with (Z.of_nat (Datatypes.S (Datatypes.S i))) by lia.
        cbn [row_index csr_of].
        rewrite (load_Some_nat _ _ _
                   (offsets_lookup entss (Datatypes.S (length entss))
                      (Datatypes.S (Datatypes.S i)) ltac:(lia))).
        rewrite bind_ret. do 2 f_equal. lia.
      - apply Z.eqb_neq in E. rewrite Hend in E.
        destruct (lookup_lt_is_Some_2 entss i Hlt) as [ents Hents].
        pose proof (offsets_step _ _ _ Hents) as Hstep.
        destruct (lookup_lt_is_Some_2 ents
                    (k - length (concat (take i entss)))) as [wc Hwc]; [lia |].
        exists i, ents, (k - length (concat (take i entss)))%nat, wc.
        split_and!; [exact Hents | exact Hwc | lia |].
        rewrite Hi, Hend. reflexivity. }
    destruct Hnext as (i' & ents & j & wc & Hents & Hwc & Hk' & ->).
    rewrite bind_ret.
    pose proof (triples_lookup entss i' j ents wc Hents Hwc) as Htri.
    rewrite <- Hk' in Htri.
    assert (Hcat : concat entss !! k = Some wc).
    { destruct (concat_lookup entss i' j ents Hents) as [H | Hge].
      - rewrite Hk', H. exact Hwc.
      - apply lookup_lt_Some in Hwc. lia. }
    change (rb_ary_new_capa 2) with (Ok (RArray [])). rewrite bind_ret.
    change (rb_ary_store (RArray []) 0 (INT2NUM (Z.of_nat i')))
      with (Ok (RArray [INT2NUM (Z.of_nat i')])).
    rewrite bind_ret. cbn [col_index values csr_of].
    rewrite (load_Some_nat _ _ wc.2) by (rewrite list_lookup_fmap, Hcat; reflexivity).
    rewrite bind_ret.
    change (rb_ary_store (RArray [INT2NUM (Z.of_nat i')]) 1 (INT2NUM wc.2))
      with (Ok (RArray [INT2NUM (Z.of_nat i'); INT2NUM wc.2])).
    rewrite bind_ret.
    rewrite (load_Some_nat _ _ wc.1) by (rewrite list_lookup_fmap, Hcat; reflexivity).
    rewrite bind_ret, Hres. cbn [rb_hash_aset]. rewrite bind_ret.
    eexists. split; [reflexivity |]. cbn [c_i c_row_end c_result].
    exists i'. pose proof (lookup_lt_Some _ _ _ Hents).
    pose proof (lookup_lt_Some _ _ _ Hwc).
    pose proof (offsets_step _ _ _ Hents).
    split_and!; try reflexivity; try lia.
    rewrite (take_S_r _ _ _ Htri), hash_of_snoc. reflexivity.
  - rewrite Hrun, bind_ret, Hres, <- Hlen, firstn_all. reflexivity.
Qed.

Lemma assoc_set_fresh (k v : VALUE) (h : list (VALUE * VALUE)) :
  k ∉ h.*1 -> assoc_set k v h = h ++ [(k, v)].
Proof.
  induction h as [|[k' v'] h IH]; intros Hn; [reflexivity |].
  simpl in *. apply not_elem_of_cons in Hn as [Hne Hn].
  destruct (rb_eql k' k) eqn:E.
  - apply rb_eql_eq in E. congruence.
  - rewrite IH by exact Hn. reflexivity.
Qed.

Lemma hash_of_NoDup (kvs : list (VALUE * VALUE)) :
  NoDup kvs.*1 -> hash_of kvs = kvs.
Proof.
  induction kvs as [|kv kvs IH] using rev_ind; intros Hnd; [reflexivity |].
  rewrite fmap_app in Hnd. apply list.NoDup_app in Hnd as (Hnd & Hdisj & _).
  rewrite hash_of_snoc, IH by exact Hnd.
  destruct kv as [k v]. apply assoc_set_fresh.
  intros Hin. apply (Hdisj k Hin). simpl. left.
Qed.

(** ** Method calls and the example *)

Lemma calls_same (csr : csr_matrix) (ms : list method) : calls csr ms = csr.
Proof.
  unfold calls. induction ms as [|m ms IH]; [reflexivity |].
  simpl. destruct m; exact IH.
Qed.

Lemma example_constructed : constructed example_csr.
Proof.
  exists example_data, (RInteger 3), blank_world.
  exists (csr_matrix_initialize example_data (RInteger 3) blank_world).2.
  split.
  - vm_compute. reflexivity.
  - reflexivity.
Qed.

(** ** Which exceptions can be raised *)

Lemma raises_only_bind {A B : Type} (Q : exception -> Prop) (m : outcome A)
    (k : A -> outcome B) :
  raises_only Q m -> (forall a, raises_only Q (k a)) ->
  raises_only Q (m ≫= k).
Proof.
  intros Hm Hk e. destruct m as [a|e'|f]; simpl.
  - apply Hk.
  - intros [= ->]. apply Hm. reflexivity.
  - discriminate.
Qed.

Lemma raises_only_for_loop {S : Type} (Q : exception -> Prop) (steps : nat)
    (i : Z) (body : Z -> S -> outcome S) (s : S) :
  (forall j t, raises_only Q (body j t)) ->
  raises_only Q (for_loop steps i body s).
Proof.
  intros Hbody. revert i s. induction steps as [|steps IH]; intros i s.
  - intros e. discriminate.
  - simpl. apply raises_only_bind; [apply Hbody | intros a; apply IH].
Qed.

Lemma raises_only_Ok {A : Type} (Q : exception -> Prop) (a : A) :
  raises_only Q (Ok a).
Proof. intros e. discriminate. Qed.

Lemma raises_only_Undefined {A : Type} (Q : exception -> Prop) (f : fault) :
  raises_only Q (@Undefined A f).
Proof. intros e. discriminate. Qed.

Lemma raises_only_load {T : Type} (Q : exception -> Prop)
    (a : list (option T)) (i : Z) :
  raises_only Q (load a i).
Proof.
  intros e. unfold load. destruct (i <? 0); [discriminate |].
  destruct (a !! Z.to_nat i) as [[v|]|]; discriminate.
Qed.

Lemma raises_only_store {T : Type} (Q : exception -> Prop)
    (a : list (option T)) (i : Z) (v : T) :
  raises_only Q (store a i v).
Proof. intros e. unfold store. destruct (_ && _); discriminate. Qed.

Lemma raises_only_int_add (Q : exception -> Prop) (a b : Z) :
  raises_only Q (int_add a b).
Proof. intros e. unfold int_add. destruct (fits_int _); discriminate. Qed.

Lemma raises_only_int_of_long (Q : exception -> Prop) (a : Z) :
  raises_only Q (int_of_long a).
Proof. intros e. unfold int_of_long. destruct (fits_int _); discriminate. Qed.

Lemma raises_only_RARRAY_LEN (Q : exception -> Prop) (v : VALUE) :
  raises_only Q (RARRAY_LEN v).
Proof. intros e. destruct v; discriminate. Qed.

Lemma raises_only_rb_ary_entry (Q : exception -> Prop) (v : VALUE) (i : Z) :
  raises_only Q (rb_ary_entry v i).
Proof.
  intros e. destruct v; try discriminate. simpl.
  destruct (_ || _); discriminate.
Qed.

Lemma raises_only_rb_hash_aref (Q : exception -> Prop) (h k : VALUE) :
  raises_only Q (rb_hash_aref h k).
Proof. intros e. destruct h; discriminate. Qed.

Lemma raises_only_rb_hash_aset (Q : exception -> Prop) (h k v : VALUE) :
  raises_only Q (rb_hash_aset h k v).
Proof. intros e. destruct h; discriminate. Qed.

Lemma raises_only_rb_hash_keys (Q : exception -> Prop) (h : VALUE) :
  raises_only Q (rb_hash_keys h).
Proof. intros e. destruct h; discriminate. Qed.

Lemma raises_only_Check_Type (Q : exception -> Prop) (v : VALUE)
    (t : ruby_type) :
  Q (wrong_argument_type (TYPE v) t) -> raises_only Q (Check_Type v t).
Proof.
  intros HQ e. unfold Check_Type. destruct (ruby_type_eqb _ _); [discriminate |].
  intros [= <-]. exact HQ.
Qed.

Lemma raises_only_NUM2INT (Q : exception -> Prop) (v : VALUE) :
  Q (no_implicit_conversion (TYPE v)) ->
  (forall z, Q (integer_out_of_int_range z)) ->
  (forall d, Q (float_out_of_range d)) ->
  raises_only Q (NUM2INT v).
Proof.
  intros H1 H2 H3 e. destruct v; simpl; try (intros [= <-]; exact H1).
  - destruct (fits_int z); [discriminate |]. intros [= <-]. apply H2.
  - destruct (float_trunc d) as [z|]; [| intros [= <-]; apply H3].
    destruct (_ && _); [| intros [= <-]; apply H3].
    destruct (fits_int z); [discriminate |]. intros [= <-]. apply H2.
Qed.

Lemma raises_only_NUM2DBL (Q : exception -> Prop) (v : VALUE) :
  Q (no_implicit_conversion (TYPE v)) -> raises_only Q (NUM2DBL v).
Proof.
  intros H1 e. destruct v; simpl; try discriminate; intros [= <-]; exact H1.
Qed.

Lemma M_raises_only_bind {A B : Type} (Q : exception -> Prop) (m : M A)
    (k : A -> M B) :
  M_raises_only Q m -> (forall a, M_raises_only Q (k a)) ->
  M_raises_only Q (m ≫= k).
Proof.
  intros Hm Hk w e w'. unfold mbind, M_bind.
  destruct (m w) as [[a|e'|f] w1] eqn:E.
  - apply Hk.
  - intros [= -> _]. eapply Hm. exact E.
  - discriminate.
Qed.

Lemma M_raises_only_lift {A : Type} (Q : exception -> Prop) (o : outcome A) :
  raises_only Q o -> M_raises_only Q (lift o).
Proof. intros H w e w' [= -> _]. apply H. reflexivity. Qed.

Ltac raises_leaf :=
  first
    [ apply raises_only_Ok
    | apply raises_only_Undefined
    | apply raises_only_load
    | apply raises_only_store
    | apply raises_only_int_add
    | apply raises_only_int_of_long
    | apply raises_only_RARRAY_LEN
    | apply raises_only_rb_ary_entry
    | apply raises_only_rb_hash_aref
    | apply raises_only_rb_hash_aset
    | apply raises_only_rb_hash_keys
    | apply raises_only_Check_Type
    | apply raises_only_NUM2INT
    | apply raises_only_NUM2DBL ].

Ltac raises_steps :=
  repeat first
    [ raises_leaf
    | apply raises_only_bind; [| intros ?]
    | apply raises_only_for_loop; intros ? ? ].

Lemma count_row_raises (Q : exception -> Prop) (data keys : VALUE) (i : Z)
    (st : VALUE * Z) :
  (forall got, Q (wrong_argument_type got T_ARRAY)) ->
  raises_only Q (count_row data keys i st).
Proof.
  intros HQ. unfold count_row. destruct st as [kl cnt]. raises_steps. apply HQ.
Qed.

Lemma fill_row_raises (data keys kl : VALUE) (i : Z) (st : fill_state) :
  raises_only constructor_class (fill_row data keys kl i st).
Proof.
  unfold fill_row, for_range, fill_entry, constructor_class.
  raises_steps; intros; simpl; tauto.
Qed.

Lemma mat_to_sparse_raises (data keys num_rows : VALUE) :
  M_raises_only constructor_class (mat_to_sparse data keys num_rows).
Proof.
  unfold mat_to_sparse.
  apply M_raises_only_bind;
    [apply M_raises_only_lift; raises_steps;
     unfold constructor_class; intros; simpl; tauto |].
  intros n0. apply M_raises_only_bind.
  { apply M_raises_only_lift. unfold for_range. apply raises_only_for_loop.
    intros j t. apply count_row_raises. intros got.
    unfold constructor_class. simpl. tauto. }
  intros [kl cnt].
  apply M_raises_only_bind; [intros w e w'; discriminate |]. intros _.
  apply M_raises_only_bind; [intros w e w'; discriminate |]. intros _.
  apply M_raises_only_bind; [apply M_raises_only_lift; raises_steps |].
  intros n1.
  apply M_raises_only_bind; [intros w e w'; discriminate |]. intros _.
  apply M_raises_only_bind.
  { apply M_raises_only_lift. unfold for_range. apply raises_only_for_loop.
    intros j t. apply fill_row_raises. }
  intros st.
  apply M_raises_only_bind; [apply M_raises_only_lift; raises_steps |].
  intros ri w e w'. discriminate.
Qed.

Lemma csr_matrix_initialize_raises (data num_rows : VALUE) :
  M_raises_only constructor_class (csr_matrix_initialize data num_rows).
Proof.
  unfold csr_matrix_initialize.
  apply M_raises_only_bind; [intros w e w'; discriminate |]. intros c0.
  apply M_raises_only_bind; [intros w e w'; discriminate |]. intros _.
  apply M_raises_only_bind;
    [apply M_raises_only_lift; raises_steps;
     unfold constructor_class; simpl; tauto |]. intros _.
  apply M_raises_only_bind;
    [apply M_raises_only_lift; raises_steps;
     unfold constructor_class; simpl; tauto |]. intros _.
  apply M_raises_only_bind; [apply M_raises_only_lift; raises_steps |].
  intros keys.
  apply M_raises_only_bind;
    [apply M_raises_only_lift; raises_steps;
     unfold constructor_class; intros; simpl; tauto |]. intros rows.
  apply M_raises_only_bind; [apply M_raises_only_lift; raises_steps |].
  intros len.
  apply M_raises_only_bind; [apply M_raises_only_lift; raises_steps |].
  intros len'.
  apply M_raises_only_bind.
  { apply M_raises_only_lift. destruct (negb _); [| apply raises_only_Ok].
    intros e [= <-]. unfold constructor_class. simpl. tauto. }
  intros _.
  apply M_raises_only_bind; [apply mat_to_sparse_raises |]. intros _.
  apply M_raises_only_bind; [intros w e w'; discriminate |]. intros _.
  apply M_raises_only_bind; [intros w e w'; discriminate |]. intros c1.
  intros w e w'. discriminate.
Qed.

(** ** An identifier that is not a declared key *)

Lemma lookup_miss (keys : list VALUE) (kl : list (VALUE * VALUE))
    (idv : VALUE) :
  lookup_ok keys kl -> ~ In idv keys ->
  (rb_hash_aref (RHash kl) idv ≫= NUM2INT)
  = Raise (no_implicit_conversion T_NIL).
Proof.
  intros Hok Hn. simpl.
  destruct (assoc_find idv kl) as [cv|] eqn:Hfind; [| reflexivity].
  apply assoc_find_In, Hok in Hfind as (i & _ & Hkey). simpl in Hkey.
  exfalso. apply Hn, list_elem_of_In. eapply list_elem_of_lookup_2. exact Hkey.
Qed.

(** ** Where the constructor fails *)

Lemma M_bind_fwd_Raise {A B : Type} (m : M A) (k : A -> M B) (w w1 : world)
    (e : exception) :
  m w = (Raise e, w1) -> (m ≫= k) w = (Raise e, w1).
Proof. intros H. unfold mbind, M_bind. rewrite H. reflexivity. Qed.

Lemma M_bind_Raise {A B : Type} (m : M A) (k : A -> M B) (w w' : world)
    (e : exception) :
  (m ≫= k) w = (Raise e, w') ->
  m w = (Raise e, w') \/
  exists a w1, m w = (Ok a, w1) /\ k a w1 = (Raise e, w').
Proof.
  unfold mbind, M_bind. destruct (m w) as [[a|e'|f] w1].
  - intros H. right. exists a, w1. split; [reflexivity | exact H].
  - intros [= -> ->]. left. reflexivity.
  - discriminate.
Qed.

Lemma concat_take_le {T : Type} (ls : list (list T)) (k : nat) :
  (length (concat (take k ls)) <= length (concat ls))%nat.
Proof.
  rewrite <- (take_drop k ls) at 2. rewrite concat_app, length_app. lia.
Qed.

(** The first loop stops at the first row that is not an array. *)
Lemma count_rows_raise (data : VALUE) (pre post : list VALUE) (key v : VALUE)
    (rows : list (list VALUE)) :
  rows_of data pre rows ->
  Z.of_nat (length (concat rows)) <= INT_MAX ->
  rb_hash_aref data key = Ok v ->
  TYPE v <> T_ARRAY ->
  for_range 0 (Z.of_nat (length (pre ++ key :: post)))
    (count_row data (RArray (pre ++ key :: post))) (rb_hash_new, 0)
  = Raise (wrong_argument_type (TYPE v) T_ARRAY).
Proof.
  intros Hrows Hmax Hv Hty. unfold for_range.
  rewrite Z.sub_0_r, Nat2Z.id, length_app. cbn [length].
  rewrite for_loop_app.
  pose proof Hrows as Hlen. apply Forall2_length in Hlen.
  destruct (for_loop_total
              (fun k (st : VALUE * Z) =>
                 exists kl, st = (RHash kl,
                                  Z.of_nat (length (concat (take k rows)))))
              (length pre) 0
              (count_row data (RArray (pre ++ key :: post)))
              (rb_hash_new, 0)) as (st & Hrun & (kl & ->)).
  - exists []. reflexivity.
  - intros k t Hk (kl & ->).
    destruct (lookup_lt_is_Some_2 pre k Hk) as [kk Hkk].
    destruct (lookup_lt_is_Some_2 rows k) as [r Hr]; [lia |].
    pose proof (Forall2_lookup_lr _ _ _ _ _ _ Hrows Hkk Hr) as Hrow.
    cbv beta in Hrow.
    pose proof (concat_take_le rows (Datatypes.S k)) as Hle.
    rewrite (offsets_step_gen _ _ _ Hr) in Hle.
    eexists. split.
    + unfold count_row. rewrite Z.add_0_l.
      rewrite (rb_ary_entry_nat _ _ kk) by (rewrite lookup_app_l; assumption).
      rewrite bind_ret. cbn [rb_hash_aset]. rewrite bind_ret, Hrow, bind_ret.
      change (Check_Type (RArray r) T_ARRAY) with (Ok tt). rewrite bind_ret.
      cbn [RARRAY_LEN]. rewrite bind_ret.
      rewrite (proj2 (int_of_long_Ok (Z.of_nat (length r)) _))
        by (split; [reflexivity | unfold INT_MIN, INT_MAX in *; lia]).
      rewrite bind_ret.
      rewrite (proj2 (int_add_Ok _ _ _))
        by (split; [reflexivity | unfold INT_MIN, INT_MAX in *; lia]).
      rewrite bind_ret. reflexivity.
    + eexists. f_equal. rewrite (offsets_step_gen _ _ _ Hr). lia.
  - rewrite Hrun, bind_ret. cbn [for_loop]. unfold count_row.
    rewrite Z.add_0_l.
    rewrite (rb_ary_entry_nat _ _ key) by (apply list_lookup_middle; reflexivity).
    rewrite bind_ret. cbn [rb_hash_aset]. rewrite bind_ret, Hv, bind_ret.
    unfold Check_Type.
    destruct (ruby_type_eqb (TYPE v) T_ARRAY) eqn:E; [| reflexivity].
    destruct (TYPE v); try discriminate. contradiction.
Qed.

Ltac M_step :=
  unfold mbind at 1; unfold M_bind at 1;
  cbn [lift get_csr set_csr malloc rb_iv_set].

(** The constructor up to its dimension check, on a hash and a RInteger that
    fits a C int. *)
Lemma csr_matrix_initialize_unfold (h : list (VALUE * VALUE)) (z : Z)
    (w : world) :
  INT_MIN <= z <= INT_MAX ->
  Z.of_nat (length h) <= INT_MAX ->
  csr_matrix_initialize (RHash h) (RInteger z) w
  = (_ ← lift (if negb (z =? Z.of_nat (length h))
               then Raise (rb_raise rb_eArgError
                             "n_rows != keys.size, check your dimensions")
               else Ok tt);
     _ ← mat_to_sparse (RHash h) (RArray (map fst h)) (RInteger z);
     _ ← rb_iv_set "@n" (RInteger z);
     csr ← get_csr;
     rb_iv_set "@nnz" (INT2NUM (nnz csr))) (cleared w).
Proof.
  intros Hz Hlen. unfold csr_matrix_initialize.
  M_step. M_step. M_step. cbn [Check_Type TYPE ruby_type_eqb].
  M_step. rewrite (Check_Type_fixnum z (FIXABLE_int z Hz)).
  M_step. cbn [rb_hash_keys]. M_step. cbn [NUM2INT].
  rewrite (proj2 (fits_int_spec z) Hz).
  M_step. cbn [RARRAY_LEN]. M_step. rewrite length_map.
  rewrite (proj2 (int_of_long_Ok (Z.of_nat (length h)) _))
    by (split; [reflexivity | unfold INT_MIN, INT_MAX in *; lia]).
  reflexivity.
Qed.

Lemma csr_matrix_initialize_dimension (h : list (VALUE * VALUE)) (z : Z)
    (w : world) :
  INT_MIN <= z <= INT_MAX ->
  Z.of_nat (length h) <= INT_MAX ->
  z <> Z.of_nat (length h) ->
  csr_matrix_initialize (RHash h) (RInteger z) w
  = (Raise (rb_raise rb_eArgError "n_rows != keys.size, check your dimensions"),
     cleared w).
Proof.
  intros Hz Hlen Hne. rewrite csr_matrix_initialize_unfold by assumption.
  apply M_bind_fwd_Raise. apply Z.eqb_neq in Hne. rewrite Hne. reflexivity.
Qed.

Lemma csr_matrix_initialize_row_not_array (h : list (VALUE * VALUE))
    (pre post : list VALUE) (key v : VALUE) (rows : list (list VALUE))
    (w : world) :
  map fst h = pre ++ key :: post ->
  rows_of (RHash h) pre rows ->
  Z.of_nat (length (concat rows)) <= INT_MAX ->
  Z.of_nat (length h) <= INT_MAX ->
  rb_hash_aref (RHash h) key = Ok v ->
  TYPE v <> T_ARRAY ->
  csr_matrix_initialize (RHash h) (RInteger (Z.of_nat (length h))) w
  = (Raise (wrong_argument_type (TYPE v) T_ARRAY), cleared w).
Proof.
  intros Hkeys Hrows Hmax Hlen Hv Hty.
  rewrite csr_matrix_initialize_unfold
    by (try assumption; unfold INT_MIN, INT_MAX in *; lia).
  rewrite Z.eqb_refl. cbn [negb]. M_step.
  apply M_bind_fwd_Raise. unfold mat_to_sparse. M_step. cbn [NUM2INT].
  rewrite (proj2 (fits_int_spec (Z.of_nat (length h))))
    by (unfold INT_MIN, INT_MAX in *; lia).
  apply M_bind_fwd_Raise. unfold lift. f_equal.
  rewrite <- (length_map fst h), Hkeys.
  eapply count_rows_raise; eassumption.
Qed.

Lemma lift_Raise {A : Type} (o : outcome A) (w w' : world) (e : exception) :
  lift o w = (Raise e, w') -> o = Raise e /\ w' = w.
Proof. unfold lift. intros [= -> ->]. tauto. Qed.

(** Closes a goal in which a step that cannot raise the exception of a failed
    hash check is assumed to have raised it. *)
Ltac not_entry_check Hr got :=
  apply lift_Raise in Hr as [Hr _]; exfalso;
  refine ((_ : raises_only (fun e => e <> wrong_argument_type got T_HASH) _)
            _ Hr eq_refl).

(** An entry that is not a hash is only met in the second loop, when the
    three blocks exist. *)
Lemma mat_to_sparse_entry_check (data keys num_rows : VALUE) (w w' : world)
    (got : ruby_type) :
  mat_to_sparse data keys num_rows w
  = (Raise (wrong_argument_type got T_HASH), w') ->
  exists count rows1 : Z,
    heap w' = [sizeof_int * rows1; sizeof_int * count; sizeof_double * count]
              ++ heap w.
Proof.
  intros Hrun. unfold mat_to_sparse in Hrun.
  apply M_bind_Raise in Hrun as [Hr | (n0 & w0 & [Hn0 ->]%lift_Ok & Hrun)].
  { not_entry_check Hr got. apply raises_only_NUM2INT; discriminate. }
  apply M_bind_Raise in Hrun as [Hr | ([kl cnt] & w0 & [Hp1 ->]%lift_Ok & Hrun)].
  { not_entry_check Hr got. apply raises_only_for_loop.
    intros j t. apply count_row_raises. discriminate. }
  apply M_bind_Raise in Hrun as [[=] | ([] & w1 & [= <-] & Hrun)].
  apply M_bind_Raise in Hrun as [[=] | ([] & w2 & [= <-] & Hrun)].
  apply M_bind_Raise in Hrun as [Hr | (n1 & w3 & [Hn1 ->]%lift_Ok & Hrun)].
  { not_entry_check Hr got. apply raises_only_int_add. }
  apply M_bind_Raise in Hrun as [[=] | ([] & w4 & [= <-] & Hrun)].
  apply M_bind_Raise in Hrun as [Hr | (st & w5 & [Hp2 ->]%lift_Ok & Hrun)].
  { apply lift_Raise in Hr as [_ ->]. exists cnt, n1. reflexivity. }
  apply M_bind_Raise in Hrun as [Hr | (ri & w6 & [Hst ->]%lift_Ok & Hrun)].
  { not_entry_check Hr got. apply raises_only_store. }
  discriminate.
Qed.

Lemma csr_matrix_initialize_entry_check (h : list (VALUE * VALUE))
    (num_rows : VALUE) (w w' : world) (got : ruby_type) :
  csr_matrix_initialize (RHash h) num_rows w
  = (Raise (wrong_argument_type got T_HASH), w') ->
  exists count rows1 : Z,
    heap w' = [sizeof_int * rows1; sizeof_int * count; sizeof_double * count]
              ++ heap w.
Proof.
  intros Hrun. unfold csr_matrix_initialize in Hrun.
  apply M_bind_Raise in Hrun as [[=] | (c0 & w0 & [= <- <-] & Hrun)].
  apply M_bind_Raise in Hrun as [[=] | ([] & w1 & [= <-] & Hrun)].
  apply M_bind_Raise in Hrun as [[=] | ([] & w2 & [_ ->]%lift_Ok & Hrun)].
  apply M_bind_Raise in Hrun as [Hr | ([] & w2 & [_ ->]%lift_Ok & Hrun)].
  { not_entry_check Hr got. apply raises_only_Check_Type. discriminate. }
  apply M_bind_Raise in Hrun as [[=] | (keys & w2 & [_ ->]%lift_Ok & Hrun)].
  apply M_bind_Raise in Hrun as [Hr | (rows & w2 & [_ ->]%lift_Ok & Hrun)].
  { not_entry_check Hr got. apply raises_only_NUM2INT; discriminate. }
  apply M_bind_Raise in Hrun as [Hr | (len & w2 & [_ ->]%lift_Ok & Hrun)].
  { not_entry_check Hr got. apply raises_only_RARRAY_LEN. }
  apply M_bind_Raise in Hrun as [Hr | (len' & w2 & [_ ->]%lift_Ok & Hrun)].
  { not_entry_check Hr got. apply raises_only_int_of_long. }
  apply M_bind_Raise in Hrun as [Hr | ([] & w2 & [_ ->]%lift_Ok & Hrun)].
  { apply lift_Raise in Hr as [Hr _]. destruct (negb _); discriminate. }
  apply M_bind_Raise in Hrun as [Hr | ([] & w2 & Hmat & Hrun)].
  { apply mat_to_sparse_entry_check in Hr as (count & rows1 & Hheap).
    exists count, rows1. exact Hheap. }
  apply M_bind_Raise in Hrun as [[=] | ([] & w3 & [= <-] & Hrun)].
  apply M_bind_Raise in Hrun as [[=] | (c1 & w4 & [= <- <-] & Hrun)].
  discriminate.
Qed.

(** ** Construction of accepted input *)

(** A loop raises within [Q] when, under an invariant, every step returns or
    raises within [Q] and some step raises. *)
Lemma for_loop_raises {S : Type} (Q : exception -> Prop) (P : nat -> S -> Prop)
    (steps : nat) (lo : Z) (body : Z -> S -> outcome S) (s : S) (k0 : nat) :
  P O s ->
  (forall (k : nat) (t : S),
      (k < steps)%nat -> P k t ->
      (exists t', body (lo + Z.of_nat k) t = Ok t' /\ P (Datatypes.S k) t') \/
      (exists e, body (lo + Z.of_nat k) t = Raise e /\ Q e)) ->
  (k0 < steps)%nat ->
  (forall t, P k0 t -> exists e, body (lo + Z.of_nat k0) t = Raise e /\ Q e) ->
  exists e, for_loop steps lo body s = Raise e /\ Q e.
Proof.
  revert lo s P k0. induction steps as [|steps IH];
    intros lo s P k0 H0 Hstep Hk0 Hbad; [lia |].
  simpl. destruct k0 as [|k0].
  - destruct (Hbad s H0) as (e & He & HQ). rewrite Z.add_0_r in He.
    rewrite He. exists e. split; [reflexivity | exact HQ].
  - destruct (Hstep O s) as [(s1 & Hb & H1) | (e & He & HQ)]; [lia | exact H0 | |].
    + rewrite Z.add_0_r in Hb. rewrite Hb. simpl.
      apply (IH (lo + 1) s1 (fun k t => P (Datatypes.S k) t) k0).
      * exact H1.
      * intros k t Hk HP.
        replace (lo + 1 + Z.of_nat k) with (lo + Z.of_nat (Datatypes.S k)) by lia.
        apply Hstep; [lia | exact HP].
      * lia.
      * intros t HP.
        replace (lo + 1 + Z.of_nat k0) with (lo + Z.of_nat (Datatypes.S k0)) by lia.
        apply Hbad. exact HP.
    + rewrite Z.add_0_r in He. rewrite He. exists e.
      split; [reflexivity | exact HQ].
Qed.

Lemma length_concat_Forall2 {A B : Type} (R : A -> B -> Prop)
    (ls : list (list A)) (ks : list (list B)) :
  Forall2 (Forall2 R) ls ks -> length (concat ks) = length (concat ls).
Proof.
  intros H. induction H as [|l k ls ks Hl _ IH]; [reflexivity |].
  simpl. rewrite !length_app, IH. f_equal. apply Forall2_length in Hl. lia.
Qed.

Lemma key_index_snoc (keys : list VALUE) (k : VALUE) :
  key_index (keys ++ [k]) = key_index keys ++ [(k, INT2NUM (Z.of_nat (length keys)))].
Proof.
  unfold key_index. rewrite imap_app. simpl. rewrite Nat.add_0_r. reflexivity.
Qed.

Lemma key_index_fst (keys : list VALUE) : (key_index keys).*1 = keys.
Proof.
  unfold key_index. apply list_eq. intros i.
  rewrite list_lookup_fmap, list_lookup_imap.
  destruct (keys !! i); reflexivity.
Qed.

Lemma store_filled_Ok {T : Type} (done : list T) (total : nat) (v : T) :
  (length done < total)%nat ->
  store (filled done total) (Z.of_nat (length done)) v
  = Ok (filled (done ++ [v]) total).
Proof.
  intros Hlt.
  destruct (store (filled done total) (Z.of_nat (length done)) v) as [r|e|f] eqn:E.
  - apply store_filled in E as [_ ->]; [reflexivity | lia].
  - unfold store in E. destruct (_ && _); discriminate.
  - unfold store in E. rewrite length_filled in E by lia.
    replace (0 <=? Z.of_nat (length done)) with true in E
      by (symmetry; apply Z.leb_le; lia).
    replace (Z.of_nat (length done) <? Z.of_nat total) with true in E
      by (symmetry; apply Z.ltb_lt; lia).
    discriminate.
Qed.

(** With distinct keys and rows that are arrays the first loop succeeds: it
    returns the index of the keys and the number of entries. *)
Lemma count_rows_total (data : VALUE) (keys : list VALUE)
    (rows : list (list VALUE)) :
  NoDup keys ->
  rows_of data keys rows ->
  Z.of_nat (length (concat rows)) <= INT_MAX ->
  for_range 0 (Z.of_nat (length keys)) (count_row data (RArray keys))
    (rb_hash_new, 0)
  = Ok (RHash (key_index keys), Z.of_nat (length (concat rows))).
Proof.
  intros Hnd Hrows Hmax. unfold for_range. rewrite Z.sub_0_r, Nat2Z.id.
  pose proof Hrows as Hlen. apply Forall2_length in Hlen.
  destruct (for_loop_total
    (fun (k : nat) (st : VALUE * Z) =>
       st = (RHash (key_index (take k keys)),
             Z.of_nat (length (concat (take k rows)))))
    (length keys) 0 (count_row data (RArray keys)) (rb_hash_new, 0))
    as (st & Hrun & ->).
  - reflexivity.
  - intros k t Hk ->. rewrite Z.add_0_l.
    destruct (lookup_lt_is_Some_2 keys k Hk) as [key Hkey].
    destruct (lookup_lt_is_Some_2 rows k) as [r Hr]; [lia |].
    pose proof (Forall2_lookup_lr _ _ _ _ _ _ Hrows Hkey Hr) as Hrow.
    simpl in Hrow.
    eexists. split; [| reflexivity].
    unfold count_row. rewrite (rb_ary_entry_nat _ _ _ Hkey), bind_ret.
    cbn [rb_hash_aset]. rewrite bind_ret, Hrow, bind_ret.
    change (Check_Type (RArray r) T_ARRAY) with (Ok tt). rewrite bind_ret.
    cbn [RARRAY_LEN]. rewrite bind_ret.
    pose proof (concat_take_le rows (Datatypes.S k)) as Hle.
    rewrite (take_S_r _ _ _ Hr), concat_app, length_app in Hle.
    simpl in Hle. rewrite app_nil_r in Hle.
    rewrite (proj2 (int_of_long_Ok (Z.of_nat (length r)) _)), bind_ret
      by (split; [reflexivity | unfold INT_MIN, INT_MAX in *; lia]).
    rewrite (proj2 (int_add_Ok _ _ _)), bind_ret
      by (split; [reflexivity | unfold INT_MIN, INT_MAX in *; lia]).
    rewrite (take_S_r _ _ _ Hkey), (take_S_r _ _ _ Hr), key_index_snoc.
    rewrite assoc_set_fresh.
    + rewrite length_take, Nat.min_l by lia.
      rewrite concat_app, length_app. simpl. rewrite app_nil_r.
      do 2 f_equal. lia.
    + rewrite key_index_fst. intros Hin.
      apply list_elem_of_lookup in Hin as (i & Hi).
      apply lookup_take_Some in Hi as [Hi Hik].
      pose proof (proj1 (NoDup_alt keys) Hnd i k key Hi Hkey). lia.
  - rewrite Hrun, firstn_all, Hlen, firstn_all. reflexivity.
Qed.

Lemma assoc_find_key_index (keys : list VALUE) (i : nat) (k : VALUE) :
  Forall identifier keys -> NoDup keys -> keys !! i = Some k ->
  assoc_find k (key_index keys) = Some (INT2NUM (Z.of_nat i)).
Proof.
  intros Hid Hnd Hk. apply (assoc_find_wf _ i).
  - split.
    + change (map fst (key_index keys)) with ((key_index keys).*1).
      rewrite key_index_fst. exact Hid.
    + change (map fst (key_index keys)) with ((key_index keys).*1).
      rewrite key_index_fst. exact Hnd.
  - unfold key_index. rewrite list_lookup_imap, Hk. reflexivity.
Qed.

(** An accepted entry resolves to a weight and the position of its id. *)
Lemma accepted_entry_resolves (keys : list VALUE) (e : VALUE) :
  Forall identifier keys -> NoDup keys ->
  Z.of_nat (length keys) <= INT_MAX ->
  accepted_entry keys e ->
  exists wc, resolve_entry (RHash (key_index keys)) e = Ok wc.
Proof.
  intros Hid Hnd Hmax (idv & wv & Hty & Hidv & Hin & Hwv & Hnum).
  apply list_elem_of_In, list_elem_of_lookup in Hin as (i & Hi).
  exists (to_double wv, Z.of_nat i). unfold resolve_entry.
  rewrite (proj2 (Check_Type_Ok e T_HASH tt) Hty), bind_ret.
  rewrite Hidv, bind_ret, Hwv, bind_ret.
  rewrite (NUM2DBL_numeric _ Hnum), bind_ret.
  cbn [rb_hash_aref]. rewrite (assoc_find_key_index keys i idv Hid Hnd Hi).
  cbn [default]. rewrite bind_ret. unfold INT2NUM. cbn [id NUM2INT].
  apply lookup_lt_Some in Hi.
  rewrite (proj2 (fits_int_spec _)) by (unfold INT_MIN, INT_MAX in *; lia).
  reflexivity.
Qed.

(** An entry that resolves is stored when there is room for it. *)
Lemma fill_entry_total (kl : VALUE) (r : list VALUE) (total : nat)
    (done : list (float * Z)) (j : nat) (e : VALUE) (wc : float * Z)
    (st : fill_state) :
  r !! j = Some e ->
  resolve_entry kl e = Ok wc ->
  fill_inv total done st ->
  (length done < total)%nat ->
  exists st', fill_entry kl (RArray r) (Z.of_nat j) st = Ok st' /\
              fill_inv total (done ++ [wc]) st' /\
              f_row_index st' = f_row_index st.
Proof.
  intros He Hres (Hv & Hc & Hnz & Hle) Hlt. unfold resolve_entry in Hres.
  apply bind_Ok in Hres as (u & Hu & Hres).
  apply bind_Ok in Hres as (key & Hid & Hres).
  apply bind_Ok in Hres as (wv & Hw & Hres).
  apply bind_Ok in Hres as (weight & Hweight & Hres).
  apply bind_Ok in Hres as (cv & Hcv & Hres).
  apply bind_Ok in Hres as (c & Hcol & Hres).
  injection Hres as <-.
  eexists. split; [| split].
  - unfold fill_entry. rewrite (rb_ary_entry_nat _ _ _ He), bind_ret.
    rewrite Hu, bind_ret, Hid, bind_ret, Hw, bind_ret, Hweight, bind_ret.
    rewrite Hv, Hnz. rewrite <- (length_fmap fst done).
    rewrite store_filled_Ok by (rewrite length_fmap; exact Hlt).
    rewrite bind_ret, Hcv, bind_ret, Hcol, bind_ret.
    rewrite Hc. rewrite length_fmap, <- (length_fmap snd done).
    rewrite store_filled_Ok by (rewrite length_fmap; exact Hlt).
    rewrite bind_ret. reflexivity.
  - unfold fill_inv. cbn [f_values f_col_index f_nz_idx].
    rewrite !fmap_app, length_app, !length_fmap. simpl.
    split_and!; try reflexivity; lia.
  - reflexivity.
Qed.

Lemma fill_entries_total (kl : VALUE) (r : list VALUE) (total : nat)
    (done ents : list (float * Z)) (st : fill_state) :
  resolved_row kl r ents ->
  fill_inv total done st ->
  (length done + length r <= total)%nat ->
  exists st',
    for_range 0 (Z.of_nat (length r)) (fill_entry kl (RArray r)) st = Ok st' /\
    fill_inv total (done ++ ents) st' /\
    f_row_index st' = f_row_index st.
Proof.
  intros Hres Hinv Hroom. unfold for_range. rewrite Z.sub_0_r, Nat2Z.id.
  pose proof Hres as Hlen. apply Forall2_length in Hlen.
  destruct (for_loop_total
    (fun (j : nat) (t : fill_state) =>
       fill_inv total (done ++ take j ents) t /\
       f_row_index t = f_row_index st)
    (length r) 0 (fill_entry kl (RArray r)) st) as (st' & Hrun & Hfi & Hri).
  - rewrite take_0, app_nil_r. split; [exact Hinv | reflexivity].
  - intros j t Hj [Hfi Hri]. rewrite Z.add_0_l.
    destruct (lookup_lt_is_Some_2 r j Hj) as [e He].
    destruct (lookup_lt_is_Some_2 ents j) as [wc Hwc]; [lia |].
    pose proof (Forall2_lookup_lr _ _ _ _ _ _ Hres He Hwc) as Hewc.
    simpl in Hewc.
    destruct (fill_entry_total kl r total (done ++ take j ents) j e wc t
                He Hewc Hfi) as (t' & Hbody & Hfi' & Hri').
    { rewrite length_app, length_take. lia. }
    exists t'. split; [exact Hbody |].
    rewrite (take_S_r _ _ _ Hwc), app_assoc. split; [exact Hfi' | congruence].
  - exists st'. rewrite Hlen, firstn_all in Hfi. split_and!; assumption.
Qed.

Lemma offsets_S_lookup (entss : list (list (float * Z))) (k : nat) :
  offsets entss (Datatypes.S k)
  = offsets entss k ++ [Z.of_nat (length (concat (take k entss)))].
Proof. unfold offsets. rewrite seq_S, fmap_app. reflexivity. Qed.

Lemma fill_rows_total (data : VALUE) (keys : list VALUE) (kl : VALUE)
    (rows : list (list VALUE)) (entss : list (list (float * Z)))
    (n1 : nat) (st : fill_state) :
  rows_of data keys rows ->
  Forall2 (resolved_row kl) rows entss ->
  Z.of_nat (length (concat rows)) <= INT_MAX ->
  fill_inv (length (concat entss)) [] st ->
  f_row_index st = filled [] n1 ->
  (length keys < n1)%nat ->
  exists st',
    for_range 0 (Z.of_nat (length keys)) (fill_row data (RArray keys) kl) st
    = Ok st' /\
    f_row_index st' = filled (offsets entss (length keys)) n1.
Proof.
  intros Hrows Hres Hmax Hinv Hri Hn1. unfold for_range.
  rewrite Z.sub_0_r, Nat2Z.id.
  pose proof Hrows as Hlen. apply Forall2_length in Hlen.
  pose proof Hres as Hlen'. apply Forall2_length in Hlen'.
  destruct (for_loop_total
    (fun (k : nat) (t : fill_state) =>
       fill_inv (length (concat entss)) (concat (take k entss)) t /\
       f_row_index t = filled (offsets entss k) n1)
    (length keys) 0 (fill_row data (RArray keys) kl) st)
    as (st' & Hrun & _ & Hri').
  - rewrite take_0. split; [exact Hinv | exact Hri].
  - intros k t Hk [Hfi Hoff]. rewrite Z.add_0_l.
    destruct (lookup_lt_is_Some_2 keys k Hk) as [key Hkey].
    destruct (lookup_lt_is_Some_2 rows k) as [r Hr]; [lia |].
    destruct (lookup_lt_is_Some_2 entss k) as [ents Hents]; [lia |].
    pose proof (Forall2_lookup_lr _ _ _ _ _ _ Hrows Hkey Hr) as Hrow.
    pose proof (Forall2_lookup_lr _ _ _ _ _ _ Hres Hr Hents) as Hrowres.
    simpl in Hrow.
    pose proof Hrowres as Hlenr. apply Forall2_length in Hlenr.
    pose proof (concat_take_le entss (Datatypes.S k)) as Hle.
    pose proof (offsets_step _ _ _ Hents) as Hstep.
    assert (Hcnt : length (concat entss) = length (concat rows)).
    { clear -Hres. induction Hres as [|r0 e0 rs es Hr _ IH]; [reflexivity |].
      simpl. rewrite !length_app, IH. f_equal.
      apply Forall2_length in Hr. lia. }
    destruct (fill_entries_total kl r (length (concat entss))
                (concat (take k entss)) ents
                {| f_values := f_values t; f_col_index := f_col_index t;
                   f_row_index := filled (offsets entss (Datatypes.S k)) n1;
                   f_nz_idx := f_nz_idx t |} Hrowres)
      as (t' & Hinner & Hfi' & Hri').
    { destruct Hfi as (Hv & Hc & Hnz & Hl). unfold fill_inv. simpl.
      split_and!; assumption. }
    { lia. }
    exists t'. split.
    + unfold fill_row. rewrite Hoff.
      rewrite <- (length_offsets entss k) at 2.
      rewrite store_filled_Ok by (rewrite length_offsets; lia).
      rewrite bind_ret, (rb_ary_entry_nat _ _ _ Hkey), bind_ret, Hrow, bind_ret.
      cbn [RARRAY_LEN]. rewrite bind_ret.
      rewrite (proj2 (int_of_long_Ok (Z.of_nat (length r)) _)), bind_ret
        by (split; [reflexivity | unfold INT_MIN, INT_MAX in *; lia]).
      destruct Hfi as (_ & _ & Hnz & _). rewrite Hnz.
      rewrite <- offsets_S_lookup. rewrite <- Hnz. exact Hinner.
    + rewrite (take_S_r _ _ _ Hents), concat_app. simpl. rewrite app_nil_r.
      split; [exact Hfi' | exact Hri'].
  - exists st'. split; [exact Hrun | exact Hri'].
Qed.

Lemma rb_iv_set_tail (num_rows : VALUE) (w : world) :
  (_ ← rb_iv_set "@n" num_rows;
   csr ← get_csr;
   rb_iv_set "@nnz" (INT2NUM (nnz csr))) w
  = (Ok tt,
     {| self_csr := self_csr w;
        self_ivars := ("@nnz"%string, INT2NUM (nnz (self_csr w)))
                        :: ("@n"%string, num_rows) :: self_ivars w;
        heap := heap w |}).
Proof. reflexivity. Qed.

Lemma mat_to_sparse_total (h : list (VALUE * VALUE)) (rows : list (list VALUE))
    (w : world) :
  wf_hash h ->
  map snd h = RArray <$> rows ->
  Forall (Forall (accepted_entry (map fst h))) rows ->
  Z.of_nat (length h) < INT_MAX ->
  Z.of_nat (length (concat rows)) <= INT_MAX ->
  exists w',
    mat_to_sparse (RHash h) (RArray (map fst h))
      (RInteger (Z.of_nat (length h))) w = (Ok tt, w').
Proof.
  intros Hwf Hsnd Hacc Hn Hnnz.
  pose proof (proj2 (rows_of_wf h rows Hwf) Hsnd) as Hrows.
  destruct Hwf as [Hid Hnd].
  assert (Hres : exists entss,
             Forall2 (resolved_row (RHash (key_index (map fst h)))) rows entss).
  { clear -Hacc Hid Hnd Hn. induction Hacc as [|r rows Hr _ IH].
    - exists []. constructor.
    - destruct IH as (entss & IH).
      assert (Hrow : exists ents,
                 resolved_row (RHash (key_index (map fst h))) r ents).
      { clear -Hr Hid Hnd Hn. induction Hr as [|e r He _ IH].
        - exists []. constructor.
        - destruct IH as (ents & IH).
          destruct (accepted_entry_resolves _ e Hid Hnd) as (wc & Hwc);
            [rewrite length_map; lia | exact He |].
          exists (wc :: ents). constructor; assumption. }
      destruct Hrow as (ents & Hrow). exists (ents :: entss).
      constructor; assumption. }
  destruct Hres as (entss & Hres).
  assert (Hcnt : length (concat entss) = length (concat rows)).
  { clear -Hres. induction Hres as [|r0 e0 rs es Hr _ IH]; [reflexivity |].
    simpl. rewrite !length_app, IH. f_equal. apply Forall2_length in Hr. lia. }
  destruct (fill_rows_total (RHash h) (map fst h)
              (RHash (key_index (map fst h))) rows entss
              (Datatypes.S (length h))
              {| f_values := malloc_cells (Z.of_nat (length (concat rows)));
                 f_col_index := malloc_cells (Z.of_nat (length (concat rows)));
                 f_row_index := malloc_cells (Z.of_nat (length h) + 1);
                 f_nz_idx := 0 |} Hrows Hres Hnnz)
    as (st' & Hfill & Hri).
  { unfold fill_inv. simpl. rewrite !malloc_cells_filled, Nat2Z.id, Hcnt.
    split_and!; [reflexivity | reflexivity | reflexivity | lia]. }
  { simpl. rewrite malloc_cells_filled. f_equal. lia. }
  { rewrite length_map. lia. }
  rewrite length_map in Hfill, Hri.
  eexists. unfold mat_to_sparse. cbn [NUM2INT].
  rewrite (proj2 (fits_int_spec _)) by (unfold INT_MIN, INT_MAX in *; lia).
  unfold mbind at 1, M_bind at 1, lift at 1.
  rewrite <- (length_map fst h) at 1.
  unfold mbind at 1, M_bind at 1, lift at 1.
  rewrite (count_rows_total (RHash h) (map fst h) rows Hnd Hrows Hnnz).
  unfold mbind at 1, M_bind at 1, malloc at 1.
  unfold mbind at 1, M_bind at 1, malloc at 1.
  unfold mbind at 1, M_bind at 1, lift at 1.
  rewrite (proj2 (int_add_Ok (Z.of_nat (length h)) 1 _))
    by (split; [reflexivity | unfold INT_MIN, INT_MAX in *; lia]).
  unfold mbind at 1, M_bind at 1, malloc at 1.
  unfold mbind at 1, M_bind at 1, lift at 1.
  rewrite Hfill.
  unfold mbind at 1, M_bind at 1, lift at 1.
  rewrite Hri.
  pose proof (store_filled_Ok (offsets entss (length h))
                (Datatypes.S (length h))
                (Z.of_nat (length (concat rows)))) as Hlast.
  rewrite length_offsets in Hlast. rewrite Hlast by lia.
  reflexivity.
Qed.

(** ** Construction stopped by an undeclared identifier *)

Lemma lookup_ok_key_index (keys : list VALUE) : lookup_ok keys (key_index keys).
Proof.
  intros kv Hin. apply list_elem_of_In, elem_of_lookup_imap in Hin
    as (i & k & -> & Hk).
  exists i. split; [reflexivity | exact Hk].
Qed.

(** A lookup that only knows the declared keys answers nil for any other
    identifier. *)
Lemma assoc_find_undeclared (keys : list VALUE) (kl : list (VALUE * VALUE))
    (idv : VALUE) :
  lookup_ok keys kl -> ~ In idv keys -> assoc_find idv kl = None.
Proof.
  intros Hok Hnot. destruct (assoc_find idv kl) as [v|] eqn:E; [| reflexivity].
  exfalso. apply assoc_find_In, Hok in E as (i & _ & Hkey). simpl in Hkey.
  apply Hnot. apply list_elem_of_In. eapply list_elem_of_lookup_2. exact Hkey.
Qed.

(** A store inside the block succeeds. *)
Lemma store_in_bounds {T : Type} (a : list (option T)) (i : Z) (v : T) :
  0 <= i < Z.of_nat (length a) ->
  store a i v = Ok (<[Z.to_nat i := Some v]> a).
Proof.
  intros H. unfold store.
  replace (0 <=? i) with true by (symmetry; apply Z.leb_le; lia).
  replace (i <? Z.of_nat (length a)) with true
    by (symmetry; apply Z.ltb_lt; lia).
  reflexivity.
Qed.

(** The entry at position [j] of a row names an identifier that is no
    declared key: [fill_entry] stores its weight and then raises, in
    [NUM2INT], on the nil the key lookup returned. *)
Lemma fill_entry_unresolved (keys : list VALUE) (kl : list (VALUE * VALUE))
    (r : list VALUE) (j : nat) (e idv wv : VALUE) (st : fill_state) :
  lookup_ok keys kl ->
  r !! j = Some e ->
  TYPE e = T_HASH ->
  rb_hash_aref e id_sym = Ok idv ->
  ~ In idv keys ->
  rb_hash_aref e weight_sym = Ok wv ->
  numeric wv ->
  0 <= f_nz_idx st < Z.of_nat (length (f_values st)) ->
  fill_entry (RHash kl) (RArray r) (Z.of_nat j) st
  = Raise (no_implicit_conversion T_NIL).
Proof.
  intros Hok He Hty Hid Hnot Hw Hnum Hroom. unfold fill_entry.
  rewrite (rb_ary_entry_nat _ _ _ He), bind_ret.
  rewrite (proj2 (Check_Type_Ok e T_HASH tt) Hty), bind_ret.
  rewrite Hid, bind_ret, Hw, bind_ret, (NUM2DBL_numeric _ Hnum), bind_ret.
  rewrite (store_in_bounds _ _ _ Hroom), bind_ret. cbn [rb_hash_aref].
  rewrite (assoc_find_undeclared keys kl idv Hok Hnot). reflexivity.
Qed.

Lemma fill_inv_room (total : nat) (done : list (float * Z)) (st : fill_state) :
  fill_inv total done st -> (length done < total)%nat ->
  0 <= f_nz_idx st < Z.of_nat (length (f_values st)).
Proof.
  intros (Hv & _ & Hnz & Hle) Hlt. rewrite Hv, Hnz, length_filled;
    rewrite ?length_fmap; lia.
Qed.

(** The inner loop on a row whose first entry that does not resolve names an
    undeclared identifier. *)
Lemma fill_entries_unresolved (keys : list VALUE) (kl : list (VALUE * VALUE))
    (r_pre r_post : list VALUE) (e idv wv : VALUE) (total : nat)
    (done ents_pre : list (float * Z)) (st : fill_state) :
  lookup_ok keys kl ->
  resolved_row (RHash kl) r_pre ents_pre ->
  TYPE e = T_HASH ->
  rb_hash_aref e id_sym = Ok idv ->
  ~ In idv keys ->
  rb_hash_aref e weight_sym = Ok wv ->
  numeric wv ->
  fill_inv total done st ->
  (length done + length (r_pre ++ e :: r_post) <= total)%nat ->
  for_range 0 (Z.of_nat (length (r_pre ++ e :: r_post)))
    (fill_entry (RHash kl) (RArray (r_pre ++ e :: r_post))) st
  = Raise (no_implicit_conversion T_NIL).
Proof.
  intros Hok Hres Hty Hid Hnot Hw Hnum Hinv Hroom.
  unfold for_range. rewrite Z.sub_0_r, Nat2Z.id.
  pose proof Hres as Hlen. apply Forall2_length in Hlen.
  rewrite length_app in Hroom. simpl in Hroom.
  destruct (for_loop_raises (fun x => x = no_implicit_conversion T_NIL)
              (fun (j : nat) (t : fill_state) =>
                 (j <= length r_pre)%nat /\
                 fill_inv total (done ++ take j ents_pre) t)
              (length (r_pre ++ e :: r_post)) 0
              (fill_entry (RHash kl) (RArray (r_pre ++ e :: r_post))) st
              (length r_pre)) as (x & Hrun & ->).
  - rewrite take_0, app_nil_r. split; [lia | exact Hinv].
  - intros j t Hj [Hle Hfi]. rewrite Z.add_0_l.
    destruct (decide (j = length r_pre)) as [-> | Hne].
    + right. exists (no_implicit_conversion T_NIL). split; [| reflexivity].
      apply (fill_entry_unresolved keys kl _ _ e idv wv); try assumption.
      * apply list_lookup_middle. reflexivity.
      * eapply fill_inv_room; [exact Hfi |].
        rewrite length_app, length_take. lia.
    + left. destruct (lookup_lt_is_Some_2 r_pre j) as [ej Hej]; [lia |].
      destruct (lookup_lt_is_Some_2 ents_pre j) as [wc Hwc]; [lia |].
      pose proof (Forall2_lookup_lr _ _ _ _ _ _ Hres Hej Hwc) as Hewc.
      simpl in Hewc.
      destruct (fill_entry_total (RHash kl) (r_pre ++ e :: r_post) total
                  (done ++ take j ents_pre) j ej wc t) as (t' & Hbody & Hfi' & _).
      * rewrite lookup_app_l by lia. exact Hej.
      * exact Hewc.
      * exact Hfi.
      * rewrite length_app, length_take. lia.
      * exists t'. split; [exact Hbody |]. split; [lia |].
        rewrite (take_S_r _ _ _ Hwc), app_assoc. exact Hfi'.
  - rewrite length_app. simpl. lia.
  - intros t [_ Hfi]. rewrite Z.add_0_l.
    exists (no_implicit_conversion T_NIL). split; [| reflexivity].
    apply (fill_entry_unresolved keys kl _ _ e idv wv); try assumption.
    + apply list_lookup_middle. reflexivity.
    + eapply fill_inv_room; [exact Hfi |].
      rewrite length_app, length_take. lia.
  - exact Hrun.
Qed.

(** One iteration of the second loop, up to its inner loop. *)
Lemma fill_row_unfold (data : VALUE) (keys : list VALUE) (kl key : VALUE)
    (r : list VALUE) (total : nat) (done : list (float * Z)) (offs : list Z)
    (n1 k : nat) (t : fill_state) :
  keys !! k = Some key ->
  rb_hash_aref data key = Ok (RArray r) ->
  fill_inv total done t ->
  f_row_index t = filled offs n1 ->
  length offs = k ->
  (k < n1)%nat ->
  Z.of_nat (length r) <= INT_MAX ->
  fill_row data (RArray keys) kl (Z.of_nat k) t
  = for_range 0 (Z.of_nat (length r)) (fill_entry kl (RArray r))
      {| f_values := f_values t; f_col_index := f_col_index t;
         f_row_index := filled (offs ++ [Z.of_nat (length done)]) n1;
         f_nz_idx := f_nz_idx t |}.
Proof.
  intros Hkey Hrow (_ & _ & Hnz & _) Hoff Hlen Hk Hmax. unfold fill_row.
  rewrite Hoff. subst k.
  rewrite store_filled_Ok by exact Hk.
  rewrite bind_ret, (rb_ary_entry_nat _ _ _ Hkey), bind_ret, Hrow, bind_ret.
  cbn [RARRAY_LEN]. rewrite bind_ret.
  rewrite (proj2 (int_of_long_Ok (Z.of_nat (length r)) _)), bind_ret
    by (split; [reflexivity | unfold INT_MIN, INT_MAX in *; lia]).
  rewrite Hnz. reflexivity.
Qed.

(** The second loop on rows of which the first entry that does not resolve
    names an undeclared identifier: the rows before it are filled, and the
    loop stops at that entry. *)
Lemma fill_rows_unresolved (data : VALUE) (keys keys0 : list VALUE)
    (kl : list (VALUE * VALUE)) (rows_pre rows_post : list (list VALUE))
    (r_pre r_post : list VALUE) (e idv wv : VALUE)
    (entss_pre : list (list (float * Z))) (ents_pre : list (float * Z))
    (n1 : nat) (st : fill_state) :
  let rows := rows_pre ++ (r_pre ++ e :: r_post) :: rows_post in
  rows_of data keys rows ->
  lookup_ok keys0 kl ->
  Forall2 (resolved_row (RHash kl)) rows_pre entss_pre ->
  resolved_row (RHash kl) r_pre ents_pre ->
  TYPE e = T_HASH ->
  rb_hash_aref e id_sym = Ok idv ->
  ~ In idv keys0 ->
  rb_hash_aref e weight_sym = Ok wv ->
  numeric wv ->
  Z.of_nat (length (concat rows)) <= INT_MAX ->
  fill_inv (length (concat rows)) [] st ->
  f_row_index st = filled [] n1 ->
  (length keys < n1)%nat ->
  for_range 0 (Z.of_nat (length keys)) (fill_row data (RArray keys) (RHash kl))
    st
  = Raise (no_implicit_conversion T_NIL).
Proof.
  intros rows Hrows Hok Hpre Hrpre Hty Hid Hnot Hw Hnum Hmax Hinv Hri Hn1.
  unfold for_range. rewrite Z.sub_0_r, Nat2Z.id.
  pose proof Hrows as Hlen. apply Forall2_length in Hlen.
  pose proof Hpre as Hlenp. apply Forall2_length in Hlenp.
  assert (Hlenrows : length rows = (length rows_pre + S (length rows_post))%nat).
  { unfold rows. rewrite length_app. reflexivity. }
  assert (Hbad : rows !! length rows_pre = Some (r_pre ++ e :: r_post)).
  { unfold rows. apply list_lookup_middle. reflexivity. }
  assert (Hcnt : forall k r, rows !! k = Some r ->
             (length (concat (take k rows)) + length r
              <= length (concat rows))%nat).
  { intros k r Hr.
    assert (E : length (concat rows)
                = length (concat (take k rows ++ r :: drop (S k) rows)))
      by (rewrite (take_drop_middle rows k r Hr); reflexivity).
    rewrite E, concat_app, length_app. simpl. rewrite length_app. lia. }
  assert (Hdone : forall k, (k <= length rows_pre)%nat ->
             length (concat (take k entss_pre)) = length (concat (take k rows))).
  { intros k Hk. unfold rows. rewrite take_app_le by lia.
    eapply length_concat_Forall2. apply Forall2_take. exact Hpre. }
  destruct (for_loop_raises (fun x => x = no_implicit_conversion T_NIL)
              (fun (k : nat) (t : fill_state) =>
                 (k <= length rows_pre)%nat /\
                 fill_inv (length (concat rows)) (concat (take k entss_pre)) t /\
                 exists offs, length offs = k /\
                              f_row_index t = filled offs n1)
              (length keys) 0 (fill_row data (RArray keys) (RHash kl)) st
              (length rows_pre)) as (x & Hrun & ->).
  - rewrite take_0. split_and!; [lia | exact Hinv |].
    exists []. split; [reflexivity | exact Hri].
  - intros k t Hk (Hle & Hfi & offs & Hoffs & Hoff). rewrite Z.add_0_l.
    destruct (lookup_lt_is_Some_2 keys k Hk) as [key Hkey].
    destruct (lookup_lt_is_Some_2 rows k) as [r Hr]; [lia |].
    pose proof (Forall2_lookup_lr _ _ _ _ _ _ Hrows Hkey Hr) as Hrow.
    simpl in Hrow. pose proof (Hcnt k r Hr) as Hroom.
    rewrite (fill_row_unfold data keys (RHash kl) key r _ _ offs n1 k t
               Hkey Hrow Hfi Hoff Hoffs) by lia.
    assert (Hfi' : fill_inv (length (concat rows)) (concat (take k entss_pre))
              {| f_values := f_values t; f_col_index := f_col_index t;
                 f_row_index :=
                   filled (offs ++ [Z.of_nat (length (concat (take k entss_pre)))])
                     n1;
                 f_nz_idx := f_nz_idx t |}).
    { destruct Hfi as (Hv & Hc & Hnz & Hl). unfold fill_inv. simpl.
      split_and!; assumption. }
    destruct (decide (k = length rows_pre)) as [-> | Hne].
    + right. exists (no_implicit_conversion T_NIL). split; [| reflexivity].
      rewrite Hbad in Hr. injection Hr as <-.
      apply (fill_entries_unresolved keys0 kl r_pre r_post e idv wv
               (length (concat rows))
               (concat (take (length rows_pre) entss_pre)) ents_pre);
        try assumption.
      rewrite Hdone by lia. exact Hroom.
    + left.
      assert (Hrp : rows_pre !! k = Some r).
      { unfold rows in Hr. rewrite lookup_app_l in Hr by lia. exact Hr. }
      destruct (lookup_lt_is_Some_2 entss_pre k) as [ents Hents]; [lia |].
      pose proof (Forall2_lookup_lr _ _ _ _ _ _ Hpre Hrp Hents) as Hrowres.
      destruct (fill_entries_total (RHash kl) r (length (concat rows))
                  (concat (take k entss_pre)) ents _ Hrowres Hfi')
        as (t' & Hinner & Hfi'' & Hri').
      { rewrite Hdone by lia. exact Hroom. }
      exists t'. split; [exact Hinner |]. split_and!.
      * lia.
      * rewrite (take_S_r _ _ _ Hents), concat_app. simpl.
        rewrite app_nil_r. exact Hfi''.
      * eexists. split; [| exact Hri']. rewrite length_app. simpl. lia.
  - lia.
  - intros t (_ & Hfi & offs & Hoffs & Hoff). rewrite Z.add_0_l.
    destruct (lookup_lt_is_Some_2 keys (length rows_pre)) as [key Hkey];
      [lia |].
    pose proof (Forall2_lookup_lr _ _ _ _ _ _ Hrows Hkey Hbad) as Hrow.
    simpl in Hrow. pose proof (Hcnt _ _ Hbad) as Hroom.
    exists (no_implicit_conversion T_NIL). split; [| reflexivity].
    rewrite (fill_row_unfold data keys (RHash kl) key _ _ _ offs n1 _ t
               Hkey Hrow Hfi Hoff Hoffs) by lia.
    apply (fill_entries_unresolved keys0 kl r_pre r_post e idv wv
               (length (concat rows))
               (concat (take (length rows_pre) entss_pre)) ents_pre);
      try assumption.
    rewrite Hdone by lia. exact Hroom.
  - exact Hrun.
Qed.

(** Accepted rows resolve through the index of the declared keys. *)
Lemma accepted_rows_resolve (keys : list VALUE) (rows : list (list VALUE)) :
  Forall identifier keys ->
  NoDup keys ->
  Z.of_nat (length keys) <= INT_MAX ->
  Forall (Forall (accepted_entry keys)) rows ->
  exists entss, Forall2 (resolved_row (RHash (key_index keys))) rows entss.
Proof.
  intros Hid Hnd Hn Hacc. induction Hacc as [|r rows Hr _ IH].
  - exists []. constructor.
  - destruct IH as (entss & IH).
    assert (Hrow : exists ents, resolved_row (RHash (key_index keys)) r ents).
    { clear -Hr Hid Hnd Hn. induction Hr as [|e r He _ IH].
      - exists []. constructor.
      - destruct IH as (ents & IH).
        destruct (accepted_entry_resolves _ e Hid Hnd) as (wc & Hwc);
          [lia | exact He |].
        exists (wc :: ents). constructor; assumption. }
    destruct Hrow as (ents & Hrow). exists (ents :: entss).
    constructor; assumption.
Qed.

(** The constructor on an input whose first entry that is not accepted names
    an undeclared identifier and has a number as weight. *)
Lemma csr_matrix_initialize_unresolved (h : list (VALUE * VALUE))
    (rows_pre rows_post : list (list VALUE)) (r_pre r_post : list VALUE)
    (e idv wv : VALUE) (w : world) :
  let rows := rows_pre ++ (r_pre ++ e :: r_post) :: rows_post in
  wf_hash h ->
  map snd h = RArray <$> rows ->
  Forall (Forall (accepted_entry (map fst h))) rows_pre ->
  Forall (accepted_entry (map fst h)) r_pre ->
  TYPE e = T_HASH ->
  rb_hash_aref e id_sym = Ok idv ->
  ~ In idv (map fst h) ->
  rb_hash_aref e weight_sym = Ok wv ->
  numeric wv ->
  Z.of_nat (length h) < INT_MAX ->
  Z.of_nat (length (concat rows)) <= INT_MAX ->
  exists w',
    csr_matrix_initialize (RHash h) (RInteger (Z.of_nat (length h))) w
    = (Raise (no_implicit_conversion T_NIL), w') /\
    init (self_csr w') = 0.
Proof.
  intros rows Hwf Hsnd Hacc Haccr Hty Hid Hnot Hw Hnum Hn Hnnz.
  pose proof (proj2 (rows_of_wf h rows Hwf) Hsnd) as Hrows.
  destruct Hwf as [Hids Hnd].
  destruct (accepted_rows_resolve (map fst h) rows_pre Hids Hnd)
    as (entss_pre & Hpre); [rewrite length_map; lia | exact Hacc |].
  destruct (accepted_rows_resolve (map fst h) [r_pre] Hids Hnd)
    as (ents1 & Hrpre);
    [rewrite length_map; lia | constructor; [exact Haccr | constructor] |].
  apply Forall2_cons_inv_l in Hrpre as (ents_pre & ? & Hrpre & _ & _).
  pose proof (fill_rows_unresolved (RHash h) (map fst h) (map fst h)
                (key_index (map fst h)) rows_pre rows_post r_pre r_post
                e idv wv entss_pre ents_pre (Datatypes.S (length h))
                {| f_values := malloc_cells (Z.of_nat (length (concat rows)));
                   f_col_index := malloc_cells (Z.of_nat (length (concat rows)));
                   f_row_index := malloc_cells (Z.of_nat (length h) + 1);
                   f_nz_idx := 0 |} Hrows
                (lookup_ok_key_index (map fst h)) Hpre Hrpre Hty Hid Hnot Hw
                Hnum Hnnz) as Hfill.
  cbv zeta in Hfill. rewrite length_map in Hfill.
  eexists. split.
  - rewrite csr_matrix_initialize_unfold
      by (unfold INT_MIN, INT_MAX in *; lia).
    rewrite Z.eqb_refl. cbn [negb].
    unfold mbind at 1, M_bind at 1, lift at 1.
    unfold mbind at 1, M_bind at 1.
    unfold mat_to_sparse. cbn [NUM2INT].
    rewrite (proj2 (fits_int_spec _)) by (unfold INT_MIN, INT_MAX in *; lia).
    unfold mbind at 1, M_bind at 1, lift at 1.
    rewrite <- (length_map fst h) at 1.
    unfold mbind at 1, M_bind at 1, lift at 1.
    rewrite (count_rows_total (RHash h) (map fst h) rows Hnd Hrows Hnnz).
    unfold mbind at 1, M_bind at 1, malloc at 1.
    unfold mbind at 1, M_bind at 1, malloc at 1.
    unfold mbind at 1, M_bind at 1, lift at 1.
    rewrite (proj2 (int_add_Ok (Z.of_nat (length h)) 1 _))
      by (split; [reflexivity | unfold INT_MIN, INT_MAX in *; lia]).
    unfold mbind at 1, M_bind at 1, malloc at 1.
    unfold mbind at 1, M_bind at 1, lift at 1.
    rewrite Hfill.
    + reflexivity.
    + unfold fill_inv. simpl. rewrite !malloc_cells_filled, Nat2Z.id.
      split_and!; [reflexivity | reflexivity | reflexivity | lia].
    + simpl. rewrite malloc_cells_filled. f_equal. lia.
    + lia.
  - reflexivity.
Qed.

(** * The claims of the specification *)

(** C1.  On the matrix of the documentation, whose middle row is empty, the
    entries of the third row are filed under row 1: the hash returned has the
    keys [0,1], [1,0] and [1,2], and nothing under [2,0] or [2,2]. *)
Theorem coordinates_after_empty_row :
  forall w : world,
    exists w' res,
      csr_matrix_initialize doc_data (RInteger 3) w = (Ok tt, w') /\
      csr_matrix_row_index (self_csr w')
      = Ok (RArray [RInteger 0; RInteger 1; RInteger 1; RInteger 3]) /\
      csr_matrix_col_index (self_csr w')
      = Ok (RArray [RInteger 1; RInteger 0; RInteger 2]) /\
      csr_matrix_coordinates (self_csr w') = Ok res /\
      res = RHash [ (RArray [RInteger 0; RInteger 1], Flonum 1);
                    (RArray [RInteger 1; RInteger 0], Flonum 1);
                    (RArray [RInteger 1; RInteger 2], Flonum 1) ] /\
      rb_hash_aref res (RArray [RInteger 2; RInteger 0]) = Ok Qnil /\
      rb_hash_aref res (RArray [RInteger 2; RInteger 2]) = Ok Qnil.
Proof.
  intros w. exists (csr_matrix_initialize doc_data (RInteger 3) w).2.
  eexists. split_and!.
  - vm_compute. reflexivity.
  - vm_compute. reflexivity.
  - vm_compute. reflexivity.
  - vm_compute. reflexivity.
  - reflexivity.
  - vm_compute. reflexivity.
  - vm_compute. reflexivity.
Qed.

(** Apart from empty rows the claim C1 holds: on a hash none of whose rows is
    empty, a successful construction is followed by a [coordinates] that
    stores, for every entry of every row, the key made of the row number and
    of the position of the entry's identifier among the keys, with the
    entry's weight; when no two entries have the same key the hash holds
    exactly these pairs. *)
Lemma coordinates_without_empty_rows (h : list (VALUE * VALUE))
    (num_rows : VALUE) (w w' : world) :
  wf_hash h ->
  h <> [] ->
  Forall (fun kv : VALUE * VALUE => kv.2 <> RArray []) h ->
  csr_matrix_initialize (RHash h) num_rows w = (Ok tt, w') ->
  exists (rows : list (list VALUE)) (entss : list (list (float * Z))),
    map snd h = RArray <$> rows /\
    Forall2 (Forall2 (entry_triple (map fst h))) rows entss /\
    csr_matrix_coordinates (self_csr w') = Ok (RHash (hash_of (triples entss))) /\
    (NoDup (triples entss).*1 -> hash_of (triples entss) = triples entss).
Proof.
  intros Hwf Hne Hrowsne Hrun.
  apply csr_matrix_initialize_Ok in Hrun as (entss & Hbuilt & _ & -> & _).
  destruct Hbuilt as (h' & kl & rows & [= <-] & Hok & Hrows & Hres & _).
  pose proof (proj1 (rows_of_wf h rows Hwf) Hrows) as Hsnd.
  assert (Hlen : length rows = length h).
  { apply Forall2_length in Hrows. rewrite length_map in Hrows. lia. }
  exists rows, entss. split_and!.
  - exact Hsnd.
  - eapply Forall2_impl; [| exact Hres]. intros r ents Hr.
    eapply Forall2_impl; [| exact Hr]. intros e wc He.
    eapply resolve_entry_triple; eassumption.
  - apply csr_matrix_coordinates_csr_of.
    + apply Forall2_length in Hres. destruct h; [contradiction |].
      simpl in Hlen. lia.
    + apply Forall_lookup. intros i ents Hents ->.
      destruct (Forall2_lookup_r _ _ _ _ _ Hres Hents) as (r & Hr & Hrow).
      apply Forall2_length in Hrow. destruct r; [| discriminate].
      assert (Hv : (map snd h) !! i = Some (RArray [])).
      { rewrite Hsnd, list_lookup_fmap, Hr. reflexivity. }
      change (map snd h) with (snd <$> h) in Hv.
      rewrite list_lookup_fmap in Hv.
      destruct (h !! i) as [kv|] eqn:Hi; [| discriminate].
      simpl in Hv. injection Hv as Hv.
      exact (proj1 (Forall_lookup _ _) Hrowsne _ _ Hi Hv).
  - apply hash_of_NoDup.
Qed.

(** C2.  On a constructed matrix, for a vector of [n] numbers and a row
    [0 <= r < n], [dot_row] returns the element at position [r] of the array
    [mulvec] returns, and it computes it from row [r]'s slice alone: a matrix
    of the same dimension that agrees on the two offsets of row [r] and on
    the cells of [values] and [col_index] between them gives the same
    result, whatever its other cells hold. *)
Theorem dot_row_is_mulvec_entry :
  forall (csr : csr_matrix) (vec : list VALUE) (r : Z),
    constructed csr ->
    Z.of_nat (length vec) = n csr ->
    Forall numeric vec ->
    0 <= r < n csr ->
    exists (ys : list VALUE) (y : VALUE) (lo hi : Z),
      csr_matrix_mulvec csr (RArray vec) = Ok (RArray ys) /\
      csr_matrix_dot_row csr (RArray vec) (RInteger r) = Ok y /\
      ys !! Z.to_nat r = Some y /\
      load (row_index csr) r = Ok lo /\
      load (row_index csr) (r + 1) = Ok hi /\
      forall csr' : csr_matrix,
        n csr' = n csr ->
        load (row_index csr') r = Ok lo ->
        load (row_index csr') (r + 1) = Ok hi ->
        (forall jj, lo <= jj < hi ->
           load (values csr') jj = load (values csr) jj /\
           load (col_index csr') jj = load (col_index csr) jj) ->
        csr_matrix_dot_row csr' (RArray vec) (RInteger r) = Ok y.
Proof.
  intros csr vec r Hc Hlen Hvec Hr.
  apply constructed_csr_of in Hc as (entss & -> & Hcols & Hn & _).
  cbn [n csr_of] in Hlen, Hr. apply Nat2Z.inj in Hlen.
  destruct (lookup_lt_is_Some_2 entss (Z.to_nat r)) as [ents Hents]; [lia |].
  assert (Hdot : csr_matrix_dot_row (csr_of entss) (RArray vec) (RInteger r)
                 = Ok (DBL2NUM (row_dot vec ents))).
  { rewrite <- (Z2Nat.id r) by lia.
    apply csr_matrix_dot_row_csr_of; try assumption. lia. }
  assert (Hlo : load (row_index (csr_of entss)) r
                = Ok (Z.of_nat (length (concat (take (Z.to_nat r) entss))))).
  { rewrite <- (Z2Nat.id r) at 1 by lia. apply load_Some_nat.
    apply offsets_lookup. lia. }
  assert (Hhi : load (row_index (csr_of entss)) (r + 1)
                = Ok (Z.of_nat (length (concat (take (Datatypes.S (Z.to_nat r))
                                                  entss))))).
  { replace (r + 1) with (Z.of_nat (Datatypes.S (Z.to_nat r))) by lia.
    apply load_Some_nat. apply offsets_lookup. lia. }
  exists ((fun ents => DBL2NUM (row_dot vec ents)) <$> entss),
         (DBL2NUM (row_dot vec ents)),
         (Z.of_nat (length (concat (take (Z.to_nat r) entss)))),
         (Z.of_nat (length (concat (take (Datatypes.S (Z.to_nat r)) entss)))).
  split_and!.
  - apply csr_matrix_mulvec_csr_of; try assumption. lia.
  - exact Hdot.
  - rewrite list_lookup_fmap, Hents. reflexivity.
  - exact Hlo.
  - exact Hhi.
  - intros csr' Hn' Hlo' Hhi' Hslice. rewrite <- Hdot.
    eapply csr_matrix_dot_row_frame; try eassumption.
    unfold INT_MIN, INT_MAX in *. lia.
Qed.

Lemma dot_row_is_mulvec_entry_witness :
  exists (ys : list VALUE) (y : VALUE) (lo hi : Z),
    csr_matrix_mulvec example_csr (RArray [RInteger 1; RInteger 2; RInteger 3])
    = Ok (RArray ys) /\
    csr_matrix_dot_row example_csr (RArray [RInteger 1; RInteger 2; RInteger 3])
      (RInteger 1) = Ok y /\
    ys !! Z.to_nat 1 = Some y /\
    load (row_index example_csr) 1 = Ok lo /\
    load (row_index example_csr) (1 + 1) = Ok hi /\
    forall csr' : csr_matrix,
      n csr' = n example_csr ->
      load (row_index csr') 1 = Ok lo ->
      load (row_index csr') (1 + 1) = Ok hi ->
      (forall jj, lo <= jj < hi ->
         load (values csr') jj = load (values example_csr) jj /\
         load (col_index csr') jj = load (col_index example_csr) jj) ->
      csr_matrix_dot_row csr' (RArray [RInteger 1; RInteger 2; RInteger 3])
        (RInteger 1) = Ok y.
Proof.
  apply (dot_row_is_mulvec_entry example_csr
           [RInteger 1; RInteger 2; RInteger 3] 1).
  - exact example_constructed.
  - reflexivity.
  - repeat constructor.
  - split; [vm_compute; discriminate | vm_compute; reflexivity].
Defined.

(** C3.  On the documented example (rows a, b, c in this order, each with one
    entry of weight 1 pointing at c, b and a) construction succeeds whatever
    the object held before, the row offsets are [0,1,2,3], the column indices
    [2,1,0], the values [1,1,1], and multiplying by [1,2,3] gives [3,2,1]. *)
Theorem example_arrays_and_product :
  forall w : world,
    exists w',
      csr_matrix_initialize example_data (RInteger 3) w = (Ok tt, w') /\
      csr_matrix_row_index (self_csr w')
      = Ok (RArray [RInteger 0; RInteger 1; RInteger 2; RInteger 3]) /\
      csr_matrix_col_index (self_csr w')
      = Ok (RArray [RInteger 2; RInteger 1; RInteger 0]) /\
      csr_matrix_values (self_csr w')
      = Ok (RArray [Flonum 1; Flonum 1; Flonum 1]) /\
      csr_matrix_mulvec (self_csr w') (RArray [RInteger 1; RInteger 2; RInteger 3])
      = Ok (RArray [Flonum 3; Flonum 2; Flonum 1]) /\
      csr_matrix_mulvec (self_csr w') (RArray [Flonum 1; Flonum 2; Flonum 3])
      = Ok (RArray [Flonum 3; Flonum 2; Flonum 1]).
Proof.
  intros w. exists (csr_matrix_initialize example_data (RInteger 3) w).2.
  split_and!.
  - vm_compute. reflexivity.
  - vm_compute. reflexivity.
  - vm_compute. reflexivity.
  - vm_compute. reflexivity.
  - vm_compute. reflexivity.
  - vm_compute. reflexivity.
Qed.

(** C4 (as the code has it).  When some entry names an identifier that is
    not a declared key, the constructor never returns normally, so no matrix
    with a wrong column exists; what it raises is an ArgumentError, a
    TypeError or a RangeError, never a KeyError.  The miss itself is a
    TypeError, the integer conversion of the nil the key lookup returns:
    [fill_entry] on such an entry, a hash with a number as weight and room
    for it in the value block, raises it in place of the new state, the
    column index not stored; and so does the constructor, leaving [init] 0,
    when that entry is the first one of the input that is not accepted and
    the sizes fit a C int. *)
Theorem unresolved_id_fails :
  forall (h : list (VALUE * VALUE)) (num_rows : VALUE) (w : world),
    wf_hash h ->
    unresolved_id h ->
    (forall w', csr_matrix_initialize (RHash h) num_rows w <> (Ok tt, w')) /\
    (forall e w',
        csr_matrix_initialize (RHash h) num_rows w = (Raise e, w') ->
        constructor_class e /\ exc_class e <> rb_eKeyError) /\
    (forall (kl : list (VALUE * VALUE)) (idv : VALUE),
        lookup_ok (map fst h) kl ->
        ~ In idv (map fst h) ->
        (rb_hash_aref (RHash kl) idv ≫= NUM2INT)
        = Raise (no_implicit_conversion T_NIL) /\
        exc_class (no_implicit_conversion T_NIL) = rb_eTypeError) /\
    (forall (kl : list (VALUE * VALUE)) (r : list VALUE) (j : nat)
            (e idv wv : VALUE) (st : fill_state),
        lookup_ok (map fst h) kl ->
        r !! j = Some e ->
        TYPE e = T_HASH ->
        rb_hash_aref e id_sym = Ok idv ->
        ~ In idv (map fst h) ->
        rb_hash_aref e weight_sym = Ok wv ->
        numeric wv ->
        0 <= f_nz_idx st < Z.of_nat (length (f_values st)) ->
        fill_entry (RHash kl) (RArray r) (Z.of_nat j) st
        = Raise (no_implicit_conversion T_NIL)) /\
    (forall (rows_pre rows_post : list (list VALUE)) (r_pre r_post : list VALUE)
            (e idv wv : VALUE),
        map snd h
        = RArray <$> (rows_pre ++ (r_pre ++ e :: r_post) :: rows_post) ->
        Forall (Forall (accepted_entry (map fst h))) rows_pre ->
        Forall (accepted_entry (map fst h)) r_pre ->
        TYPE e = T_HASH ->
        rb_hash_aref e id_sym = Ok idv ->
        ~ In idv (map fst h) ->
        rb_hash_aref e weight_sym = Ok wv ->
        numeric wv ->
        Z.of_nat (length h) < INT_MAX ->
        Z.of_nat (length (concat (rows_pre ++ (r_pre ++ e :: r_post)
                                    :: rows_post))) <= INT_MAX ->
        exists w',
          csr_matrix_initialize (RHash h) (RInteger (Z.of_nat (length h))) w
          = (Raise (no_implicit_conversion T_NIL), w') /\
          init (self_csr w') = 0).
Proof.
  intros h num_rows w Hwf (k & r & e & idv & Hk & He & Hty & Hid & Hmiss).
  split_and!.
  - intros w' Hrun.
    apply csr_matrix_initialize_Ok in Hrun as (entss & Hbuilt & _).
    destruct Hbuilt as (h' & kl & rows & [= <-] & Hok & Hrows & Hres & _).
    apply list_elem_of_In, list_elem_of_lookup in Hk as [i Hk].
    pose proof (rb_hash_aref_wf h i k (RArray r) Hwf Hk) as Hrow.
    assert (Hi : (map fst h) !! i = Some k).
    { change (map fst h) with (fst <$> h).
      rewrite list_lookup_fmap, Hk. reflexivity. }
    destruct (Forall2_lookup_l _ _ _ _ _ Hrows Hi) as (r' & Hr' & Hrow').
    cbv beta in Hrow'. rewrite Hrow in Hrow'. injection Hrow' as <-.
    destruct (Forall2_lookup_l _ _ _ _ _ Hres Hr') as (ents & _ & Hents).
    apply list_elem_of_In, list_elem_of_lookup in He as [j Hj].
    destruct (Forall2_lookup_l _ _ _ _ _ Hents Hj) as (wc & _ & Hwc).
    unfold resolve_entry in Hwc.
    apply bind_Ok in Hwc as (u & _ & Hwc).
    apply bind_Ok in Hwc as (key & Hkey & Hwc).
    rewrite Hid in Hkey. injection Hkey as <-.
    apply bind_Ok in Hwc as (wv & _ & Hwc).
    apply bind_Ok in Hwc as (weight & _ & Hwc).
    pose proof (lookup_miss _ _ _ Hok Hmiss) as Hraise.
    apply bind_Ok in Hwc as (cv & Hcv & Hwc).
    apply bind_Ok in Hwc as (c & Hc & _).
    rewrite Hcv, bind_ret, Hc in Hraise. discriminate.
  - intros x w' Hrun.
    pose proof (csr_matrix_initialize_raises _ _ _ _ _ Hrun) as Hcls.
    split; [exact Hcls |].
    destruct Hcls as [H | [H | H]]; rewrite H; discriminate.
  - intros kl idv' Hok Hn. split; [| reflexivity].
    eapply lookup_miss; eassumption.
  - intros kl r0 j e0 idv0 wv st Hok He0 Hty0 Hid0 Hnot Hw Hnum Hroom.
    eapply fill_entry_unresolved; eassumption.
  - intros rows_pre rows_post r_pre r_post e0 idv0 wv Hsnd Hacc Haccr Hty0
      Hid0 Hnot Hw Hnum Hn Hnnz.
    eapply csr_matrix_initialize_unresolved; eassumption.
Qed.

Lemma dangling_wf :
  wf_hash [ (RString "a", RArray [entry (RString "z") (RInteger 1)]) ].
Proof.
  split.
  - repeat constructor.
  - apply NoDup_singleton.
Qed.

Lemma dangling_unresolved :
  unresolved_id [ (RString "a", RArray [entry (RString "z") (RInteger 1)]) ].
Proof.
  exists (RString "a"), [entry (RString "z") (RInteger 1)],
         (entry (RString "z") (RInteger 1)), (RString "z").
  split_and!.
  - left. reflexivity.
  - left. reflexivity.
  - reflexivity.
  - reflexivity.
  - intros [H | []]. discriminate.
Qed.

Lemma unresolved_id_fails_witness :
  (forall w', csr_matrix_initialize dangling_data (RInteger 1) blank_world
              <> (Ok tt, w')) /\
  (forall e w',
      csr_matrix_initialize dangling_data (RInteger 1) blank_world
      = (Raise e, w') ->
      constructor_class e /\ exc_class e <> rb_eKeyError) /\
  (forall (kl : list (VALUE * VALUE)) (idv : VALUE),
      lookup_ok [RString "a"] kl ->
      ~ In idv [RString "a"] ->
      (rb_hash_aref (RHash kl) idv ≫= NUM2INT)
      = Raise (no_implicit_conversion T_NIL) /\
      exc_class (no_implicit_conversion T_NIL) = rb_eTypeError) /\
  fill_entry (RHash [ (RString "a", RInteger 0) ])
    (RArray [entry (RString "z") (RInteger 1)]) 0
    {| f_values := [None]; f_col_index := [None];
       f_row_index := [Some 0; None]; f_nz_idx := 0 |}
  = Raise (no_implicit_conversion T_NIL) /\
  (exists w',
      csr_matrix_initialize dangling_data (RInteger 1) blank_world
      = (Raise (no_implicit_conversion T_NIL), w') /\
      init (self_csr w') = 0).
Proof.
  destruct (unresolved_id_fails
              [ (RString "a", RArray [entry (RString "z") (RInteger 1)]) ]
              (RInteger 1) blank_world dangling_wf dangling_unresolved)
    as (Hnever & Hclass & Hmiss & Hentry & Hfirst).
  split_and!.
  - exact Hnever.
  - exact Hclass.
  - exact Hmiss.
  - apply (Hentry [ (RString "a", RInteger 0) ]
             [entry (RString "z") (RInteger 1)] O
             (entry (RString "z") (RInteger 1)) (RString "z") (RInteger 1)).
    + intros kv [<- | []]. exists O. split; reflexivity.
    + reflexivity.
    + reflexivity.
    + reflexivity.
    + intros [H | []]. discriminate.
    + reflexivity.
    + exact I.
    + simpl. lia.
  - apply (Hfirst [] [] [] [] (entry (RString "z") (RInteger 1))
             (RString "z") (RInteger 1)).
    + reflexivity.
    + constructor.
    + constructor.
    + reflexivity.
    + reflexivity.
    + intros [H | []]. discriminate.
    + reflexivity.
    + exact I.
    + vm_compute. reflexivity.
    + vm_compute. discriminate.
Defined.

(** C4 fails as stated: on a row whose entry points at the undeclared
    identifier z the constructor raises the TypeError of the integer
    conversion of nil, whose class is not KeyError. *)
Lemma unresolved_id_raises_TypeError :
  exists w',
    csr_matrix_initialize dangling_data (RInteger 1) blank_world
    = (Raise (no_implicit_conversion T_NIL), w') /\
    exc_class (no_implicit_conversion T_NIL) = rb_eTypeError /\
    rb_eTypeError <> rb_eKeyError.
Proof.
  exists (csr_matrix_initialize dangling_data (RInteger 1) blank_world).2.
  split_and!.
  - vm_compute. reflexivity.
  - reflexivity.
  - discriminate.
Qed.




(** C6 (as the code has it).  [mulvec] on an array whose length is not [n]
    raises the dimension mismatch, and so does [dot_row] for a Fixnum row,
    before it looks at the row.  [dot_row] on an array of length [n] and a row
    that fits a C int but lies outside [0, n) raises the index error; a Fixnum
    row that does not fit a C int raises the RangeError of the integer
    conversion instead, and a Bignum row the TypeError of the type check.
    Both the dimension mismatch and the index error are ArgumentErrors; they
    differ by their message only. *)
Theorem vector_and_row_guards :
  (forall (csr : csr_matrix) (vec : list VALUE),
      Z.of_nat (length vec) <> n csr ->
      csr_matrix_mulvec csr (RArray vec) = Raise dimension_mismatch) /\
  (forall (csr : csr_matrix) (vec : list VALUE) (r : Z),
      FIXNUM_MIN <= r <= FIXNUM_MAX ->
      Z.of_nat (length vec) <> n csr ->
      csr_matrix_dot_row csr (RArray vec) (RInteger r)
      = Raise dimension_mismatch) /\
  (forall (csr : csr_matrix) (vec : list VALUE) (r : Z),
      Z.of_nat (length vec) = n csr ->
      INT_MIN <= r <= INT_MAX ->
      r < 0 \/ n csr <= r ->
      csr_matrix_dot_row csr (RArray vec) (RInteger r) = Raise index_error) /\
  (forall (csr : csr_matrix) (vec : list VALUE) (r : Z),
      Z.of_nat (length vec) = n csr ->
      FIXNUM_MIN <= r <= FIXNUM_MAX ->
      r < INT_MIN \/ INT_MAX < r ->
      csr_matrix_dot_row csr (RArray vec) (RInteger r)
      = Raise (integer_out_of_int_range r)) /\
  (forall (csr : csr_matrix) (vec : list VALUE) (r : Z),
      r < FIXNUM_MIN \/ FIXNUM_MAX < r ->
      csr_matrix_dot_row csr (RArray vec) (RInteger r)
      = Raise (wrong_argument_type T_BIGNUM T_FIXNUM)) /\
  index_error <> dimension_mismatch /\
  exc_class index_error = rb_eArgError /\
  exc_class dimension_mismatch = rb_eArgError.
Proof.
  split_and!.
  - intros csr vec Hlen. unfold csr_matrix_mulvec.
    change (Check_Type (RArray vec) T_ARRAY) with (Ok tt). rewrite bind_ret.
    change (RARRAY_LEN (RArray vec)) with (Ok (Z.of_nat (length vec))).
    rewrite bind_ret. apply Z.eqb_neq in Hlen. rewrite Hlen. reflexivity.
  - intros csr vec r Hfix Hlen. unfold csr_matrix_dot_row.
    change (Check_Type (RArray vec) T_ARRAY) with (Ok tt). rewrite bind_ret.
    rewrite Check_Type_fixnum by (apply FIXABLE_spec; exact Hfix).
    rewrite bind_ret.
    change (RARRAY_LEN (RArray vec)) with (Ok (Z.of_nat (length vec))).
    rewrite bind_ret. apply Z.eqb_neq in Hlen. rewrite Hlen. reflexivity.
  - intros csr vec r Hlen Hfit Hout. unfold csr_matrix_dot_row.
    change (Check_Type (RArray vec) T_ARRAY) with (Ok tt). rewrite bind_ret.
    rewrite Check_Type_fixnum by (apply FIXABLE_int; exact Hfit).
    rewrite bind_ret.
    change (RARRAY_LEN (RArray vec)) with (Ok (Z.of_nat (length vec))).
    rewrite bind_ret, Hlen, Z.eqb_refl. cbn [negb]. rewrite bind_ret.
    unfold NUM2INT. apply fits_int_spec in Hfit. rewrite Hfit, bind_ret.
    replace ((0 <=? r) && (r <? n csr)) with false; [reflexivity |].
    symmetry. apply andb_false_iff.
    destruct Hout as [H | H]; [left; apply Z.leb_gt | right; apply Z.ltb_ge]; lia.
  - intros csr vec r Hlen Hfix Hout. unfold csr_matrix_dot_row.
    change (Check_Type (RArray vec) T_ARRAY) with (Ok tt). rewrite bind_ret.
    rewrite Check_Type_fixnum by (apply FIXABLE_spec; exact Hfix).
    rewrite bind_ret.
    change (RARRAY_LEN (RArray vec)) with (Ok (Z.of_nat (length vec))).
    rewrite bind_ret, Hlen, Z.eqb_refl. cbn [negb]. rewrite bind_ret.
    unfold NUM2INT. replace (fits_int r) with false; [reflexivity |].
    symmetry. apply not_true_is_false. rewrite fits_int_spec. lia.
  - intros csr vec r Hbig. unfold csr_matrix_dot_row.
    change (Check_Type (RArray vec) T_ARRAY) with (Ok tt). rewrite bind_ret.
    unfold Check_Type. cbn [TYPE].
    replace (FIXABLE r) with false; [reflexivity |].
    symmetry. apply not_true_is_false. rewrite FIXABLE_spec. lia.
  - discriminate.
  - reflexivity.
  - reflexivity.
Qed.

Lemma vector_and_row_guards_witness :
  csr_matrix_mulvec example_csr (RArray [RInteger 1]) = Raise dimension_mismatch /\
  csr_matrix_dot_row example_csr (RArray [RInteger 1]) (RInteger 0)
  = Raise dimension_mismatch /\
  csr_matrix_dot_row example_csr (RArray [RInteger 1; RInteger 2; RInteger 3])
    (RInteger 3) = Raise index_error /\
  csr_matrix_dot_row example_csr (RArray [RInteger 1; RInteger 2; RInteger 3])
    (RInteger (-1)) = Raise index_error /\
  csr_matrix_dot_row example_csr (RArray [RInteger 1; RInteger 2; RInteger 3])
    (RInteger (-2147483649)) = Raise (integer_out_of_int_range (-2147483649)) /\
  csr_matrix_dot_row example_csr (RArray [RInteger 1; RInteger 2; RInteger 3])
    (RInteger 4611686018427387904)
  = Raise (wrong_argument_type T_BIGNUM T_FIXNUM).
Proof.
  destruct vector_and_row_guards as (Hmul & Hdot & Hidx & Hrange & Hbig & _).
  split_and!.
  - apply Hmul. vm_compute. discriminate.
  - apply Hdot; vm_compute; [split |]; discriminate.
  - apply Hidx.
    + reflexivity.
    + vm_compute. split; discriminate.
    + right. vm_compute. discriminate.
  - apply Hidx.
    + reflexivity.
    + vm_compute. split; discriminate.
    + left. reflexivity.
  - apply Hrange.
    + reflexivity.
    + vm_compute. split; discriminate.
    + left. reflexivity.
  - apply Hbig. right. reflexivity.
Defined.

(** C6 fails as stated: the row 2^31 is not below 0 and not below [n], and
    [dot_row] raises a RangeError for it, not the index error; and the index
    error raised for the row 3 has the class of the dimension mismatch, which
    is not IndexError. *)
Lemma row_guard_classes :
  csr_matrix_dot_row example_csr (RArray [RInteger 1; RInteger 2; RInteger 3])
    (RInteger 2147483648)
  = Raise (integer_out_of_int_range 2147483648) /\
  exc_class (integer_out_of_int_range 2147483648) = rb_eRangeError /\
  csr_matrix_dot_row example_csr (RArray [RInteger 1; RInteger 2; RInteger 3])
    (RInteger 3)
  = Raise index_error /\
  csr_matrix_mulvec example_csr (RArray [RInteger 1; RInteger 2])
  = Raise dimension_mismatch /\
  exc_class index_error = exc_class dimension_mismatch /\
  exc_class index_error <> rb_eIndexError.
Proof.
  split_and!.
  - vm_compute. reflexivity.
  - reflexivity.
  - vm_compute. reflexivity.
  - vm_compute. reflexivity.
  - reflexivity.
  - discriminate.
Qed.

(** C7.  After a successful construction and any sequence of method calls,
    the row offsets returned have length [n + 1], do not decrease, start at 0
    and end at [nnz]; the values and the column indices returned both have
    length [nnz]. *)
Theorem shape_invariant :
  forall (csr : csr_matrix) (ms : list method),
    constructed csr ->
    exists (ro : list Z) (vs cs : list VALUE),
      csr_matrix_row_index (calls csr ms) = Ok (RArray (INT2NUM <$> ro)) /\
      csr_matrix_values (calls csr ms) = Ok (RArray vs) /\
      csr_matrix_col_index (calls csr ms) = Ok (RArray cs) /\
      Z.of_nat (length ro) = n (calls csr ms) + 1 /\
      non_decreasing ro /\
      head ro = Some 0 /\
      list.last ro = Some (nnz (calls csr ms)) /\
      Z.of_nat (length vs) = nnz (calls csr ms) /\
      Z.of_nat (length cs) = nnz (calls csr ms).
Proof.
  intros csr ms Hc. rewrite calls_same.
  apply constructed_csr_of in Hc as (entss & -> & _ & Hn & Hnnz).
  exists (offsets entss (Datatypes.S (length entss))),
         (DBL2NUM <$> (concat entss).*1), (INT2NUM <$> (concat entss).*2).
  split_and!.
  - apply csr_matrix_row_index_csr_of. exact Hn.
  - apply csr_matrix_values_csr_of. exact Hnnz.
  - apply csr_matrix_col_index_csr_of. exact Hnnz.
  - rewrite length_offsets. cbn [n csr_of]. lia.
  - intros i a b Ha Hb.
    pose proof (lookup_lt_Some _ _ _ Hb) as Hlt. rewrite length_offsets in Hlt.
    rewrite offsets_lookup in Ha by lia. rewrite offsets_lookup in Hb by lia.
    injection Ha as <-. injection Hb as <-.
    destruct (lookup_lt_is_Some_2 entss i) as [ents Hents]; [lia |].
    rewrite (offsets_step _ _ _ Hents). lia.
  - unfold offsets. reflexivity.
  - rewrite offsets_S, last_snoc. reflexivity.
  - rewrite !length_fmap. reflexivity.
  - rewrite !length_fmap. reflexivity.
Qed.

Lemma shape_invariant_witness :
  exists (ro : list Z) (vs cs : list VALUE),
    csr_matrix_row_index
      (calls example_csr [m_mulvec (RArray []); m_coordinates; m_values])
    = Ok (RArray (INT2NUM <$> ro)) /\
    csr_matrix_values
      (calls example_csr [m_mulvec (RArray []); m_coordinates; m_values])
    = Ok (RArray vs) /\
    csr_matrix_col_index
      (calls example_csr [m_mulvec (RArray []); m_coordinates; m_values])
    = Ok (RArray cs) /\
    Z.of_nat (length ro)
    = n (calls example_csr [m_mulvec (RArray []); m_coordinates; m_values]) + 1 /\
    non_decreasing ro /\
    head ro = Some 0 /\
    list.last ro
    = Some (nnz (calls example_csr
                   [m_mulvec (RArray []); m_coordinates; m_values])) /\
    Z.of_nat (length vs)
    = nnz (calls example_csr [m_mulvec (RArray []); m_coordinates; m_values]) /\
    Z.of_nat (length cs)
    = nnz (calls example_csr [m_mulvec (RArray []); m_coordinates; m_values]).
Proof.
  apply (shape_invariant example_csr
           [m_mulvec (RArray []); m_coordinates; m_values]).
  exact example_constructed.
Defined.

(** C8.  On a constructed matrix every cell [k] of [col_index] with
    [0 <= k < nnz] holds a column [c] with [0 <= c < n], and the array the
    accessor returns holds exactly such columns. *)
Theorem col_index_in_range :
  forall csr : csr_matrix,
    constructed csr ->
    (forall k : Z, 0 <= k < nnz csr ->
       exists c : Z, load (col_index csr) k = Ok c /\ 0 <= c < n csr) /\
    exists cs : list Z,
      csr_matrix_col_index csr = Ok (RArray (INT2NUM <$> cs)) /\
      Z.of_nat (length cs) = nnz csr /\
      Forall (fun c => 0 <= c < n csr) cs.
Proof.
  intros csr Hc.
  apply constructed_csr_of in Hc as (entss & -> & Hcols & _ & Hnnz).
  assert (Hall : Forall (fun c => 0 <= c < Z.of_nat (length entss))
                   (concat entss).*2).
  { apply Forall_fmap, Forall_concat. exact Hcols. }
  split.
  - intros k Hk. cbn [nnz col_index n csr_of] in *.
    destruct (lookup_lt_is_Some_2 (concat entss).*2 (Z.to_nat k)) as [c Hcol];
      [rewrite length_fmap; lia |].
    exists c. split.
    + apply load_Some. split; [lia | exact Hcol].
    + exact (proj1 (Forall_lookup _ _) Hall _ _ Hcol).
  - exists (concat entss).*2. split_and!.
    + apply csr_matrix_col_index_csr_of. exact Hnnz.
    + rewrite length_fmap. reflexivity.
    + exact Hall.
Qed.

Lemma col_index_in_range_witness :
  (forall k : Z, 0 <= k < nnz example_csr ->
     exists c : Z, load (col_index example_csr) k = Ok c /\
                   0 <= c < n example_csr) /\
  exists cs : list Z,
    csr_matrix_col_index example_csr = Ok (RArray (INT2NUM <$> cs)) /\
    Z.of_nat (length cs) = nnz example_csr /\
    Forall (fun c => 0 <= c < n example_csr) cs.
Proof. apply (col_index_in_range example_csr). exact example_constructed. Defined.

(** C9.  [csr_matrix_coordinates] reads [row_index[1]] before its loop
    whatever the matrix holds: on a block of at most one cell the call is an
    out-of-bounds read.  On a constructed matrix with [n >= 1] every access is
    within bounds and initialised, so the call returns a hash.  Constructing
    from the empty hash with [num_rows = 0] succeeds, leaves a row offset
    block of one cell, and the read is past its end. *)
Theorem coordinates_bounds :
  (forall csr : csr_matrix,
      (length (row_index csr) <= 1)%nat ->
      csr_matrix_coordinates csr = Undefined OutOfBounds) /\
  (forall csr : csr_matrix,
      constructed csr -> 1 <= n csr ->
      exists h, csr_matrix_coordinates csr = Ok (RHash h)) /\
  (forall w : world,
      exists w',
        csr_matrix_initialize (RHash []) (RInteger 0) w = (Ok tt, w') /\
        n (self_csr w') = 0 /\
        row_index (self_csr w') = [Some 0] /\
        csr_matrix_coordinates (self_csr w') = Undefined OutOfBounds).
Proof.
  split_and!.
  - exact csr_matrix_coordinates_short.
  - intros csr Hc Hn. apply constructed_csr_of in Hc as (entss & -> & _).
    apply csr_matrix_coordinates_total. cbn [n csr_of] in Hn. lia.
  - intros w. exists (csr_matrix_initialize (RHash []) (RInteger 0) w).2.
    split_and!.
    + vm_compute. reflexivity.
    + vm_compute. reflexivity.
    + vm_compute. reflexivity.
    + vm_compute. reflexivity.
Qed.

Lemma coordinates_bounds_witness :
  (exists h, csr_matrix_coordinates example_csr = Ok (RHash h)) /\
  csr_matrix_coordinates blank_csr = Undefined OutOfBounds.
Proof.
  split.
  - apply (proj1 (proj2 coordinates_bounds) example_csr).
    + exact example_constructed.
    + vm_compute. discriminate.
  - apply (proj1 coordinates_bounds blank_csr). vm_compute. lia.
Defined.

(** C10.  After a successful construction from a hash, [nnz] is the sum of
    the lengths of the arrays the hash holds; every entry of every row,
    whatever its weight, has its pair in the matrix at its position; the
    values returned are the weights of all entries in order; and [dot_row] and
    [mulvec] accumulate over every pair of the row. *)
Theorem nnz_counts_every_entry :
  forall (h : list (VALUE * VALUE)) (num_rows : VALUE) (w w' : world),
    wf_hash h ->
    csr_matrix_initialize (RHash h) num_rows w = (Ok tt, w') ->
    exists (rows : list (list VALUE)) (entss : list (list (float * Z))),
      map snd h = RArray <$> rows /\
      nnz (self_csr w') = Z.of_nat (sum_list (length <$> rows)) /\
      Forall2 (Forall2 (fun e wc => weight_of e wc.1)) rows entss /\
      csr_matrix_values (self_csr w')
      = Ok (RArray (DBL2NUM <$> (concat entss).*1)) /\
      forall (vec : list VALUE) (i : nat) (ents : list (float * Z)),
        length vec = length h -> Forall numeric vec ->
        entss !! i = Some ents ->
        csr_matrix_dot_row (self_csr w') (RArray vec) (RInteger (Z.of_nat i))
        = Ok (DBL2NUM (row_dot vec ents)) /\
        exists ys,
          csr_matrix_mulvec (self_csr w') (RArray vec) = Ok (RArray ys) /\
          ys !! i = Some (DBL2NUM (row_dot vec ents)).
Proof.
  intros h num_rows w w' Hwf Hrun.
  apply csr_matrix_initialize_Ok in Hrun as (entss & Hbuilt & _ & -> & _).
  pose proof (built_cols_in_range _ _ Hbuilt) as Hcols.
  destruct Hbuilt as (h' & kl & rows & [= <-] & Hok & Hrows & Hres & Hnnz & Hn).
  assert (Hlen : length entss = length h).
  { pose proof Hrows as H1. pose proof Hres as H2.
    apply Forall2_length in H1, H2. rewrite length_map in H1. lia. }
  exists rows, entss. split_and!.
  - apply rows_of_wf; assumption.
  - cbn [nnz csr_of]. f_equal. rewrite <- length_concat.
    clear -Hres. induction Hres as [|r ents rows entss Hr _ IH]; [reflexivity |].
    simpl. rewrite !length_app, IH. f_equal. apply Forall2_length in Hr. lia.
  - eapply Forall2_impl; [| exact Hres]. intros r ents Hr.
    eapply Forall2_impl; [| exact Hr]. intros e wc He.
    exact (proj1 (resolve_entry_triple _ _ _ _ Hok He)).
  - apply csr_matrix_values_csr_of. exact Hnnz.
  - intros vec i ents Hvec Hnum Hents. split.
    + apply csr_matrix_dot_row_csr_of; try assumption; lia.
    + eexists. split.
      * apply csr_matrix_mulvec_csr_of; try assumption; lia.
      * rewrite list_lookup_fmap, Hents. reflexivity.
Qed.

Lemma zero_weight_wf : wf_hash zero_weight_rows.
Proof.
  split.
  - repeat constructor.
  - apply list.NoDup_cons. split; [| apply NoDup_singleton].
    intros H. apply list_elem_of_In in H. destruct H as [H | []]. discriminate.
Qed.

Lemma nnz_counts_every_entry_witness :
  exists (rows : list (list VALUE)) (entss : list (list (float * Z))),
    map snd zero_weight_rows = RArray <$> rows /\
    nnz (self_csr (csr_matrix_initialize zero_weight_data (RInteger 2)
                     blank_world).2)
    = Z.of_nat (sum_list (length <$> rows)) /\
    Forall2 (Forall2 (fun e wc => weight_of e wc.1)) rows entss /\
    csr_matrix_values
      (self_csr (csr_matrix_initialize zero_weight_data (RInteger 2)
                   blank_world).2)
    = Ok (RArray (DBL2NUM <$> (concat entss).*1)) /\
    forall (vec : list VALUE) (i : nat) (ents : list (float * Z)),
      length vec = length zero_weight_rows -> Forall numeric vec ->
      entss !! i = Some ents ->
      csr_matrix_dot_row
        (self_csr (csr_matrix_initialize zero_weight_data (RInteger 2)
                     blank_world).2)
        (RArray vec) (RInteger (Z.of_nat i))
      = Ok (DBL2NUM (row_dot vec ents)) /\
      exists ys,
        csr_matrix_mulvec
          (self_csr (csr_matrix_initialize zero_weight_data (RInteger 2)
                       blank_world).2)
          (RArray vec) = Ok (RArray ys) /\
        ys !! i = Some (DBL2NUM (row_dot vec ents)).
Proof.
  apply (nnz_counts_every_entry zero_weight_rows (RInteger 2) blank_world).
  - exact zero_weight_wf.
  - vm_compute. reflexivity.
Defined.

(** The entry of weight 0.0 is stored and counted. *)
Example zero_weight_stored :
  nnz (self_csr (csr_matrix_initialize zero_weight_data (RInteger 2)
                   blank_world).2) = 2 /\
  csr_matrix_values
    (self_csr (csr_matrix_initialize zero_weight_data (RInteger 2) blank_world).2)
  = Ok (RArray [Flonum 0; Flonum 2]) /\
  csr_matrix_dot_row
    (self_csr (csr_matrix_initialize zero_weight_data (RInteger 2) blank_world).2)
    (RArray [Flonum infinity; Flonum 1]) (RInteger 0)
  = Ok (Flonum nan).
Proof. split_and!; vm_compute; reflexivity. Qed.

(** * Further properties of the code *)

(** ** Construction of accepted input succeeds *)

(** The pairs a successful construction stores are the entries of the rows:
    each with its weight and the position of its identifier. *)
Lemma built_entry_triples (h : list (VALUE * VALUE))
    (entss : list (list (float * Z))) :
  wf_hash h ->
  built (RHash h) entss ->
  exists rows : list (list VALUE),
    map snd h = RArray <$> rows /\
    Forall2 (Forall2 (entry_triple (map fst h))) rows entss.
Proof.
  intros Hwf (h' & kl & rows & [= <-] & Hok & Hrows & Hres & _).
  exists rows. split.
  - exact (proj1 (rows_of_wf h rows Hwf) Hrows).
  - eapply Forall2_impl; [| exact Hres]. intros r ents Hr.
    eapply Forall2_impl; [| exact Hr]. intros e wc He.
    eapply resolve_entry_triple; eassumption.
Qed.

Lemma fmap_RArray_inj (rows rows' : list (list VALUE)) :
  RArray <$> rows = RArray <$> rows' -> rows = rows'.
Proof.
  revert rows'. induction rows as [|r rows IH]; intros [|r' rows'] H;
    try discriminate; [reflexivity |].
  injection H as -> H. f_equal. apply IH. exact H.
Qed.

(** On well-formed input the constructor returns. *)
Lemma csr_matrix_initialize_returns (h : list (VALUE * VALUE))
    (rows : list (list VALUE)) (w : world) :
  wf_hash h ->
  map snd h = RArray <$> rows ->
  Forall (Forall (accepted_entry (map fst h))) rows ->
  Z.of_nat (length h) < INT_MAX ->
  Z.of_nat (length (concat rows)) <= INT_MAX ->
  exists w',
    csr_matrix_initialize (RHash h) (RInteger (Z.of_nat (length h))) w
    = (Ok tt, w').
Proof.
  intros Hwf Hsnd Hacc Hn Hnnz.
  destruct (mat_to_sparse_total h rows (cleared w) Hwf Hsnd Hacc Hn Hnnz)
    as (w1 & Hmat).
  eexists. rewrite csr_matrix_initialize_unfold
    by (unfold INT_MIN, INT_MAX in *; lia).
  rewrite Z.eqb_refl. cbn [negb].
  unfold mbind at 1, M_bind at 1, lift at 1.
  unfold mbind at 1, M_bind at 1. rewrite Hmat.
  apply rb_iv_set_tail.
Qed.

(** X1.  The constructor succeeds on every well-formed input: a hash with
    fewer than [INT_MAX] distinct keys whose rows are arrays of accepted
    entries, at most [INT_MAX] entries in all, given with its number of
    keys.  It leaves the matrix whose rows hold, for every entry in order,
    the weight as a double and the position of the entry's identifier among
    the keys. *)
Theorem constructor_succeeds :
  forall (h : list (VALUE * VALUE)) (rows : list (list VALUE)) (w : world),
    wf_hash h ->
    map snd h = RArray <$> rows ->
    Forall (Forall (accepted_entry (map fst h))) rows ->
    Z.of_nat (length h) < INT_MAX ->
    Z.of_nat (length (concat rows)) <= INT_MAX ->
    exists (w' : world) (entss : list (list (float * Z))),
      csr_matrix_initialize (RHash h) (RInteger (Z.of_nat (length h))) w
      = (Ok tt, w') /\
      self_csr w' = csr_of entss /\
      Forall2 (Forall2 (entry_triple (map fst h))) rows entss.
Proof.
  intros h rows w Hwf Hsnd Hacc Hn Hnnz.
  destruct (csr_matrix_initialize_returns h rows w Hwf Hsnd Hacc Hn Hnnz)
    as (w' & Hrun).
  exists w'. pose proof Hrun as Hok.
  apply csr_matrix_initialize_Ok in Hok as (entss & Hbuilt & _ & Hcsr & _).
  destruct (built_entry_triples h entss Hwf Hbuilt) as (rows' & Hsnd' & Htri).
  rewrite Hsnd in Hsnd'. apply fmap_RArray_inj in Hsnd'. subst rows'.
  exists entss. split_and!; assumption.
Qed.

Lemma zero_weight_accepted :
  Forall (Forall (accepted_entry (map fst zero_weight_rows)))
    [ [entry (RString "a") (Flonum 0); entry (RString "b") (RInteger 2)]; [] ].
Proof.
  repeat constructor.
  - exists (RString "a"), (Flonum 0).
    split_and!;
      first [reflexivity | exact I | left; reflexivity].
  - exists (RString "b"), (RInteger 2).
    split_and!;
      first [reflexivity | exact I | right; left; reflexivity].
Qed.

Lemma constructor_succeeds_witness :
  exists (w' : world) (entss : list (list (float * Z))),
    csr_matrix_initialize (RHash zero_weight_rows)
      (RInteger (Z.of_nat (length zero_weight_rows))) blank_world
    = (Ok tt, w') /\
    self_csr w' = csr_of entss /\
    Forall2 (Forall2 (entry_triple (map fst zero_weight_rows)))
      [ [entry (RString "a") (Flonum 0); entry (RString "b") (RInteger 2)]; [] ]
      entss.
Proof.
  apply (constructor_succeeds zero_weight_rows
           [ [entry (RString "a") (Flonum 0); entry (RString "b") (RInteger 2)];
             [] ] blank_world).
  - exact zero_weight_wf.
  - reflexivity.
  - exact zero_weight_accepted.
  - vm_compute. reflexivity.
  - vm_compute. discriminate.
Defined.

(** ** Construction succeeds on accepted input only *)

(** An entry that resolves through a lookup of the declared keys is an
    accepted entry. *)
Lemma resolve_entry_accepted (keys : list VALUE) (kl : list (VALUE * VALUE))
    (e : VALUE) (wc : float * Z) :
  lookup_ok keys kl ->
  resolve_entry (RHash kl) e = Ok wc ->
  accepted_entry keys e.
Proof.
  intros Hok Hres.
  destruct (resolve_entry_col keys kl e wc Hok Hres) as (idv & Hid & H0 & Hkey).
  unfold resolve_entry in Hres.
  apply bind_Ok in Hres as (u & Hu & Hres).
  apply bind_Ok in Hres as (key & _ & Hres).
  apply bind_Ok in Hres as (wv & Hw & Hres).
  apply bind_Ok in Hres as (weight & Hweight & _).
  exists idv, wv. split_and!.
  - apply Check_Type_Ok in Hu. exact Hu.
  - exact Hid.
  - apply list_elem_of_In. eapply list_elem_of_lookup_2. exact Hkey.
  - exact Hw.
  - destruct wv; try discriminate; exact I.
Qed.

(** X2.  The constructor succeeds on nothing else: when it returns normally
    on a hash, [num_rows] is the Integer number of keys, which is below
    [INT_MAX], and every row is an array of accepted entries (hashes with a
    declared key under [:id] and a number under [:weight]), at most
    [INT_MAX] in all. *)
Theorem constructor_accepts_only_accepted_entries :
  forall (h : list (VALUE * VALUE)) (num_rows : VALUE) (w w' : world),
    wf_hash h ->
    csr_matrix_initialize (RHash h) num_rows w = (Ok tt, w') ->
    num_rows = RInteger (Z.of_nat (length h)) /\
    Z.of_nat (length h) < INT_MAX /\
    exists rows : list (list VALUE),
      map snd h = RArray <$> rows /\
      Forall (Forall (accepted_entry (map fst h))) rows /\
      Z.of_nat (length (concat rows)) <= INT_MAX.
Proof.
  intros h num_rows w w' Hwf Hrun.
  apply csr_matrix_initialize_Ok in Hrun as (entss & Hbuilt & -> & _ & _).
  destruct Hbuilt as (h' & kl & rows & [= <-] & Hok & Hrows & Hres & Hnnz & Hn).
  pose proof Hrows as Hlen. apply Forall2_length in Hlen.
  pose proof Hres as Hlen'. apply Forall2_length in Hlen'.
  rewrite length_map in Hlen.
  split_and!; [f_equal; lia | exact Hn |].
  exists rows. split_and!.
  - exact (proj1 (rows_of_wf h rows Hwf) Hrows).
  - clear -Hok Hres. induction Hres as [|r ents rows entss Hr _ IH];
      constructor; [| exact IH].
    clear IH. induction Hr as [|e wc r ents He _ IH]; constructor; [| exact IH].
    eapply resolve_entry_accepted; eassumption.
  - assert (Hcnt : length (concat entss) = length (concat rows)).
    { clear -Hres. induction Hres as [|r0 e0 rs es Hr _ IH]; [reflexivity |].
      simpl. rewrite !length_app, IH. f_equal. apply Forall2_length in Hr. lia. }
    lia.
Qed.

Lemma constructor_accepts_only_accepted_entries_witness :
  RInteger 2 = RInteger (Z.of_nat (length zero_weight_rows)) /\
  Z.of_nat (length zero_weight_rows) < INT_MAX /\
  exists rows : list (list VALUE),
    map snd zero_weight_rows = RArray <$> rows /\
    Forall (Forall (accepted_entry (map fst zero_weight_rows))) rows /\
    Z.of_nat (length (concat rows)) <= INT_MAX.
Proof.
  apply (constructor_accepts_only_accepted_entries zero_weight_rows
           (RInteger 2) blank_world
           (csr_matrix_initialize zero_weight_data (RInteger 2) blank_world).2).
  - exact zero_weight_wf.
  - vm_compute. reflexivity.
Defined.

(** ** The object after the constructor *)

Lemma raise_keeps_bind {A B : Type} (m : M A) (k : A -> M B) :
  raise_keeps m -> return_keeps m -> (forall a, raise_keeps (k a)) ->
  raise_keeps (m ≫= k).
Proof.
  intros Hr Ho Hk w e w' H.
  apply M_bind_Raise in H as [H | (a & w1 & Hm & H)].
  - eapply Hr. exact H.
  - destruct (Ho _ _ _ Hm) as [Hc Hi]. destruct (Hk a _ _ _ H) as [Hc' Hi'].
    split; congruence.
Qed.

Lemma raise_keeps_lift {A : Type} (o : outcome A) : raise_keeps (lift o).
Proof. intros w e w' [= _ <-]. split; reflexivity. Qed.

Lemma return_keeps_lift {A : Type} (o : outcome A) : return_keeps (lift o).
Proof. intros w a w' [= _ <-]. split; reflexivity. Qed.

Lemma raise_keeps_malloc (bytes : Z) : raise_keeps (malloc bytes).
Proof. intros w e w' [=]. Qed.

Lemma return_keeps_malloc (bytes : Z) : return_keeps (malloc bytes).
Proof. intros w a w' [= _ <-]. split; reflexivity. Qed.

Lemma raise_keeps_set_csr (c : csr_matrix) : raise_keeps (set_csr c).
Proof. intros w e w' [=]. Qed.

(** [mat_to_sparse] assigns the fields of the struct in its last statements
    only: when it raises, the struct is untouched. *)
Lemma mat_to_sparse_raise_keeps (data keys num_rows : VALUE) :
  raise_keeps (mat_to_sparse data keys num_rows).
Proof.
  unfold mat_to_sparse.
  apply raise_keeps_bind;
    [apply raise_keeps_lift | apply return_keeps_lift | intros n0].
  apply raise_keeps_bind;
    [apply raise_keeps_lift | apply return_keeps_lift | intros [kl cnt]].
  apply raise_keeps_bind;
    [apply raise_keeps_malloc | apply return_keeps_malloc | intros _].
  apply raise_keeps_bind;
    [apply raise_keeps_malloc | apply return_keeps_malloc | intros _].
  apply raise_keeps_bind;
    [apply raise_keeps_lift | apply return_keeps_lift | intros n1].
  apply raise_keeps_bind;
    [apply raise_keeps_malloc | apply return_keeps_malloc | intros _].
  apply raise_keeps_bind;
    [apply raise_keeps_lift | apply return_keeps_lift | intros st].
  apply raise_keeps_bind;
    [apply raise_keeps_lift | apply return_keeps_lift | intros ri].
  apply raise_keeps_set_csr.
Qed.

Lemma csr_matrix_initialize_cleared (data num_rows : VALUE) (w : world) :
  csr_matrix_initialize data num_rows w
  = (_ ← lift (Check_Type data T_HASH);
     _ ← lift (Check_Type num_rows T_FIXNUM);
     keys ← lift (rb_hash_keys data);
     rows ← lift (NUM2INT num_rows);
     len ← lift (RARRAY_LEN keys);
     len ← lift (int_of_long len);
     _ ← lift (if negb (rows =? len)
               then Raise (rb_raise rb_eArgError
                             "n_rows != keys.size, check your dimensions")
               else Ok tt);
     _ ← mat_to_sparse data keys num_rows;
     _ ← rb_iv_set "@n" num_rows;
     csr ← get_csr;
     rb_iv_set "@nnz" (INT2NUM (nnz csr))) (cleared w).
Proof. reflexivity. Qed.

Lemma csr_matrix_initialize_raise (data num_rows : VALUE) (w w' : world)
    (e : exception) :
  csr_matrix_initialize data num_rows w = (Raise e, w') ->
  same_object (cleared w) w'.
Proof.
  rewrite csr_matrix_initialize_cleared. generalize (cleared w). clear w.
  intros w H. revert w e w' H.
  change (raise_keeps
    (_ ← lift (Check_Type data T_HASH);
     _ ← lift (Check_Type num_rows T_FIXNUM);
     keys ← lift (rb_hash_keys data);
     rows ← lift (NUM2INT num_rows);
     len ← lift (RARRAY_LEN keys);
     len ← lift (int_of_long len);
     _ ← lift (if negb (rows =? len)
               then Raise (rb_raise rb_eArgError
                             "n_rows != keys.size, check your dimensions")
               else Ok tt);
     _ ← mat_to_sparse data keys num_rows;
     _ ← rb_iv_set "@n" num_rows;
     csr ← get_csr;
     rb_iv_set "@nnz" (INT2NUM (nnz csr)))).
  do 7 (apply raise_keeps_bind;
          [apply raise_keeps_lift | apply return_keeps_lift | intros ?]).
  intros w e w' H.
  apply M_bind_Raise in H as [H | (u & w1 & _ & H)].
  - eapply mat_to_sparse_raise_keeps. exact H.
  - rewrite rb_iv_set_tail in H. discriminate.
Qed.

(** [mat_to_sparse] never touches the instance variables. *)
Lemma mat_to_sparse_ivars (data keys num_rows : VALUE) (w : world) :
  self_ivars (mat_to_sparse data keys num_rows w).2 = self_ivars w.
Proof.
  unfold mat_to_sparse, mbind, M_bind, lift, malloc, set_csr.
  destruct (NUM2INT num_rows) as [n0|e|f]; [| reflexivity..].
  destruct (for_range 0 n0 _ _) as [[kl cnt]|e|f]; [| reflexivity..].
  cbn [self_ivars self_csr heap].
  destruct (int_add n0 1) as [n1|e|f]; [| reflexivity..].
  cbn [self_ivars self_csr heap].
  destruct (for_range 0 n0 _ _) as [st|e|f]; [| reflexivity..].
  destruct (store _ _ _) as [ri|e|f]; reflexivity.
Qed.

(** X3.  A successful construction sets exactly two instance variables,
    [@n] and then [@nnz], to the Integers held in the fields [n] and [nnz]
    of the struct; [@n] is the [num_rows] that was passed. *)
Theorem constructor_instance_variables :
  forall (data num_rows : VALUE) (w w' : world),
    csr_matrix_initialize data num_rows w = (Ok tt, w') ->
    self_ivars w'
    = ("@nnz"%string, INT2NUM (nnz (self_csr w')))
        :: ("@n"%string, INT2NUM (n (self_csr w'))) :: self_ivars w /\
    num_rows = INT2NUM (n (self_csr w')).
Proof.
  intros data num_rows w w' Hrun.
  assert (Hn : num_rows = INT2NUM (n (self_csr w'))).
  { apply csr_matrix_initialize_Ok in Hrun as (entss & _ & -> & -> & _).
    reflexivity. }
  split; [| exact Hn].
  rewrite csr_matrix_initialize_cleared in Hrun.
  apply M_bind_Ok in Hrun as (? & ? & [_ ->]%lift_Ok & Hrun).
  apply M_bind_Ok in Hrun as (? & ? & [_ ->]%lift_Ok & Hrun).
  apply M_bind_Ok in Hrun as (keys & ? & [_ ->]%lift_Ok & Hrun).
  apply M_bind_Ok in Hrun as (? & ? & [_ ->]%lift_Ok & Hrun).
  apply M_bind_Ok in Hrun as (? & ? & [_ ->]%lift_Ok & Hrun).
  apply M_bind_Ok in Hrun as (? & ? & [_ ->]%lift_Ok & Hrun).
  apply M_bind_Ok in Hrun as (? & ? & [_ ->]%lift_Ok & Hrun).
  apply M_bind_Ok in Hrun as (? & w1 & Hmat & Hrun).
  rewrite rb_iv_set_tail in Hrun. injection Hrun as <-.
  cbn [self_ivars self_csr] in Hn |- *. rewrite <- Hn.
  pose proof (mat_to_sparse_ivars data keys num_rows (cleared w)) as Hiv.
  rewrite Hmat in Hiv. simpl in Hiv. rewrite Hiv. reflexivity.
Qed.

Lemma constructor_instance_variables_witness :
  self_ivars (csr_matrix_initialize example_data (RInteger 3) blank_world).2
  = ("@nnz"%string,
     INT2NUM (nnz (self_csr (csr_matrix_initialize example_data (RInteger 3)
                               blank_world).2)))
      :: ("@n"%string,
          INT2NUM (n (self_csr (csr_matrix_initialize example_data (RInteger 3)
                                  blank_world).2)))
      :: self_ivars blank_world /\
  RInteger 3
  = INT2NUM (n (self_csr (csr_matrix_initialize example_data (RInteger 3)
                            blank_world).2)).
Proof.
  apply (constructor_instance_variables example_data (RInteger 3) blank_world).
  vm_compute. reflexivity.
Defined.

(** X4.  When the constructor raises, whatever the exception, it has
    cleared [init] and changed nothing else: the fields [n], [nnz] and the
    three blocks of the struct are those before the call, no instance
    variable is set, and every method still answers as it did before the
    call (the methods do not look at [init]). *)
Theorem failed_constructor_keeps_old_matrix :
  forall (data num_rows : VALUE) (w w' : world) (e : exception),
    csr_matrix_initialize data num_rows w = (Raise e, w') ->
    init (self_csr w') = 0 /\
    n (self_csr w') = n (self_csr w) /\
    nnz (self_csr w') = nnz (self_csr w) /\
    values (self_csr w') = values (self_csr w) /\
    col_index (self_csr w') = col_index (self_csr w) /\
    row_index (self_csr w') = row_index (self_csr w) /\
    self_ivars w' = self_ivars w /\
    forall m : method, (call (self_csr w') m).2 = (call (self_csr w) m).2.
Proof.
  intros data num_rows w w' e Hrun.
  apply csr_matrix_initialize_raise in Hrun as [Hc Hi].
  rewrite Hc. split_and!; try reflexivity; [exact Hi |].
  intros []; reflexivity.
Qed.

Lemma failed_constructor_keeps_old_matrix_witness :
  let w := (csr_matrix_initialize example_data (RInteger 3) blank_world).2 in
  let w' := (csr_matrix_initialize number_entry_data (RInteger 1) w).2 in
  init (self_csr w') = 0 /\
  n (self_csr w') = n (self_csr w) /\
  nnz (self_csr w') = nnz (self_csr w) /\
  values (self_csr w') = values (self_csr w) /\
  col_index (self_csr w') = col_index (self_csr w) /\
  row_index (self_csr w') = row_index (self_csr w) /\
  self_ivars w' = self_ivars w /\
  forall m : method, (call (self_csr w') m).2 = (call (self_csr w) m).2.
Proof.
  apply (failed_constructor_keeps_old_matrix number_entry_data (RInteger 1)
           (csr_matrix_initialize example_data (RInteger 3) blank_world).2
           (csr_matrix_initialize number_entry_data (RInteger 1)
              (csr_matrix_initialize example_data (RInteger 3) blank_world).2).2
           (wrong_argument_type T_FIXNUM T_HASH)).
  vm_compute. reflexivity.
Defined.

(** ** The constructor stays inside its blocks *)

Lemma no_fault_bind {A B : Type} (m : outcome A) (k : A -> outcome B) :
  no_fault m -> (forall a, m = Ok a -> no_fault (k a)) -> no_fault (m ≫= k).
Proof.
  intros Hm Hk. destruct m as [a|e|f]; simpl.
  - apply Hk. reflexivity.
  - exact I.
  - exact Hm.
Qed.

Lemma no_fault_Check_Type (v : VALUE) (t : ruby_type) :
  no_fault (Check_Type v t).
Proof. unfold Check_Type. destruct (ruby_type_eqb _ _); exact I. Qed.

Lemma no_fault_NUM2INT (v : VALUE) : no_fault (NUM2INT v).
Proof.
  destruct v; simpl; try exact I.
  - destruct (fits_int z); exact I.
  - destruct (float_trunc d) as [z|]; [| exact I].
    destruct (_ && _); [| exact I]. destruct (fits_int z); exact I.
Qed.

Lemma no_fault_NUM2DBL (v : VALUE) : no_fault (NUM2DBL v).
Proof. destruct v; exact I. Qed.

Lemma no_fault_rb_ary_entry (a : list VALUE) (i : Z) :
  no_fault (rb_ary_entry (RArray a) i).
Proof. unfold rb_ary_entry. simpl. destruct (_ || _); exact I. Qed.

Lemma no_fault_store {T : Type} (a : list (option T)) (i : Z) (v : T) :
  0 <= i < Z.of_nat (length a) -> no_fault (store a i v).
Proof.
  intros Hi. unfold store.
  replace (0 <=? i) with true by (symmetry; apply Z.leb_le; lia).
  replace (i <? Z.of_nat (length a)) with true by (symmetry; apply Z.ltb_lt; lia).
  exact I.
Qed.

(** A loop whose body cannot fault under an invariant cannot fault. *)
Lemma for_loop_no_fault {S : Type} (P : nat -> S -> Prop) (steps : nat)
    (lo : Z) (body : Z -> S -> outcome S) (s : S) :
  P O s ->
  (forall (k : nat) (t : S),
      (k < steps)%nat -> P k t ->
      no_fault (body (lo + Z.of_nat k) t) /\
      forall t', body (lo + Z.of_nat k) t = Ok t' -> P (Datatypes.S k) t') ->
  no_fault (for_loop steps lo body s).
Proof.
  revert lo s P. induction steps as [|steps IH]; intros lo s P H0 Hstep.
  - exact I.
  - simpl. destruct (Hstep O s) as [Hnf Hnext]; [lia | exact H0 |].
    rewrite Z.add_0_r in Hnf, Hnext.
    apply no_fault_bind; [exact Hnf |]. intros s1 Hs1.
    apply (IH (lo + 1) s1 (fun k t => P (Datatypes.S k) t)).
    + apply Hnext. exact Hs1.
    + intros k t Hk HP. destruct (Hstep (Datatypes.S k) t) as [Hnf' Hnext'];
        [lia | exact HP |].
      replace (lo + 1 + Z.of_nat k) with (lo + Z.of_nat (Datatypes.S k)) by lia.
      split; assumption.
Qed.

Lemma total_entries_app (h1 h2 : list (VALUE * VALUE)) :
  total_entries (h1 ++ h2) = (total_entries h1 + total_entries h2)%nat.
Proof.
  induction h1 as [|[k v] h1 IH]; [reflexivity |].
  simpl. rewrite IH. destruct v; lia.
Qed.

Lemma total_entries_rows (h : list (VALUE * VALUE)) (rows : list (list VALUE)) :
  map snd h = RArray <$> rows -> total_entries h = length (concat rows).
Proof.
  revert rows. induction h as [|[k v] h IH]; intros [|r rows] H;
    try discriminate; [reflexivity |].
  simpl in H. injection H as -> H.
  simpl. rewrite (IH rows H), length_app. reflexivity.
Qed.

Lemma total_entries_take (h : list (VALUE * VALUE)) (k : nat) :
  (total_entries (take k h) <= total_entries h)%nat.
Proof.
  rewrite <- (take_drop k h) at 2. rewrite total_entries_app. lia.
Qed.

(** The first loop cannot fault when the entries of the rows can be counted
    in an int. *)
Lemma count_rows_no_fault (h : list (VALUE * VALUE)) :
  wf_hash h ->
  Z.of_nat (total_entries h) <= INT_MAX ->
  no_fault (for_range 0 (Z.of_nat (length h))
              (count_row (RHash h) (RArray (map fst h))) (rb_hash_new, 0)).
Proof.
  intros Hwf Hmax. unfold for_range. rewrite Z.sub_0_r, Nat2Z.id.
  apply (for_loop_no_fault
    (fun (k : nat) (st : VALUE * Z) =>
       exists kl rows,
         st.1 = RHash kl /\ map snd (take k h) = RArray <$> rows /\
         st.2 = Z.of_nat (length (concat rows)))).
  - exists [], []. rewrite take_0. split_and!; reflexivity.
  - intros k [klv cnt] Hk (kl & rows & Hkl & Hrows & Hcnt).
    simpl in Hkl, Hcnt. subst klv cnt. rewrite Z.add_0_l.
    destruct (lookup_lt_is_Some_2 h k Hk) as [[key v] Hkv].
    assert (Hkey : map fst h !! k = Some key).
    { change (map fst h) with (fst <$> h). rewrite list_lookup_fmap, Hkv.
      reflexivity. }
    pose proof (rb_hash_aref_wf h k key v Hwf Hkv) as Hrow.
    unfold count_row. rewrite (rb_ary_entry_nat _ _ _ Hkey), bind_ret.
    cbn [rb_hash_aset]. rewrite bind_ret, Hrow, bind_ret.
    destruct (Check_Type v T_ARRAY) as [[]|e|f] eqn:Hty.
    2:{ split; [exact I | discriminate]. }
    2:{ pose proof (no_fault_Check_Type v T_ARRAY) as Hnf.
        rewrite Hty in Hnf. destruct Hnf. }
    apply Check_Type_Ok in Hty.
    destruct v as [|z| | | |r|]; try discriminate;
      [simpl in Hty; destruct (FIXABLE z); discriminate |].
    rewrite bind_ret. cbn [RARRAY_LEN]. rewrite bind_ret.
    assert (Hsnd : map snd (take (Datatypes.S k) h) = RArray <$> (rows ++ [r])).
    { rewrite (take_S_r _ _ _ Hkv), map_app, Hrows, fmap_app. reflexivity. }
    pose proof (total_entries_rows _ _ Hsnd) as Htot.
    pose proof (total_entries_take h (Datatypes.S k)) as Hle.
    rewrite Htot, concat_app, length_app in Hle. simpl in Hle.
    rewrite app_nil_r in Hle.
    rewrite (proj2 (int_of_long_Ok (Z.of_nat (length r)) _)), bind_ret
      by (split; [reflexivity | unfold INT_MIN, INT_MAX in *; lia]).
    rewrite (proj2 (int_add_Ok _ _ _)), bind_ret
      by (split; [reflexivity | unfold INT_MIN, INT_MAX in *; lia]).
    split; [exact I |]. intros t' [= <-].
    eexists _, (rows ++ [r]). split_and!; [reflexivity | exact Hsnd |].
    simpl. rewrite concat_app, length_app. simpl. rewrite app_nil_r. lia.
Qed.

Lemma length_concat_resolved (kl : VALUE) (rows : list (list VALUE))
    (entss : list (list (float * Z))) :
  Forall2 (resolved_row kl) rows entss ->
  length (concat entss) = length (concat rows).
Proof.
  intros Hres. induction Hres as [|r ents rows entss Hr _ IH]; [reflexivity |].
  simpl. rewrite !length_app, IH. f_equal. apply Forall2_length in Hr. lia.
Qed.

(** An entry is stored inside the blocks when there is room for it. *)
Lemma fill_entry_no_fault (kl : list (VALUE * VALUE)) (r : list VALUE)
    (total : nat) (done : list (float * Z)) (j : Z) (st : fill_state) :
  fill_inv total done st ->
  (length done < total)%nat ->
  no_fault (fill_entry (RHash kl) (RArray r) j st).
Proof.
  intros (Hv & Hc & Hnz & Hle) Hlt. unfold fill_entry.
  apply no_fault_bind; [apply no_fault_rb_ary_entry | intros e _].
  apply no_fault_bind; [apply no_fault_Check_Type | intros [] Hty].
  apply Check_Type_Ok in Hty.
  destruct e as [|z| | | | |eh]; try discriminate;
    [simpl in Hty; destruct (FIXABLE z); discriminate |].
  cbn [rb_hash_aref]. rewrite !bind_ret.
  apply no_fault_bind; [apply no_fault_NUM2DBL | intros weight _].
  apply no_fault_bind.
  { apply no_fault_store. rewrite Hv, Hnz, length_filled; rewrite ?length_fmap; lia. }
  intros vals _. rewrite bind_ret.
  apply no_fault_bind; [apply no_fault_NUM2INT | intros c _].
  apply no_fault_bind.
  { apply no_fault_store. rewrite Hc, Hnz, length_filled; rewrite ?length_fmap; lia. }
  intros cols _. exact I.
Qed.

Lemma fill_entries_no_fault (kl : list (VALUE * VALUE)) (r : list VALUE)
    (total : nat) (done : list (float * Z)) (st : fill_state) :
  fill_inv total done st ->
  (length done + length r <= total)%nat ->
  no_fault (for_range 0 (Z.of_nat (length r))
              (fill_entry (RHash kl) (RArray r)) st).
Proof.
  intros Hinv Hroom. unfold for_range. rewrite Z.sub_0_r, Nat2Z.id.
  apply (for_loop_no_fault
    (fun (j : nat) (t : fill_state) =>
       exists ents, length ents = j /\ fill_inv total (done ++ ents) t)).
  - exists []. rewrite app_nil_r. split; [reflexivity | exact Hinv].
  - intros j t Hj (ents & Hlen & Hfi). rewrite Z.add_0_l. split.
    + eapply fill_entry_no_fault; [exact Hfi |]. rewrite length_app. lia.
    + intros t' Hbody.
      destruct (lookup_lt_is_Some_2 r j Hj) as [e He].
      destruct (fill_entry_spec _ _ _ _ _ _ _ _ He Hfi Hbody)
        as (wc & _ & Hfi' & _).
      exists (ents ++ [wc]). rewrite length_app, app_assoc. simpl.
      split; [lia | exact Hfi'].
Qed.

(** The second loop stays inside the three blocks. *)
Lemma fill_rows_no_fault (data : VALUE) (keys : list VALUE)
    (kl : list (VALUE * VALUE)) (rows : list (list VALUE)) (n1 : nat)
    (st : fill_state) :
  rows_of data keys rows ->
  Z.of_nat (length (concat rows)) <= INT_MAX ->
  fill_inv (length (concat rows)) [] st ->
  f_row_index st = filled [] n1 ->
  (length keys < n1)%nat ->
  no_fault (for_range 0 (Z.of_nat (length keys))
              (fill_row data (RArray keys) (RHash kl)) st).
Proof.
  intros Hrows Hmax Hinv Hri Hn1. unfold for_range.
  rewrite Z.sub_0_r, Nat2Z.id.
  pose proof Hrows as Hlen. apply Forall2_length in Hlen.
  apply (for_loop_no_fault
    (fun (k : nat) (t : fill_state) =>
       exists entss,
         Forall2 (resolved_row (RHash kl)) (take k rows) entss /\
         fill_inv (length (concat rows)) (concat entss) t /\
         f_row_index t = filled (offsets entss k) n1)).
  - exists []. rewrite take_0. split_and!; [constructor | exact Hinv | exact Hri].
  - intros k t Hk (entss & Hres & Hfi & Hoff). rewrite Z.add_0_l.
    destruct (lookup_lt_is_Some_2 keys k Hk) as [key Hkey].
    destruct (lookup_lt_is_Some_2 rows k) as [r Hr]; [lia |].
    pose proof (Forall2_lookup_lr _ _ _ _ _ _ Hrows Hkey Hr) as Hrow.
    simpl in Hrow.
    pose proof Hres as Hlen'. apply Forall2_length in Hlen'.
    rewrite length_take in Hlen'.
    assert (length entss = k) as Hk' by lia.
    pose proof (length_concat_resolved _ _ _ Hres) as Hcnt.
    pose proof (concat_take_le rows (Datatypes.S k)) as Hle.
    rewrite (offsets_step_gen rows k r Hr) in Hle.
    unfold fill_row. rewrite Hoff.
    pose proof (store_filled_Ok (offsets entss k) n1 (f_nz_idx t)) as Hstore.
    rewrite length_offsets in Hstore. rewrite Hstore by lia. clear Hstore.
    rewrite bind_ret, (rb_ary_entry_nat _ _ _ Hkey), bind_ret, Hrow, bind_ret.
    cbn [RARRAY_LEN]. rewrite bind_ret.
    rewrite (proj2 (int_of_long_Ok (Z.of_nat (length r)) _)), bind_ret
      by (split; [reflexivity | unfold INT_MIN, INT_MAX in *; lia]).
    assert (Hfi0 : fill_inv (length (concat rows)) (concat entss)
              {| f_values := f_values t; f_col_index := f_col_index t;
                 f_row_index := filled (offsets entss k ++ [f_nz_idx t]) n1;
                 f_nz_idx := f_nz_idx t |}).
    { destruct Hfi as (Hv & Hc & Hnz & Hl). unfold fill_inv. simpl.
      split_and!; assumption. }
    split.
    + apply (fill_entries_no_fault kl r (length (concat rows)) (concat entss));
        [exact Hfi0 | lia].
    + intros t' Hbody.
      apply (fill_entries_spec _ _ (length (concat rows)) (concat entss))
        in Hbody; [| exact Hfi0].
      destruct Hbody as (ents & Hents & Hfi' & Hri'). simpl in Hri'.
      exists (entss ++ [ents]). split_and!.
      * rewrite (take_S_r _ _ _ Hr). apply Forall2_app; [exact Hres |].
        constructor; [exact Hents | constructor].
      * rewrite concat_app. simpl. rewrite app_nil_r. exact Hfi'.
      * rewrite Hri'. destruct Hfi as (_ & _ & Hnz & _). rewrite Hnz.
        rewrite <- Hk'. rewrite offsets_snoc. reflexivity.
Qed.

Lemma mat_to_sparse_no_fault (h : list (VALUE * VALUE)) (num_rows : VALUE)
    (w : world) :
  wf_hash h ->
  NUM2INT num_rows = Ok (Z.of_nat (length h)) ->
  Z.of_nat (length h) < INT_MAX ->
  Z.of_nat (total_entries h) <= INT_MAX ->
  no_fault (mat_to_sparse (RHash h) (RArray (map fst h)) num_rows w).1.
Proof.
  intros Hwf Hnum Hn Hmax. unfold mat_to_sparse. rewrite Hnum.
  unfold mbind at 1, M_bind at 1, lift at 1.
  unfold mbind at 1, M_bind at 1, lift at 1.
  pose proof (count_rows_no_fault h Hwf Hmax) as Hnf1.
  destruct (for_range 0 (Z.of_nat (length h))
              (count_row (RHash h) (RArray (map fst h))) (rb_hash_new, 0))
    as [[klv cnt]|e|f] eqn:Hcount; [| exact I | exact Hnf1].
  rewrite <- (length_map fst h) in Hcount.
  apply count_rows_spec in Hcount as (kl & rows & -> & _ & Hrows & -> & Hcnt).
  unfold mbind at 1, M_bind at 1, malloc at 1.
  unfold mbind at 1, M_bind at 1, malloc at 1.
  unfold mbind at 1, M_bind at 1, lift at 1.
  rewrite (proj2 (int_add_Ok (Z.of_nat (length h)) 1 _))
    by (split; [reflexivity | unfold INT_MIN, INT_MAX in *; lia]).
  unfold mbind at 1, M_bind at 1, malloc at 1.
  unfold mbind at 1, M_bind at 1, lift at 1.
  assert (Hinv : fill_inv (length (concat rows)) []
            {| f_values := malloc_cells (Z.of_nat (length (concat rows)));
               f_col_index := malloc_cells (Z.of_nat (length (concat rows)));
               f_row_index := malloc_cells (Z.of_nat (length h) + 1);
               f_nz_idx := 0 |}).
  { unfold fill_inv. simpl. rewrite !malloc_cells_filled, Nat2Z.id.
    split_and!; [reflexivity | reflexivity | reflexivity | lia]. }
  assert (Hri : malloc_cells (Z.of_nat (length h) + 1)
                = @filled Z [] (Datatypes.S (length h))).
  { rewrite malloc_cells_filled. f_equal. lia. }
  pose proof (fill_rows_no_fault (RHash h) (map fst h) kl rows
                (Datatypes.S (length h)) _ Hrows Hcnt Hinv Hri) as Hnf2.
  rewrite length_map in Hnf2. specialize (Hnf2 ltac:(lia)).
  destruct (for_range 0 (Z.of_nat (length h)) _ _) as [st|e|f] eqn:Hfill;
    [| exact I | exact Hnf2].
  rewrite <- (length_map fst h) in Hfill at 1.
  eapply (fill_rows_spec _ _ _ rows (length (concat rows))
            (Datatypes.S (length h))) in Hfill;
    [| exact Hrows | exact Hinv | exact Hri].
  destruct Hfill as (entss & Hres & _ & Hoff & _).
  rewrite length_map in Hoff.
  unfold mbind at 1, M_bind at 1, lift at 1. rewrite Hoff.
  pose proof (store_filled_Ok (offsets entss (length h))
                (Datatypes.S (length h))
                (Z.of_nat (length (concat rows)))) as Hlast.
  rewrite length_offsets in Hlast. rewrite Hlast by lia.
  exact I.
Qed.

Lemma csr_matrix_initialize_no_fault (h : list (VALUE * VALUE))
    (num_rows : VALUE) (w : world) :
  wf_hash h ->
  Z.of_nat (length h) < INT_MAX ->
  Z.of_nat (total_entries h) <= INT_MAX ->
  no_fault (csr_matrix_initialize (RHash h) num_rows w).1.
Proof.
  intros Hwf Hn Hmax. rewrite csr_matrix_initialize_cleared.
  change (Check_Type (RHash h) T_HASH) with (Ok tt).
  unfold mbind at 1, M_bind at 1, lift at 1.
  unfold mbind at 1, M_bind at 1, lift at 1.
  pose proof (no_fault_Check_Type num_rows T_FIXNUM) as Hnf.
  destruct (Check_Type num_rows T_FIXNUM) as [[]|e|f]; [| exact I | exact Hnf].
  clear Hnf. cbn [rb_hash_keys].
  unfold mbind at 1, M_bind at 1, lift at 1.
  unfold mbind at 1, M_bind at 1, lift at 1.
  pose proof (no_fault_NUM2INT num_rows) as Hnf.
  destruct (NUM2INT num_rows) as [rows|e|f] eqn:Hnum; [| exact I | exact Hnf].
  clear Hnf. cbn [RARRAY_LEN].
  unfold mbind at 1, M_bind at 1, lift at 1.
  unfold mbind at 1, M_bind at 1, lift at 1.
  rewrite length_map.
  rewrite (proj2 (int_of_long_Ok (Z.of_nat (length h)) _))
    by (split; [reflexivity | unfold INT_MIN, INT_MAX in *; lia]).
  unfold mbind at 1, M_bind at 1, lift at 1.
  destruct (rows =? Z.of_nat (length h)) eqn:E; [| exact I].
  apply Z.eqb_eq in E. subst rows. cbn [negb].
  unfold mbind at 1, M_bind at 1.
  pose proof (mat_to_sparse_no_fault h num_rows (cleared w) Hwf Hnum Hn Hmax)
    as Hnf.
  destruct (mat_to_sparse (RHash h) (RArray (map fst h)) num_rows (cleared w))
    as [[[]|e|f] w1]; [| exact I | exact Hnf].
  rewrite rb_iv_set_tail. exact I.
Qed.

(** X5.  On a hash with fewer than [INT_MAX] distinct keys whose array rows
    hold at most [INT_MAX] entries in all, the constructor returns or
    raises, whatever the rows and entries are and whatever [num_rows] is: it
    never reads or writes outside the blocks it allocated, never reads a
    cell it has not written, and its [int] arithmetic does not overflow. *)
Theorem constructor_memory_safe :
  forall (h : list (VALUE * VALUE)) (num_rows : VALUE) (w : world),
    wf_hash h ->
    Z.of_nat (length h) < INT_MAX ->
    Z.of_nat (total_entries h) <= INT_MAX ->
    (exists w', csr_matrix_initialize (RHash h) num_rows w = (Ok tt, w')) \/
    (exists e w', csr_matrix_initialize (RHash h) num_rows w = (Raise e, w')).
Proof.
  intros h num_rows w Hwf Hn Hmax.
  pose proof (csr_matrix_initialize_no_fault h num_rows w Hwf Hn Hmax) as Hnf.
  destruct (csr_matrix_initialize (RHash h) num_rows w) as [[[]|e|f] w'].
  - left. exists w'. reflexivity.
  - right. exists e, w'. reflexivity.
  - destruct Hnf.
Qed.

Lemma constructor_memory_safe_witness :
  (exists w',
      csr_matrix_initialize (RHash zero_weight_rows) (RInteger 2) blank_world
      = (Ok tt, w')) \/
  (exists e w',
      csr_matrix_initialize (RHash zero_weight_rows) (RInteger 2) blank_world
      = (Raise e, w')).
Proof.
  apply (constructor_memory_safe zero_weight_rows (RInteger 2) blank_world).
  - exact zero_weight_wf.
  - vm_compute. reflexivity.
  - vm_compute. discriminate.
Defined.

(** ** Blocks requested and released *)

(** X6.  A successful construction requests exactly three blocks from
    [malloc], of [sizeof(double) * nnz], [sizeof(int) * nnz] and
    [sizeof(int) * (n + 1)] bytes in this order, sets [init] to 1, and
    leaves blocks of [nnz], [nnz] and [n + 1] cells every one of which has
    been written. *)
Theorem constructor_allocation :
  forall (data num_rows : VALUE) (w w' : world),
    csr_matrix_initialize data num_rows w = (Ok tt, w') ->
    heap w' = [sizeof_int * (n (self_csr w') + 1);
               sizeof_int * nnz (self_csr w');
               sizeof_double * nnz (self_csr w')] ++ heap w /\
    init (self_csr w') = 1 /\
    Z.of_nat (length (values (self_csr w'))) = nnz (self_csr w') /\
    Z.of_nat (length (col_index (self_csr w'))) = nnz (self_csr w') /\
    Z.of_nat (length (row_index (self_csr w'))) = n (self_csr w') + 1 /\
    Forall is_Some (values (self_csr w')) /\
    Forall is_Some (col_index (self_csr w')) /\
    Forall is_Some (row_index (self_csr w')).
Proof.
  intros data num_rows w w' Hrun.
  apply csr_matrix_initialize_Ok in Hrun as (entss & _ & _ & Hcsr & Hheap).
  rewrite Hheap, Hcsr. cbn [init n nnz values col_index row_index csr_of].
  rewrite !length_fmap, length_offsets.
  split_and!; try reflexivity; try lia;
    apply Forall_fmap, Forall_true; intros x; eexists; reflexivity.
Qed.

Lemma constructor_allocation_witness :
  let w' := (csr_matrix_initialize example_data (RInteger 3) blank_world).2 in
  heap w' = [sizeof_int * (n (self_csr w') + 1);
             sizeof_int * nnz (self_csr w');
             sizeof_double * nnz (self_csr w')] ++ heap blank_world /\
  init (self_csr w') = 1 /\
  Z.of_nat (length (values (self_csr w'))) = nnz (self_csr w') /\
  Z.of_nat (length (col_index (self_csr w'))) = nnz (self_csr w') /\
  Z.of_nat (length (row_index (self_csr w'))) = n (self_csr w') + 1 /\
  Forall is_Some (values (self_csr w')) /\
  Forall is_Some (col_index (self_csr w')) /\
  Forall is_Some (row_index (self_csr w')).
Proof.
  apply (constructor_allocation example_data (RInteger 3) blank_world).
  vm_compute. reflexivity.
Defined.

(** X7.  After a successful construction [csr_matrix_free] releases the
    three blocks and the struct.  After a construction that raised it
    releases the struct only, since [init] is 0: when the exception is the
    TypeError of an entry that is not a hash, the three blocks requested
    before the second loop are not released. *)
Theorem free_after_constructor :
  (forall (data num_rows : VALUE) (w w' : world),
      csr_matrix_initialize data num_rows w = (Ok tt, w') ->
      csr_matrix_free (self_csr w')
      = [ptr_values; ptr_col_index; ptr_row_index; ptr_mat]) /\
  (forall (data num_rows : VALUE) (w w' : world) (e : exception),
      csr_matrix_initialize data num_rows w = (Raise e, w') ->
      csr_matrix_free (self_csr w') = [ptr_mat]) /\
  (forall (h : list (VALUE * VALUE)) (num_rows : VALUE) (w w' : world)
          (got : ruby_type),
      csr_matrix_initialize (RHash h) num_rows w
      = (Raise (wrong_argument_type got T_HASH), w') ->
      csr_matrix_free (self_csr w') = [ptr_mat] /\
      exists count rows1 : Z,
        heap w' = [sizeof_int * rows1; sizeof_int * count;
                   sizeof_double * count] ++ heap w).
Proof.
  split_and!.
  - intros data num_rows w w' Hrun.
    apply csr_matrix_initialize_Ok in Hrun as (entss & _ & _ & -> & _).
    reflexivity.
  - intros data num_rows w w' e Hrun.
    apply csr_matrix_initialize_raise in Hrun as [-> _]. reflexivity.
  - intros h num_rows w w' got Hrun. split.
    + apply csr_matrix_initialize_raise in Hrun as [-> _]. reflexivity.
    + eapply csr_matrix_initialize_entry_check. exact Hrun.
Qed.

(** ** Coordinates on any constructed matrix *)

Lemma length_assoc_set (k v : VALUE) (h : list (VALUE * VALUE)) :
  (length (assoc_set k v h) <= Datatypes.S (length h))%nat.
Proof.
  induction h as [|[k' v'] h IH]; simpl; [lia |].
  destruct (rb_eql k' k); simpl; lia.
Qed.

Lemma Forall_assoc_set (P : VALUE * VALUE -> Prop) (k v : VALUE)
    (h : list (VALUE * VALUE)) :
  Forall P h -> P (k, v) -> Forall P (assoc_set k v h).
Proof.
  intros Hh Hkv. apply Forall_forall. intros kv Hin.
  apply assoc_set_In in Hin as [Hin | ->]; [| exact Hkv].
  exact (proj1 (Forall_forall _ _) Hh _ Hin).
Qed.

(** Whatever the rows, the loop of [csr_matrix_coordinates] files the entry
    at position [k] under a row that starts at or before [k]. *)
Lemma csr_matrix_coordinates_labels (entss : list (list (float * Z))) :
  (1 <= length entss)%nat ->
  exists h,
    csr_matrix_coordinates (csr_of entss) = Ok (RHash h) /\
    (length h <= length (concat entss))%nat /\
    Forall (fun kv : VALUE * VALUE =>
              exists (i k : nat) (wc : float * Z),
                kv = coord_entry i wc /\
                (i < length entss)%nat /\
                concat entss !! k = Some wc /\
                (length (concat (take i entss)) <= k)%nat) h.
Proof.
  intros Hn. unfold csr_matrix_coordinates. cbn [row_index nnz csr_of].
  change 1 with (Z.of_nat 1).
  rewrite (load_Some_nat _ _ _
             (offsets_lookup entss (Datatypes.S (length entss)) 1 ltac:(lia))).
  rewrite bind_ret. unfold for_range. rewrite Z.sub_0_r, Nat2Z.id.
  match goal with |- context [for_loop _ _ ?b ?s] =>
    destruct (for_loop_total
      (fun (k : nat) st =>
         exists h i, c_result st = RHash h /\ c_i st = Z.of_nat i /\
                     (i < length entss)%nat /\
                     c_row_end st
                     = Z.of_nat (length (concat (take (Datatypes.S i) entss))) /\
                     (length (concat (take i entss)) <= k)%nat /\
                     (length h <= k)%nat /\
                     Forall (fun kv : VALUE * VALUE =>
                               exists (i k : nat) (wc : float * Z),
                                 kv = coord_entry i wc /\
                                 (i < length entss)%nat /\
                                 concat entss !! k = Some wc /\
                                 (length (concat (take i entss)) <= k)%nat) h)
      (length (concat entss)) 0 b s)
      as (st & Hrun & (h & i & Hh & _ & _ & _ & _ & Hlen & Hall))
  end.
  - exists [], O. cbn. split_and!; try reflexivity; try lia. constructor.
  - intros k st Hk (h & i & Hh & Hi & Hlt & Hend & Hstart & Hlen & Hall).
    rewrite Z.add_0_l. unfold coordinates_step.
    assert (Hnext : exists i', (i' < length entss)%nat /\
              (length (concat (take i' entss)) <= k)%nat /\
              (if Z.of_nat k =? c_row_end st
               then row_end ← load (row_index (csr_of entss)) (c_i st + 1 + 1);
                    Ok (c_i st + 1, row_end)
               else Ok (c_i st, c_row_end st))
              = Ok (Z.of_nat i',
                    Z.of_nat (length (concat (take (Datatypes.S i') entss))))).
    { destruct (Z.of_nat k =? c_row_end st) eqn:E.
      - apply Z.eqb_eq in E. rewrite Hend in E.
        assert (Datatypes.S i < length entss)%nat as Hlt'
          by (apply take_concat_lt; lia).
        exists (Datatypes.S i). split_and!; [exact Hlt' | lia |].
        rewrite Hi. replace (Z.of_nat i + 1 + 1)
          with (Z.of_nat (Datatypes.S (Datatypes.S i))) by lia.
        cbn [row_index csr_of].
        rewrite (load_Some_nat _ _ _
                   (offsets_lookup entss (Datatypes.S (length entss))
                      (Datatypes.S (Datatypes.S i)) ltac:(lia))).
        rewrite bind_ret. do 2 f_equal. lia.
      - exists i. split_and!; [exact Hlt | exact Hstart |].
        rewrite Hi, Hend. reflexivity. }
    destruct Hnext as (i' & Hlt' & Hstart' & ->). rewrite bind_ret.
    destruct (lookup_lt_is_Some_2 (concat entss) k Hk) as [[w c] Hwc].
    change (rb_ary_new_capa 2) with (Ok (RArray [])). rewrite bind_ret.
    change (rb_ary_store (RArray []) 0 (INT2NUM (Z.of_nat i')))
      with (Ok (RArray [INT2NUM (Z.of_nat i')])).
    rewrite bind_ret. cbn [col_index values csr_of].
    rewrite (load_Some_nat _ _ c) by (rewrite list_lookup_fmap, Hwc; reflexivity).
    rewrite bind_ret.
    change (rb_ary_store (RArray [INT2NUM (Z.of_nat i')]) 1 (INT2NUM c))
      with (Ok (RArray [INT2NUM (Z.of_nat i'); INT2NUM c])).
    rewrite bind_ret.
    rewrite (load_Some_nat _ _ w) by (rewrite list_lookup_fmap, Hwc; reflexivity).
    rewrite bind_ret, Hh. cbn [rb_hash_aset]. rewrite bind_ret.
    eexists. split; [reflexivity |]. cbn [c_i c_row_end c_result].
    eexists _, i'. split_and!; try reflexivity; try assumption; try lia.
    + pose proof (length_assoc_set (RArray [INT2NUM (Z.of_nat i'); INT2NUM c])
                    (DBL2NUM w) h). lia.
    + apply Forall_assoc_set; [exact Hall |].
      exists i', k, (w, c). split_and!; try reflexivity; assumption.
  - exists h. rewrite Hrun, bind_ret, Hh. split_and!; [reflexivity | exact Hlen | exact Hall].
Qed.

(** X8.  On every constructed matrix with at least one row, empty rows or
    not, [coordinates] returns a hash of at most [nnz] pairs.  Each key is
    [[i, j]] and each value the Float [d] where [j] and [d] are the column
    and the weight of one stored entry [k], and [i] is a row of the matrix
    that starts at or before [k]: the row an entry is filed under is never
    beyond the entry's own row. *)
Theorem coordinates_keys_in_bounds :
  forall csr : csr_matrix,
    constructed csr ->
    1 <= n csr ->
    exists h : list (VALUE * VALUE),
      csr_matrix_coordinates csr = Ok (RHash h) /\
      Z.of_nat (length h) <= nnz csr /\
      Forall (fun kv : VALUE * VALUE =>
                exists i j k lo : Z, exists d : float,
                  kv = (RArray [INT2NUM i; INT2NUM j], DBL2NUM d) /\
                  0 <= i < n csr /\ 0 <= j < n csr /\
                  0 <= k < nnz csr /\
                  load (col_index csr) k = Ok j /\
                  load (values csr) k = Ok d /\
                  load (row_index csr) i = Ok lo /\ lo <= k) h.
Proof.
  intros csr Hc Hn.
  apply constructed_csr_of in Hc as (entss & -> & Hcols & _ & _).
  cbn [n csr_of] in Hn.
  destruct (csr_matrix_coordinates_labels entss) as (h & Hrun & Hlen & Hall);
    [lia |].
  exists h. split_and!; [exact Hrun | cbn [nnz csr_of]; lia |].
  eapply Forall_impl; [| exact Hall].
  intros kv (i & k & [d j] & -> & Hi & Hk & Hstart).
  exists (Z.of_nat i), j, (Z.of_nat k),
         (Z.of_nat (length (concat (take i entss)))), d.
  pose proof (lookup_lt_Some _ _ _ Hk) as Hklt.
  assert (Hj : 0 <= j < Z.of_nat (length entss)).
  { unfold cols_in_range in Hcols.
    pose proof (list_elem_of_lookup_2 _ _ _ Hk) as Hin.
    apply list_elem_of_In, in_concat in Hin as (ents & Hents & Hin).
    pose proof (proj1 (Forall_forall _ _) Hcols _ Hents) as Hrow.
    exact (proj1 (Forall_forall _ _) Hrow _ Hin). }
  cbn [n nnz col_index values row_index csr_of].
  split_and!; try reflexivity; try lia.
  - apply load_Some_nat. rewrite list_lookup_fmap, Hk. reflexivity.
  - apply load_Some_nat. rewrite list_lookup_fmap, Hk. reflexivity.
  - apply load_Some_nat. apply offsets_lookup. lia.
Qed.

Lemma coordinates_keys_in_bounds_witness :
  exists h : list (VALUE * VALUE),
    csr_matrix_coordinates example_csr = Ok (RHash h) /\
    Z.of_nat (length h) <= nnz example_csr /\
    Forall (fun kv : VALUE * VALUE =>
              exists i j k lo : Z, exists d : float,
                kv = (RArray [INT2NUM i; INT2NUM j], DBL2NUM d) /\
                0 <= i < n example_csr /\ 0 <= j < n example_csr /\
                0 <= k < nnz example_csr /\
                load (col_index example_csr) k = Ok j /\
                load (values example_csr) k = Ok d /\
                load (row_index example_csr) i = Ok lo /\ lo <= k) h.
Proof.
  apply (coordinates_keys_in_bounds example_csr).
  - exact example_constructed.
  - vm_compute. discriminate.
Defined.

(** ** Entries of one row with the same identifier *)

(** Looking up a key after a store: the stored value under the stored key,
    the old answer under any other key. *)
Lemma assoc_find_assoc_set (k k' v : VALUE) (h : list (VALUE * VALUE)) :
  assoc_find k (assoc_set k' v h)
  = if rb_eql k' k then Some v else assoc_find k h.
Proof.
  induction h as [|[k0 v0] h IH]; simpl.
  - destruct (rb_eql k' k); reflexivity.
  - destruct (rb_eql k0 k') eqn:E0; simpl.
    + apply rb_eql_eq in E0. subst k0.
      destruct (rb_eql k' k); reflexivity.
    + destruct (rb_eql k0 k) eqn:E1.
      * destruct (rb_eql k' k) eqn:E2; [| reflexivity].
        pose proof (rb_eql_eq _ _ E1). pose proof (rb_eql_eq _ _ E2).
        subst. congruence.
      * exact IH.
Qed.

Lemma assoc_find_hash_of (k : VALUE) (kvs : list (VALUE * VALUE)) :
  assoc_find k (hash_of kvs)
  = fold_left (fun acc kv => if rb_eql kv.1 k then Some kv.2 else acc) kvs None.
Proof.
  induction kvs as [|kv kvs IH] using rev_ind; [reflexivity |].
  rewrite hash_of_snoc, assoc_find_assoc_set, fold_left_app, IH. reflexivity.
Qed.

Lemma rb_eql_coord (i i' : nat) (c j : Z) :
  rb_eql (RArray [INT2NUM (Z.of_nat i'); INT2NUM c])
         (RArray [INT2NUM (Z.of_nat i); INT2NUM j])
  = (Z.of_nat i' =? Z.of_nat i) && (c =? j).
Proof. simpl. rewrite andb_true_r. reflexivity. Qed.

Lemma fold_other_row (i i' : nat) (j : Z)
    (ents : list (float * Z)) (acc : option VALUE) :
  i' <> i ->
  fold_left (fun acc kv =>
               if rb_eql kv.1 (RArray [INT2NUM (Z.of_nat i); INT2NUM j])
               then Some kv.2 else acc)
    (coord_entry i' <$> ents) acc = acc.
Proof.
  intros Hne. revert acc. induction ents as [|[w c] ents IH]; intros acc;
    [reflexivity |].
  rewrite fmap_cons. cbn [fold_left].
  change (coord_entry i' (w, c))
    with (RArray [INT2NUM (Z.of_nat i'); INT2NUM c], DBL2NUM w).
  cbn [fst snd]. rewrite rb_eql_coord.
  replace (Z.of_nat i' =? Z.of_nat i) with false
    by (symmetry; apply Z.eqb_neq; lia).
  cbn [andb]. apply IH.
Qed.

Lemma fold_other_rows (i : nat) (j : Z) (rows : list (list (float * Z)))
    (f : nat -> nat) (acc : option VALUE) :
  (forall m, (m < length rows)%nat -> f m <> i) ->
  fold_left (fun acc kv =>
               if rb_eql kv.1 (RArray [INT2NUM (Z.of_nat i); INT2NUM j])
               then Some kv.2 else acc)
    (concat (imap (fun m ents => coord_entry (f m) <$> ents) rows)) acc = acc.
Proof.
  revert f acc. induction rows as [|ents rows IH]; intros f acc Hf;
    [reflexivity |].
  cbn [imap concat]. rewrite fold_left_app.
  rewrite (fold_other_row i (f O) j ents acc)
    by (apply Hf; simpl; lia).
  apply (IH (fun m => f (Datatypes.S m))). intros m Hm. apply Hf. simpl. lia.
Qed.

Lemma fold_own_row (i : nat) (j : Z) (ents : list (float * Z))
    (acc : option float) :
  fold_left (fun acc kv =>
               if rb_eql kv.1 (RArray [INT2NUM (Z.of_nat i); INT2NUM j])
               then Some kv.2 else acc)
    (coord_entry i <$> ents) (DBL2NUM <$> acc)
  = DBL2NUM <$>
      fold_left (fun acc wc => if wc.2 =? j then Some wc.1 else acc) ents acc.
Proof.
  revert acc. induction ents as [|[w c] ents IH]; intros acc; [reflexivity |].
  rewrite fmap_cons. cbn [fold_left].
  change (coord_entry i (w, c))
    with (RArray [INT2NUM (Z.of_nat i); INT2NUM c], DBL2NUM w).
  cbn [fst snd]. rewrite rb_eql_coord, Z.eqb_refl. cbn [andb].
  destruct (c =? j).
  - apply (IH (Some w)).
  - apply IH.
Qed.

(** What [rb_hash_aref] finds under [[i, j]] in the hash of all entries: the
    weight of the last pair of row [i] with column [j]. *)
Lemma assoc_find_triples (entss : list (list (float * Z))) (i : nat) (j : Z)
    (ents : list (float * Z)) :
  entss !! i = Some ents ->
  assoc_find (RArray [INT2NUM (Z.of_nat i); INT2NUM j]) (hash_of (triples entss))
  = DBL2NUM <$> last_weight j ents.
Proof.
  intros Hi. rewrite assoc_find_hash_of. unfold triples.
  rewrite <- (take_drop_middle entss i ents Hi) at 1.
  rewrite imap_app. cbn [imap]. rewrite concat_app. cbn [concat].
  rewrite !fold_left_app.
  pose proof (lookup_lt_Some _ _ _ Hi) as Hlt.
  rewrite (fold_other_rows i j (take i entss) (fun m => m) None)
    by (intros m Hm; rewrite length_take in Hm; lia).
  rewrite length_take, Nat.min_l, Nat.add_0_r by lia.
  change (@None VALUE) with (DBL2NUM <$> @None float).
  rewrite fold_own_row.
  apply (fold_other_rows i j (drop (Datatypes.S i) entss)
           (fun m => (i + Datatypes.S m)%nat)).
  intros m _. lia.
Qed.

(** X9.  On a hash without empty rows, the hash [coordinates] returns
    answers a lookup of [[i, j]] with the weight of the last entry of row
    [i] whose identifier is key [j], and with nil when row [i] has no such
    entry: of several entries with the same identifier in one row only the
    last weight is kept. *)
Theorem coordinates_keeps_last_duplicate :
  forall (h : list (VALUE * VALUE)) (num_rows : VALUE) (w w' : world),
    wf_hash h ->
    h <> [] ->
    Forall (fun kv : VALUE * VALUE => kv.2 <> RArray []) h ->
    csr_matrix_initialize (RHash h) num_rows w = (Ok tt, w') ->
    exists (rows : list (list VALUE)) (entss : list (list (float * Z)))
           (res : VALUE),
      map snd h = RArray <$> rows /\
      Forall2 (Forall2 (entry_triple (map fst h))) rows entss /\
      csr_matrix_coordinates (self_csr w') = Ok res /\
      forall (i : nat) (j : Z) (ents : list (float * Z)),
        entss !! i = Some ents ->
        rb_hash_aref res (RArray [INT2NUM (Z.of_nat i); INT2NUM j])
        = Ok (default Qnil (DBL2NUM <$> last_weight j ents)).
Proof.
  intros h num_rows w w' Hwf Hne Hrowsne Hrun.
  apply csr_matrix_initialize_Ok in Hrun as (entss & Hbuilt & _ & -> & _).
  destruct (built_entry_triples h entss Hwf Hbuilt) as (rows & Hsnd & Htri).
  exists rows, entss, (RHash (hash_of (triples entss))).
  split_and!; [exact Hsnd | exact Htri | |].
  - pose proof Htri as Hlen. apply Forall2_length in Hlen.
    assert (Hlen' : length rows = length h).
    { rewrite <- (length_map snd h), Hsnd, length_fmap. reflexivity. }
    apply csr_matrix_coordinates_csr_of.
    + destruct h; [contradiction |]. simpl in Hlen'. lia.
    + apply Forall_lookup. intros i ents Hents ->.
      destruct (Forall2_lookup_r _ _ _ _ _ Htri Hents) as (r & Hr & Hrow).
      apply Forall2_length in Hrow. destruct r; [| discriminate].
      assert (Hv : (map snd h) !! i = Some (RArray [])).
      { rewrite Hsnd, list_lookup_fmap, Hr. reflexivity. }
      change (map snd h) with (snd <$> h) in Hv.
      rewrite list_lookup_fmap in Hv.
      destruct (h !! i) as [kv|] eqn:Hi; [| discriminate].
      simpl in Hv. injection Hv as Hv.
      exact (proj1 (Forall_lookup _ _) Hrowsne _ _ Hi Hv).
  - intros i j ents Hents. cbn [rb_hash_aref].
    rewrite (assoc_find_triples entss i j ents Hents). reflexivity.
Qed.

Lemma duplicate_rows_wf : wf_hash duplicate_rows.
Proof.
  split.
  - repeat constructor.
  - apply NoDup_singleton.
Qed.

Lemma coordinates_keeps_last_duplicate_witness :
  exists (rows : list (list VALUE)) (entss : list (list (float * Z)))
         (res : VALUE),
    map snd duplicate_rows = RArray <$> rows /\
    Forall2 (Forall2 (entry_triple (map fst duplicate_rows))) rows entss /\
    csr_matrix_coordinates
      (self_csr (csr_matrix_initialize (RHash duplicate_rows) (RInteger 1)
                   blank_world).2) = Ok res /\
    forall (i : nat) (j : Z) (ents : list (float * Z)),
      entss !! i = Some ents ->
      rb_hash_aref res (RArray [INT2NUM (Z.of_nat i); INT2NUM j])
      = Ok (default Qnil (DBL2NUM <$> last_weight j ents)).
Proof.
  apply (coordinates_keeps_last_duplicate duplicate_rows (RInteger 1)
           blank_world).
  - exact duplicate_rows_wf.
  - discriminate.
  - repeat constructor; discriminate.
  - vm_compute. reflexivity.
Defined.

(** On the row that names a twice, [coordinates] keeps the second weight
    and [mulvec] adds both. *)
Example duplicate_entry_last_wins :
  csr_matrix_coordinates
    (self_csr (csr_matrix_initialize (RHash duplicate_rows) (RInteger 1)
                 blank_world).2)
  = Ok (RHash [(RArray [RInteger 0; RInteger 0], Flonum 5)]) /\
  csr_matrix_mulvec
    (self_csr (csr_matrix_initialize (RHash duplicate_rows) (RInteger 1)
                 blank_world).2) (RArray [RInteger 1])
  = Ok (RArray [Flonum 6]).
Proof. split; vm_compute; reflexivity. Qed.

(** ** Vector elements that are not numbers *)

Lemma NUM2DBL_not_numeric (v : VALUE) :
  ~ numeric v -> NUM2DBL v = Raise (no_implicit_conversion (TYPE v)).
Proof. destruct v; simpl; intros H; try reflexivity; exfalso; apply H; exact I. Qed.

Lemma NUM2DBL_cases (v : VALUE) :
  (numeric v /\ NUM2DBL v = Ok (to_double v)) \/
  (~ numeric v /\ NUM2DBL v = Raise (no_implicit_conversion (TYPE v))).
Proof.
  destruct v; simpl;
    first [left; split; [exact I | reflexivity]
          | right; split; [intros [] | reflexivity]].
Qed.

Lemma rb_ary_entry_default (a : list VALUE) (c : Z) :
  0 <= c ->
  rb_ary_entry (RArray a) c = Ok (default Qnil (a !! Z.to_nat c)).
Proof.
  intros Hc. unfold rb_ary_entry. cbv zeta.
  assert (E0 : (c <? 0) = false) by (apply Z.ltb_ge; lia).
  rewrite E0. cbv iota. rewrite E0. cbn [orb].
  destruct (Z.of_nat (length a) <=? c) eqn:E; [| reflexivity].
  apply Z.leb_le in E. rewrite lookup_ge_None_2 by lia. reflexivity.
Qed.

(** The inner loop over one row when the vector elements its pairs refer to
    are numbers. *)
Lemma row_loop_referenced (entss : list (list (float * Z))) (vec : list VALUE)
    (i : nat) (ents : list (float * Z)) :
  entss !! i = Some ents ->
  Forall (fun wc : float * Z =>
            0 <= wc.2 /\ numeric (default Qnil (vec !! Z.to_nat wc.2))) ents ->
  for_range (Z.of_nat (length (concat (take i entss))))
    (Z.of_nat (length (concat (take (Datatypes.S i) entss))))
    (fun jj tmp =>
       v ← load (values (csr_of entss)) jj;
       c ← load (col_index (csr_of entss)) jj;
       x ← rb_ary_entry (RArray vec) c;
       x ← NUM2DBL x;
       Ok (tmp + v * x)%float)
    0%float
  = Ok (row_dot vec ents).
Proof.
  intros Hi Hcols. unfold for_range.
  rewrite (offsets_step _ _ _ Hi).
  replace (Z.to_nat _) with (length ents) by lia.
  match goal with |- for_loop _ _ ?b _ = _ =>
    destruct (for_loop_total (fun j tmp => tmp = row_dot vec (take j ents))
                (length ents) (Z.of_nat (length (concat (take i entss)))) b 0%float)
      as (res & Hrun & Hres)
  end.
  - rewrite take_0. reflexivity.
  - intros j t Hj ->. destruct (lookup_lt_is_Some_2 ents j Hj) as [[w c] Hwc].
    exists (row_dot vec (take (Datatypes.S j) ents)). split; [| reflexivity].
    assert (Hcat : concat entss !! (length (concat (take i entss)) + j)%nat
                   = Some (w, c)).
    { destruct (concat_lookup entss i j ents Hi) as [-> | Hge]; [exact Hwc | lia]. }
    rewrite <- Nat2Z.inj_add. cbn [values col_index csr_of].
    rewrite (load_Some_nat _ _ w) by (rewrite list_lookup_fmap, Hcat; reflexivity).
    rewrite bind_ret.
    rewrite (load_Some_nat _ _ c) by (rewrite list_lookup_fmap, Hcat; reflexivity).
    rewrite bind_ret.
    pose proof (proj1 (Forall_lookup _ _) Hcols _ _ Hwc) as [Hc Hnum].
    simpl in Hc, Hnum.
    rewrite (rb_ary_entry_default _ _ Hc), bind_ret.
    rewrite (NUM2DBL_numeric _ Hnum), bind_ret. f_equal.
    rewrite (take_S_r _ _ _ Hwc). unfold row_dot. rewrite fold_left_app.
    reflexivity.
  - rewrite Hrun, Hres, firstn_all. reflexivity.
Qed.

(** The inner loop over one row raises when some pair of the row refers to a
    vector element that is not a number. *)
Lemma row_loop_raises (entss : list (list (float * Z))) (vec : list VALUE)
    (i : nat) (ents : list (float * Z)) (tmp : float) :
  entss !! i = Some ents ->
  Forall (fun wc : float * Z => 0 <= wc.2) ents ->
  Exists (fun wc : float * Z =>
            ~ numeric (default Qnil (vec !! Z.to_nat wc.2))) ents ->
  exists e,
    for_range (Z.of_nat (length (concat (take i entss))))
      (Z.of_nat (length (concat (take (Datatypes.S i) entss))))
      (fun jj tmp =>
         v ← load (values (csr_of entss)) jj;
         c ← load (col_index (csr_of entss)) jj;
         x ← rb_ary_entry (RArray vec) c;
         x ← NUM2DBL x;
         Ok (tmp + v * x)%float)
      tmp
    = Raise e /\ conversion_error e.
Proof.
  intros Hi Hcols Hbad. unfold for_range.
  rewrite (offsets_step _ _ _ Hi).
  replace (Z.to_nat _) with (length ents) by lia.
  apply Exists_exists in Hbad as ([w0 c0] & Hin & Hnot).
  apply list_elem_of_In, list_elem_of_lookup in Hin as (j0 & Hj0).
  assert (Hbody : forall (j : nat) (w : float) (c : Z) (t : float),
             ents !! j = Some (w, c) ->
             (v ← load (values (csr_of entss))
                    (Z.of_nat (length (concat (take i entss))) + Z.of_nat j);
              c ← load (col_index (csr_of entss))
                    (Z.of_nat (length (concat (take i entss))) + Z.of_nat j);
              x ← rb_ary_entry (RArray vec) c;
              x ← NUM2DBL x;
              Ok (t + v * x)%float)
             = (x ← NUM2DBL (default Qnil (vec !! Z.to_nat c));
                Ok (t + w * x)%float)).
  { intros j w c t Hwc.
    assert (Hcat : concat entss !! (length (concat (take i entss)) + j)%nat
                   = Some (w, c)).
    { destruct (concat_lookup entss i j ents Hi) as [-> | Hge]; [exact Hwc |].
      apply lookup_lt_Some in Hwc. lia. }
    rewrite <- Nat2Z.inj_add. cbn [values col_index csr_of].
    rewrite (load_Some_nat _ _ w) by (rewrite list_lookup_fmap, Hcat; reflexivity).
    rewrite bind_ret.
    rewrite (load_Some_nat _ _ c) by (rewrite list_lookup_fmap, Hcat; reflexivity).
    rewrite bind_ret.
    pose proof (proj1 (Forall_lookup _ _) Hcols _ _ Hwc) as Hc. simpl in Hc.
    rewrite (rb_ary_entry_default _ _ Hc), bind_ret. reflexivity. }
  apply (for_loop_raises conversion_error (fun _ _ => True) _ _ _ _ j0).
  - exact I.
  - intros j t Hj _. destruct (lookup_lt_is_Some_2 ents j Hj) as [[w c] Hwc].
    rewrite (Hbody j w c t Hwc).
    destruct (NUM2DBL_cases (default Qnil (vec !! Z.to_nat c)))
      as [[_ ->] | [_ ->]].
    + left. eexists. split; [reflexivity | exact I].
    + right. eexists. split; [reflexivity |]. eexists. reflexivity.
  - eapply lookup_lt_Some. exact Hj0.
  - intros t _. rewrite (Hbody j0 w0 c0 t Hj0). simpl in Hnot.
    rewrite (NUM2DBL_not_numeric _ Hnot).
    eexists. split; [reflexivity |]. eexists. reflexivity.
Qed.

Lemma csr_matrix_dot_row_unfold (entss : list (list (float * Z)))
    (vec : list VALUE) (i : nat) :
  length vec = length entss ->
  Z.of_nat (length entss) <= INT_MAX ->
  (i < length entss)%nat ->
  csr_matrix_dot_row (csr_of entss) (RArray vec) (RInteger (Z.of_nat i))
  = (tmp ← for_range (Z.of_nat (length (concat (take i entss))))
             (Z.of_nat (length (concat (take (Datatypes.S i) entss))))
             (fun jj tmp =>
                v ← load (values (csr_of entss)) jj;
                c ← load (col_index (csr_of entss)) jj;
                x ← rb_ary_entry (RArray vec) c;
                x ← NUM2DBL x;
                Ok (tmp + v * x)%float)
             0%float;
     Ok (DBL2NUM tmp)).
Proof.
  intros Hlen Hmax Hi. unfold csr_matrix_dot_row.
  change (Check_Type (RArray vec) T_ARRAY) with (Ok tt). rewrite bind_ret.
  rewrite Check_Type_fixnum
    by (apply FIXABLE_int; unfold INT_MIN, INT_MAX in *; lia).
  rewrite bind_ret.
  change (RARRAY_LEN (RArray vec)) with (Ok (Z.of_nat (length vec))).
  rewrite bind_ret. cbn [n csr_of]. rewrite Hlen, Z.eqb_refl. cbn [negb].
  rewrite bind_ret. unfold NUM2INT.
  replace (fits_int (Z.of_nat i)) with true
    by (symmetry; apply fits_int_spec; unfold INT_MIN, INT_MAX in *; lia).
  rewrite bind_ret.
  replace (0 <=? Z.of_nat i) with true by (symmetry; apply Z.leb_le; lia).
  replace (Z.of_nat i <? Z.of_nat (length entss)) with true
    by (symmetry; apply Z.ltb_lt; lia).
  cbn [andb negb]. rewrite bind_ret. cbn [row_index csr_of].
  rewrite (load_Some_nat _ _ _
             (offsets_lookup entss (Datatypes.S (length entss)) i ltac:(lia))),
    bind_ret.
  replace (Z.of_nat i + 1) with (Z.of_nat (Datatypes.S i)) by lia.
  rewrite (load_Some_nat _ _ _
             (offsets_lookup entss (Datatypes.S (length entss))
                (Datatypes.S i) ltac:(lia))).
  rewrite bind_ret. reflexivity.
Qed.

Lemma referenced_cases (vec : list VALUE) (ents : list (float * Z)) :
  Forall (fun wc : float * Z => 0 <= wc.2) ents ->
  Forall (fun wc : float * Z =>
            0 <= wc.2 /\ numeric (default Qnil (vec !! Z.to_nat wc.2))) ents \/
  Exists (fun wc : float * Z =>
            ~ numeric (default Qnil (vec !! Z.to_nat wc.2))) ents.
Proof.
  induction 1 as [|wc ents Hc _ IH]; [left; constructor |].
  destruct (NUM2DBL_cases (default Qnil (vec !! Z.to_nat wc.2)))
    as [[Hnum _] | [Hnot _]].
  - destruct IH as [IH | IH].
    + left. constructor; [split; assumption | exact IH].
    + right. apply Exists_cons_tl. exact IH.
  - right. apply Exists_cons_hd. exact Hnot.
Qed.

(** [mulvec] raises when some pair of some row refers to a vector element
    that is not a number. *)
Lemma csr_matrix_mulvec_raises (entss : list (list (float * Z)))
    (vec : list VALUE) (i : nat) (ents : list (float * Z)) :
  cols_in_range entss ->
  length vec = length entss ->
  Z.of_nat (length entss) <= INT_MAX ->
  entss !! i = Some ents ->
  Exists (fun wc : float * Z =>
            ~ numeric (default Qnil (vec !! Z.to_nat wc.2))) ents ->
  exists e,
    csr_matrix_mulvec (csr_of entss) (RArray vec) = Raise e /\
    conversion_error e.
Proof.
  intros Hcols Hlen Hmax Hents Hbad. unfold csr_matrix_mulvec.
  change (Check_Type (RArray vec) T_ARRAY) with (Ok tt). rewrite bind_ret.
  change (RARRAY_LEN (RArray vec)) with (Ok (Z.of_nat (length vec))).
  rewrite bind_ret. cbn [n csr_of]. rewrite Hlen, Z.eqb_refl. cbn [negb].
  rewrite bind_ret, rb_ary_new_capa_Ok, bind_ret by lia.
  unfold for_range at 1. rewrite Z.sub_0_r, Nat2Z.id.
  assert (Hpos : forall k row, entss !! k = Some row ->
             Forall (fun wc : float * Z => 0 <= wc.2) row).
  { intros k row Hrow. eapply Forall_impl; [| eapply cols_in_range_row; eassumption].
    intros wc H. simpl in H. lia. }
  assert (Hstep : forall (k : nat) (row : list (float * Z)) (t : VALUE),
             entss !! k = Some row ->
             (lo ← load (row_index (csr_of entss)) (0 + Z.of_nat k);
              hi ← load (row_index (csr_of entss)) (0 + Z.of_nat k + 1);
              tmp ← for_range lo hi
                      (fun jj tmp =>
                         v ← load (values (csr_of entss)) jj;
                         c ← load (col_index (csr_of entss)) jj;
                         x ← rb_ary_entry (RArray vec) c;
                         x ← NUM2DBL x;
                         Ok (tmp + v * x)%float)
                      0%float;
              rb_ary_store t (0 + Z.of_nat k) (DBL2NUM tmp))
             = (tmp ← for_range (Z.of_nat (length (concat (take k entss))))
                        (Z.of_nat (length (concat (take (Datatypes.S k) entss))))
                        (fun jj tmp =>
                           v ← load (values (csr_of entss)) jj;
                           c ← load (col_index (csr_of entss)) jj;
                           x ← rb_ary_entry (RArray vec) c;
                           x ← NUM2DBL x;
                           Ok (tmp + v * x)%float)
                        0%float;
                rb_ary_store t (Z.of_nat k) (DBL2NUM tmp))).
  { intros k row t Hrow. pose proof (lookup_lt_Some _ _ _ Hrow) as Hk.
    rewrite Z.add_0_l. cbn [row_index csr_of].
    rewrite (load_Some_nat _ _ _
               (offsets_lookup entss (Datatypes.S (length entss)) k ltac:(lia))),
      bind_ret.
    replace (Z.of_nat k + 1) with (Z.of_nat (Datatypes.S k)) by lia.
    rewrite (load_Some_nat _ _ _
               (offsets_lookup entss (Datatypes.S (length entss))
                  (Datatypes.S k) ltac:(lia))).
    rewrite bind_ret. reflexivity. }
  apply (for_loop_raises conversion_error
           (fun (k : nat) (t : VALUE) =>
              exists l, t = RArray l /\ length l = k) _ _ _ _ i).
  - exists []. split; reflexivity.
  - intros k t Hk (l & -> & Hl).
    destruct (lookup_lt_is_Some_2 entss k Hk) as [row Hrow].
    rewrite (Hstep k row _ Hrow).
    destruct (referenced_cases vec row (Hpos k row Hrow)) as [Hall | Hex].
    + left. rewrite (row_loop_referenced entss vec k row Hrow Hall), bind_ret.
      rewrite <- Hl, rb_ary_store_end. eexists. split; [reflexivity |].
      eexists. split; [reflexivity |]. rewrite length_app. simpl. lia.
    + right.
      destruct (row_loop_raises entss vec k row 0%float Hrow (Hpos k row Hrow) Hex)
        as (e & -> & HQ).
      exists e. split; [reflexivity | exact HQ].
  - eapply lookup_lt_Some. exact Hents.
  - intros t (l & -> & Hl). rewrite (Hstep i ents _ Hents).
    destruct (row_loop_raises entss vec i ents 0%float Hents (Hpos i ents Hents) Hbad)
      as (e & -> & HQ).
    exists e. split; [reflexivity | exact HQ].
Qed.

(** X10.  [dot_row] and [mulvec] convert only the vector elements that a
    stored entry refers to.  On a constructed matrix and a vector of [n]
    objects, [dot_row] of row [r] returns a Float when the elements at the
    columns of row [r]'s entries are numbers, whatever the other elements
    are; when one of them is not a number, [dot_row] of row [r] and
    [mulvec] raise the TypeError of the conversion. *)
Theorem vector_elements_converted_when_referenced :
  forall (csr : csr_matrix) (vec : list VALUE) (r lo hi : Z),
    constructed csr ->
    Z.of_nat (length vec) = n csr ->
    0 <= r < n csr ->
    load (row_index csr) r = Ok lo ->
    load (row_index csr) (r + 1) = Ok hi ->
    ((forall (k c : Z) (x : VALUE),
         lo <= k < hi -> load (col_index csr) k = Ok c ->
         vec !! Z.to_nat c = Some x -> numeric x) ->
     exists d : float,
       csr_matrix_dot_row csr (RArray vec) (RInteger r) = Ok (Flonum d)) /\
    (forall (k c : Z) (x : VALUE),
        lo <= k < hi -> load (col_index csr) k = Ok c ->
        vec !! Z.to_nat c = Some x -> ~ numeric x ->
        (exists got,
            csr_matrix_dot_row csr (RArray vec) (RInteger r)
            = Raise (no_implicit_conversion got)) /\
        (exists got,
            csr_matrix_mulvec csr (RArray vec)
            = Raise (no_implicit_conversion got))).
Proof.
  intros csr vec r lo hi Hc Hlen Hr Hlo Hhi.
  apply constructed_csr_of in Hc as (entss & -> & Hcols & Hn & _).
  cbn [n csr_of] in Hlen, Hr. apply Nat2Z.inj in Hlen.
  destruct (lookup_lt_is_Some_2 entss (Z.to_nat r)) as [ents Hents]; [lia |].
  cbn [row_index csr_of] in Hlo, Hhi.
  apply load_Some in Hlo as [_ Hlo]. apply load_Some in Hhi as [_ Hhi].
  rewrite offsets_lookup in Hlo by lia.
  replace (Z.to_nat (r + 1)) with (Datatypes.S (Z.to_nat r)) in Hhi by lia.
  rewrite offsets_lookup in Hhi by lia.
  injection Hlo as <-. injection Hhi as <-.
  pose proof (offsets_step _ _ _ Hents) as Hstep.
  pose proof (cols_in_range_row _ _ _ Hcols Hents) as Hrange.
  assert (Hcol : forall (j : nat) (w : float) (c : Z),
             ents !! j = Some (w, c) ->
             load (col_index (csr_of entss))
               (Z.of_nat (length (concat (take (Z.to_nat r) entss)) + j))
             = Ok c).
  { intros j w c Hwc. apply load_Some_nat.
    cbn [col_index csr_of]. rewrite list_lookup_fmap.
    destruct (concat_lookup entss (Z.to_nat r) j ents Hents) as [-> | Hge].
    - rewrite Hwc. reflexivity.
    - apply lookup_lt_Some in Hwc. lia. }
  assert (Hpos : Forall (fun wc : float * Z => 0 <= wc.2) ents).
  { eapply Forall_impl; [| exact Hrange]. intros wc H. simpl in H. lia. }
  rewrite <- (Z2Nat.id r) by lia.
  rewrite (csr_matrix_dot_row_unfold entss vec (Z.to_nat r)) by lia.
  rewrite (Z2Nat.id r) by lia.
  split.
  - intros Hnum.
    rewrite (row_loop_referenced entss vec (Z.to_nat r) ents Hents).
    + rewrite bind_ret. eexists. reflexivity.
    + apply Forall_lookup. intros j [w c] Hwc.
      pose proof (proj1 (Forall_lookup _ _) Hrange _ _ Hwc) as Hc. simpl in Hc.
      destruct (lookup_lt_is_Some_2 vec (Z.to_nat c)) as [x Hx]; [lia |].
      simpl. rewrite Hx. split; [lia |]. simpl.
      apply (Hnum (Z.of_nat (length (concat (take (Z.to_nat r) entss)) + j)) c x);
        [| apply (Hcol j w c Hwc) | exact Hx].
      apply lookup_lt_Some in Hwc. lia.
  - intros k c x Hk Hload Hx Hnot.
    assert (Hbad : Exists (fun wc : float * Z =>
                      ~ numeric (default Qnil (vec !! Z.to_nat wc.2))) ents).
    { destruct (lookup_lt_is_Some_2 ents
                  (Z.to_nat k - length (concat (take (Z.to_nat r) entss))))
        as [[w c'] Hwc]; [lia |].
      pose proof (Hcol _ w c' Hwc) as Hload'.
      replace (Z.of_nat _) with k in Hload' by lia.
      rewrite Hload in Hload'. injection Hload' as <-.
      apply Exists_exists. exists (w, c). split.
      - apply list_elem_of_In. eapply list_elem_of_lookup_2. exact Hwc.
      - simpl. rewrite Hx. exact Hnot. }
    split.
    + destruct (row_loop_raises entss vec (Z.to_nat r) ents 0%float Hents Hpos Hbad)
        as (e & -> & (got & ->)).
      exists got. reflexivity.
    + destruct (csr_matrix_mulvec_raises entss vec (Z.to_nat r) ents Hcols Hlen
                  ltac:(lia) Hents Hbad) as (e & -> & (got & ->)).
      exists got. reflexivity.
Qed.

Lemma vector_elements_converted_when_referenced_witness :
  ((forall (k c : Z) (x : VALUE),
       1 <= k < 2 -> load (col_index example_csr) k = Ok c ->
       [Qnil; RInteger 2; RString "x"] !! Z.to_nat c = Some x -> numeric x) ->
   exists d : float,
     csr_matrix_dot_row example_csr (RArray [Qnil; RInteger 2; RString "x"])
       (RInteger 1) = Ok (Flonum d)) /\
  (forall (k c : Z) (x : VALUE),
      1 <= k < 2 -> load (col_index example_csr) k = Ok c ->
      [Qnil; RInteger 2; RString "x"] !! Z.to_nat c = Some x -> ~ numeric x ->
      (exists got,
          csr_matrix_dot_row example_csr
            (RArray [Qnil; RInteger 2; RString "x"]) (RInteger 1)
          = Raise (no_implicit_conversion got)) /\
      (exists got,
          csr_matrix_mulvec example_csr (RArray [Qnil; RInteger 2; RString "x"])
          = Raise (no_implicit_conversion got))).
Proof.
  apply (vector_elements_converted_when_referenced example_csr
           [Qnil; RInteger 2; RString "x"] 1 1 2).
  - exact example_constructed.
  - reflexivity.
  - split; [vm_compute; discriminate | vm_compute; reflexivity].
  - vm_compute. reflexivity.
  - vm_compute. reflexivity.
Defined.

(** On the documented example, whose row b refers to column 1 only: the
    product with row b ignores the nil and the string around the number,
    the product with the whole matrix does not. *)
Example unreferenced_elements_ignored :
  csr_matrix_dot_row example_csr (RArray [Qnil; RInteger 2; RString "x"])
    (RInteger 1) = Ok (Flonum 2) /\
  csr_matrix_mulvec example_csr (RArray [Qnil; RInteger 2; RString "x"])
  = Raise (no_implicit_conversion T_STRING).
Proof. split; vm_compute; reflexivity. Qed.

(** ** Arguments of the wrong type *)

(** X11.  The type checks come first.  The constructor raises a TypeError
    when [data] is not a Hash and, on a Hash, when [num_rows] is not a
    Fixnum (a Float is refused), having cleared [init] and done nothing
    else; [mulvec] and [dot_row] raise a TypeError when [vec] is not an
    Array, and [dot_row] when [row] is not a Fixnum, whatever the matrix and
    the dimensions.  A Fixnum [num_rows] outside the range of a C int makes
    the constructor raise a RangeError, before the number of keys is looked
    at. *)
Theorem argument_type_guards :
  (forall (data num_rows : VALUE) (w : world),
      TYPE data <> T_HASH ->
      csr_matrix_initialize data num_rows w
      = (Raise (wrong_argument_type (TYPE data) T_HASH), cleared w)) /\
  (forall (h : list (VALUE * VALUE)) (num_rows : VALUE) (w : world),
      TYPE num_rows <> T_FIXNUM ->
      csr_matrix_initialize (RHash h) num_rows w
      = (Raise (wrong_argument_type (TYPE num_rows) T_FIXNUM), cleared w)) /\
  (forall (csr : csr_matrix) (vec : VALUE),
      TYPE vec <> T_ARRAY ->
      csr_matrix_mulvec csr vec
      = Raise (wrong_argument_type (TYPE vec) T_ARRAY)) /\
  (forall (csr : csr_matrix) (vec row : VALUE),
      TYPE vec <> T_ARRAY ->
      csr_matrix_dot_row csr vec row
      = Raise (wrong_argument_type (TYPE vec) T_ARRAY)) /\
  (forall (csr : csr_matrix) (vec : list VALUE) (row : VALUE),
      TYPE row <> T_FIXNUM ->
      csr_matrix_dot_row csr (RArray vec) row
      = Raise (wrong_argument_type (TYPE row) T_FIXNUM)) /\
  (forall (h : list (VALUE * VALUE)) (z : Z) (w : world),
      FIXNUM_MIN <= z <= FIXNUM_MAX ->
      z < INT_MIN \/ INT_MAX < z ->
      csr_matrix_initialize (RHash h) (RInteger z) w
      = (Raise (integer_out_of_int_range z), cleared w)).
Proof.
  assert (Hck : forall v t, TYPE v <> t ->
            Check_Type v t = Raise (wrong_argument_type (TYPE v) t)).
  { intros v t Hne. unfold Check_Type.
    destruct (ruby_type_eqb (TYPE v) t) eqn:E; [| reflexivity].
    exfalso. apply Hne. destruct (TYPE v), t; simpl in E; congruence. }
  split_and!.
  - intros data num_rows w Hne. unfold csr_matrix_initialize.
    unfold mbind at 1, M_bind at 1, get_csr at 1.
    unfold mbind at 1, M_bind at 1, set_csr at 1.
    unfold mbind at 1, M_bind at 1, lift at 1.
    rewrite (Hck _ _ Hne). reflexivity.
  - intros h num_rows w Hne. unfold csr_matrix_initialize.
    unfold mbind at 1, M_bind at 1, get_csr at 1.
    unfold mbind at 1, M_bind at 1, set_csr at 1.
    unfold mbind at 1, M_bind at 1, lift at 1.
    change (Check_Type (RHash h) T_HASH) with (Ok tt). cbv iota.
    unfold mbind at 1, M_bind at 1, lift at 1.
    rewrite (Hck _ _ Hne). reflexivity.
  - intros csr vec Hne. unfold csr_matrix_mulvec. rewrite (Hck _ _ Hne).
    reflexivity.
  - intros csr vec row Hne. unfold csr_matrix_dot_row. rewrite (Hck _ _ Hne).
    reflexivity.
  - intros csr vec row Hne. unfold csr_matrix_dot_row.
    change (Check_Type (RArray vec) T_ARRAY) with (Ok tt).
    rewrite bind_ret, (Hck _ _ Hne). reflexivity.
  - intros h z w Hfix Hout. rewrite csr_matrix_initialize_cleared.
    change (Check_Type (RHash h) T_HASH) with (Ok tt).
    rewrite (Check_Type_fixnum z) by (apply FIXABLE_spec; exact Hfix).
    cbn [rb_hash_keys NUM2INT].
    replace (fits_int z) with false; [reflexivity |].
    symmetry. destruct (fits_int z) eqn:E; [| reflexivity].
    apply fits_int_spec in E. lia.
Qed.

(** ** Exceptions the methods can raise *)

Lemma raises_only_for_loop_from {S : Type} (Q : exception -> Prop)
    (steps : nat) (lo : Z) (body : Z -> S -> outcome S) (s : S) :
  (forall j t, lo <= j -> raises_only Q (body j t)) ->
  raises_only Q (for_loop steps lo body s).
Proof.
  revert lo s. induction steps as [|steps IH]; intros lo s Hbody.
  - apply raises_only_Ok.
  - simpl. apply raises_only_bind; [apply Hbody; lia |].
    intros s1. apply IH. intros j t Hj. apply Hbody. lia.
Qed.

Lemma raises_only_rb_ary_store (Q : exception -> Prop) (ary : VALUE) (idx : Z)
    (v : VALUE) :
  0 <= idx -> raises_only Q (rb_ary_store ary idx v).
Proof.
  intros Hidx e. destruct ary; try discriminate. unfold rb_ary_store.
  cbv zeta. replace (idx <? 0) with false by (symmetry; apply Z.ltb_ge; lia).
  cbv iota. replace (idx <? 0) with false by (symmetry; apply Z.ltb_ge; lia).
  destruct (idx <? Z.of_nat (length a)); discriminate.
Qed.

Lemma raises_only_impl {A : Type} (Q Q' : exception -> Prop) (o : outcome A) :
  (forall e, Q e -> Q' e) -> raises_only Q o -> raises_only Q' o.
Proof. intros HQ Ho e He. apply HQ, Ho, He. Qed.

Lemma copy_loop_raises {T : Type} (Q : exception -> Prop)
    (a : list (option T)) (f : T -> VALUE) (hi : Z) (s : VALUE) :
  raises_only Q
    (for_range 0 hi
       (fun i result => v ← load a i; rb_ary_store result i (f v)) s).
Proof.
  unfold for_range. apply raises_only_for_loop_from. intros j t Hj.
  apply raises_only_bind; [apply raises_only_load |].
  intros v. apply raises_only_rb_ary_store. exact Hj.
Qed.

Lemma raises_only_rb_ary_new_capa (capa : Z) :
  raises_only (fun e => exc_class e = rb_eArgError /\
                        ~ 0 <= capa <= ARY_MAX_SIZE)
    (rb_ary_new_capa capa).
Proof.
  intros e. unfold rb_ary_new_capa.
  destruct (capa <? 0) eqn:E0.
  - intros [= <-]. apply Z.ltb_lt in E0. split; [reflexivity | lia].
  - destruct (ARY_MAX_SIZE <? capa) eqn:E1; [| discriminate].
    intros [= <-]. apply Z.ltb_lt in E1. split; [reflexivity | lia].
Qed.

(** An accessor raises only when the capacity it asks for is refused. *)
Lemma accessor_raises {T : Type} (a : list (option T)) (f : T -> VALUE)
    (capa hi : Z) :
  raises_only (fun e => exc_class e = rb_eArgError /\
                        ~ 0 <= capa <= ARY_MAX_SIZE)
    (result ← rb_ary_new_capa capa;
     for_range 0 hi
       (fun i result => v ← load a i; rb_ary_store result i (f v)) result).
Proof.
  apply raises_only_bind; [apply raises_only_rb_ary_new_capa |].
  intros result. apply copy_loop_raises.
Qed.

Lemma row_body_raises (csr : csr_matrix) (vec : VALUE) (jj : Z) (tmp : float) :
  raises_only (fun e => exc_class e = rb_eTypeError)
    (v ← load (values csr) jj;
     c ← load (col_index csr) jj;
     x ← rb_ary_entry vec c;
     x ← NUM2DBL x;
     Ok (tmp + v * x)%float).
Proof.
  apply raises_only_bind; [apply raises_only_load | intros v].
  apply raises_only_bind; [apply raises_only_load | intros c].
  apply raises_only_bind; [apply raises_only_rb_ary_entry | intros x].
  apply raises_only_bind; [apply raises_only_NUM2DBL; reflexivity | intros d].
  apply raises_only_Ok.
Qed.

Lemma csr_matrix_mulvec_raises_only (csr : csr_matrix) (vec : VALUE) :
  raises_only (fun e => exc_class e = rb_eArgError \/ exc_class e = rb_eTypeError)
    (csr_matrix_mulvec csr vec).
Proof.
  unfold csr_matrix_mulvec.
  apply raises_only_bind; [apply raises_only_Check_Type; right; reflexivity |].
  intros _. apply raises_only_bind; [apply raises_only_RARRAY_LEN | intros len].
  apply raises_only_bind.
  { destruct (negb _); [| apply raises_only_Ok].
    intros e [= <-]. left. reflexivity. }
  intros _. apply raises_only_bind.
  { eapply raises_only_impl; [| apply raises_only_rb_ary_new_capa].
    intros e [He _]. left. exact He. }
  intros result. unfold for_range at 1. apply raises_only_for_loop_from.
  intros i t Hi.
  apply raises_only_bind; [apply raises_only_load | intros lo].
  apply raises_only_bind; [apply raises_only_load | intros hi].
  apply raises_only_bind.
  { unfold for_range. apply raises_only_for_loop. intros jj tmp.
    eapply raises_only_impl; [| apply row_body_raises].
    intros e He. right. exact He. }
  intros tmp. apply raises_only_rb_ary_store. exact Hi.
Qed.

Lemma csr_matrix_dot_row_raises_only (csr : csr_matrix) (vec row : VALUE) :
  raises_only constructor_class (csr_matrix_dot_row csr vec row).
Proof.
  unfold csr_matrix_dot_row, constructor_class.
  apply raises_only_bind;
    [apply raises_only_Check_Type; right; left; reflexivity | intros _].
  apply raises_only_bind;
    [apply raises_only_Check_Type; right; left; reflexivity | intros _].
  apply raises_only_bind; [apply raises_only_RARRAY_LEN | intros len].
  apply raises_only_bind.
  { destruct (negb _); [| apply raises_only_Ok].
    intros e [= <-]. left. reflexivity. }
  intros _. apply raises_only_bind.
  { apply raises_only_NUM2INT; intros; simpl; tauto. }
  intros i. apply raises_only_bind.
  { destruct (negb _); [| apply raises_only_Ok].
    intros e [= <-]. left. reflexivity. }
  intros _.
  apply raises_only_bind; [apply raises_only_load | intros lo].
  apply raises_only_bind; [apply raises_only_load | intros hi].
  apply raises_only_bind.
  { unfold for_range. apply raises_only_for_loop. intros jj tmp.
    eapply raises_only_impl; [| apply row_body_raises].
    intros e He. right. left. exact He. }
  intros tmp. apply raises_only_Ok.
Qed.

Lemma csr_matrix_coordinates_raises_only (csr : csr_matrix) :
  raises_only (fun _ => False) (csr_matrix_coordinates csr).
Proof.
  unfold csr_matrix_coordinates. cbv zeta.
  apply raises_only_bind; [apply raises_only_load | intros row_end].
  apply raises_only_bind; [| intros st; apply raises_only_Ok].
  unfold for_range. apply raises_only_for_loop. intros k st.
  unfold coordinates_step.
  apply raises_only_bind.
  { destruct (k =? c_row_end st); [| apply raises_only_Ok].
    apply raises_only_bind; [apply raises_only_load | intros r].
    apply raises_only_Ok. }
  intros [i row_end'].
  apply raises_only_bind; [change (rb_ary_new_capa 2) with (Ok (RArray []));
                           apply raises_only_Ok | intros key0].
  apply raises_only_bind; [apply raises_only_rb_ary_store; lia | intros key].
  apply raises_only_bind; [apply raises_only_load | intros c].
  apply raises_only_bind; [apply raises_only_rb_ary_store; lia | intros key'].
  apply raises_only_bind; [apply raises_only_load | intros v].
  apply raises_only_bind; [apply raises_only_rb_hash_aset | intros res].
  apply raises_only_Ok.
Qed.

(** X12.  Whatever the arguments, an exception raised by the constructor or
    by [dot_row] is an ArgumentError, a TypeError or a RangeError, and one
    raised by [mulvec] an ArgumentError or a TypeError.  [values],
    [col_index] and [row_index] raise nothing but the ArgumentError of an
    array capacity that is refused, which needs a struct whose [nnz],
    respectively [n + 1], is negative or beyond [ARY_MAX_SIZE]: on a
    constructed matrix they raise nothing.  [coordinates] raises nothing on
    any struct. *)
Theorem exception_classes :
  (forall (data num_rows : VALUE) (w w' : world) (e : exception),
      csr_matrix_initialize data num_rows w = (Raise e, w') ->
      exc_class e = rb_eArgError \/ exc_class e = rb_eTypeError \/
      exc_class e = rb_eRangeError) /\
  (forall (csr : csr_matrix) (vec : VALUE) (e : exception),
      csr_matrix_mulvec csr vec = Raise e ->
      exc_class e = rb_eArgError \/ exc_class e = rb_eTypeError) /\
  (forall (csr : csr_matrix) (vec row : VALUE) (e : exception),
      csr_matrix_dot_row csr vec row = Raise e ->
      exc_class e = rb_eArgError \/ exc_class e = rb_eTypeError \/
      exc_class e = rb_eRangeError) /\
  (forall (csr : csr_matrix) (e : exception),
      (csr_matrix_values csr = Raise e ->
       exc_class e = rb_eArgError /\ ~ 0 <= nnz csr <= ARY_MAX_SIZE) /\
      (csr_matrix_col_index csr = Raise e ->
       exc_class e = rb_eArgError /\ ~ 0 <= nnz csr <= ARY_MAX_SIZE) /\
      (csr_matrix_row_index csr = Raise e ->
       exc_class e = rb_eArgError /\ ~ 0 <= n csr + 1 <= ARY_MAX_SIZE) /\
      csr_matrix_coordinates csr <> Raise e) /\
  (forall (csr : csr_matrix) (e : exception),
      constructed csr ->
      csr_matrix_values csr <> Raise e /\
      csr_matrix_col_index csr <> Raise e /\
      csr_matrix_row_index csr <> Raise e).
Proof.
  assert (Hmax : INT_MAX <= ARY_MAX_SIZE) by (vm_compute; discriminate).
  split_and!.
  - intros data num_rows w w' e Hrun.
    exact (csr_matrix_initialize_raises data num_rows w e w' Hrun).
  - intros csr vec e. apply csr_matrix_mulvec_raises_only.
  - intros csr vec row e. apply (csr_matrix_dot_row_raises_only csr vec row).
  - intros csr e. split_and!.
    + apply (accessor_raises (values csr) DBL2NUM).
    + apply (accessor_raises (col_index csr) INT2NUM).
    + apply (accessor_raises (row_index csr) INT2NUM).
    + intros H. exact (csr_matrix_coordinates_raises_only csr e H).
  - intros csr e Hc.
    apply constructed_csr_of in Hc as (entss & -> & _ & Hn & Hnnz).
    split_and!; intros H.
    + apply (accessor_raises _ DBL2NUM) in H as [_ H]. apply H.
      cbn [nnz csr_of]. lia.
    + apply (accessor_raises _ INT2NUM) in H as [_ H]. apply H.
      cbn [nnz csr_of]. lia.
    + apply (accessor_raises _ INT2NUM) in H as [_ H]. apply H.
      cbn [n csr_of]. lia.
Qed.

Lemma exception_classes_witness :
  (exc_class (rb_raise rb_eArgError "negative array size (or size too big)")
   = rb_eArgError /\
   ~ 0 <= nnz {| init := 0; n := 0; nnz := -1; values := []; col_index := [];
                 row_index := [] |} <= ARY_MAX_SIZE) /\
  (csr_matrix_values example_csr <> Raise dimension_mismatch /\
   csr_matrix_col_index example_csr <> Raise dimension_mismatch /\
   csr_matrix_row_index example_csr <> Raise dimension_mismatch).
Proof.
  destruct exception_classes as (_ & _ & _ & Haccessor & Hconstructed).
  split.
  - apply (proj1 (Haccessor _ _)). vm_compute. reflexivity.
  - apply (Hconstructed example_csr dimension_mismatch example_constructed).
Defined.

(** ** The product with the matrix of the input *)

(** X13.  Construction followed by [mulvec], on well-formed input and a
    vector of as many numbers as there are keys: the constructor returns,
    and [mulvec] returns one Float per row, in the order of the keys, the
    sum over the entries of the row, in their order and starting from 0.0,
    of the entry's weight times the vector element at the position of the
    entry's identifier among the keys. *)
Theorem product_of_accepted_input :
  forall (h : list (VALUE * VALUE)) (rows : list (list VALUE))
         (vec : list VALUE) (w : world),
    wf_hash h ->
    map snd h = RArray <$> rows ->
    Forall (Forall (accepted_entry (map fst h))) rows ->
    Z.of_nat (length h) < INT_MAX ->
    Z.of_nat (length (concat rows)) <= INT_MAX ->
    length vec = length h ->
    Forall numeric vec ->
    exists (w' : world) (entss : list (list (float * Z))),
      csr_matrix_initialize (RHash h) (RInteger (Z.of_nat (length h))) w
      = (Ok tt, w') /\
      Forall2 (Forall2 (entry_triple (map fst h))) rows entss /\
      csr_matrix_mulvec (self_csr w') (RArray vec)
      = Ok (RArray ((fun ents => DBL2NUM (row_dot vec ents)) <$> entss)).
Proof.
  intros h rows vec w Hwf Hsnd Hacc Hn Hnnz Hlen Hvec.
  destruct (csr_matrix_initialize_returns h rows w Hwf Hsnd Hacc Hn Hnnz)
    as (w' & Hrun).
  exists w'. pose proof Hrun as Hok.
  apply csr_matrix_initialize_Ok in Hok as (entss & Hbuilt & _ & Hcsr & _).
  destruct (built_entry_triples h entss Hwf Hbuilt) as (rows' & Hsnd' & Htri).
  rewrite Hsnd in Hsnd'. apply fmap_RArray_inj in Hsnd'. subst rows'.
  exists entss. split_and!; [exact Hrun | exact Htri |].
  assert (Hrows : length entss = length h).
  { apply Forall2_length in Htri. rewrite <- Htri.
    rewrite <- (length_map snd h), Hsnd, length_fmap. reflexivity. }
  rewrite Hcsr. apply csr_matrix_mulvec_csr_of.
  - eapply built_cols_in_range. exact Hbuilt.
  - rewrite Hrows. exact Hlen.
  - exact Hvec.
  - rewrite Hrows. lia.
Qed.

Lemma product_of_accepted_input_witness :
  exists (w' : world) (entss : list (list (float * Z))),
    csr_matrix_initialize (RHash zero_weight_rows)
      (RInteger (Z.of_nat (length zero_weight_rows))) blank_world
    = (Ok tt, w') /\
    Forall2 (Forall2 (entry_triple (map fst zero_weight_rows)))
      [ [entry (RString "a") (Flonum 0); entry (RString "b") (RInteger 2)]; [] ]
      entss /\
    csr_matrix_mulvec (self_csr w') (RArray [RInteger 3; Flonum 4])
    = Ok (RArray ((fun ents => DBL2NUM (row_dot [RInteger 3; Flonum 4] ents))
                    <$> entss)).
Proof.
  apply (product_of_accepted_input zero_weight_rows
           [ [entry (RString "a") (Flonum 0); entry (RString "b") (RInteger 2)];
             [] ] [RInteger 3; Flonum 4] blank_world).
  - exact zero_weight_wf.
  - reflexivity.
  - exact zero_weight_accepted.
  - vm_compute. reflexivity.
  - vm_compute. discriminate.
  - reflexivity.
  - repeat constructor.
Defined.

(** ** The three arrays in terms of the input *)

(** X14.  After a successful construction the accessors give back the
    input in compressed form: [values] the weights of all entries as
    Floats, row after row, [col_index] at the same positions the position
    of each entry's identifier among the keys, and [row_index] one Integer
    more than there are keys, the one at position [k] being the number of
    entries in the first [k] rows. *)
Theorem accessors_return_the_input :
  forall (h : list (VALUE * VALUE)) (num_rows : VALUE) (w w' : world),
    wf_hash h ->
    csr_matrix_initialize (RHash h) num_rows w = (Ok tt, w') ->
    exists (rows : list (list VALUE)) (entss : list (list (float * Z)))
           (ro : list Z),
      map snd h = RArray <$> rows /\
      Forall2 (Forall2 (entry_triple (map fst h))) rows entss /\
      csr_matrix_values (self_csr w')
      = Ok (RArray (DBL2NUM <$> (concat entss).*1)) /\
      csr_matrix_col_index (self_csr w')
      = Ok (RArray (INT2NUM <$> (concat entss).*2)) /\
      csr_matrix_row_index (self_csr w') = Ok (RArray (INT2NUM <$> ro)) /\
      length ro = Datatypes.S (length h) /\
      forall k : nat,
        (k <= length h)%nat ->
        ro !! k = Some (Z.of_nat (length (concat (take k rows)))).
Proof.
  intros h num_rows w w' Hwf Hrun.
  apply csr_matrix_initialize_Ok in Hrun as (entss & Hbuilt & _ & -> & _).
  destruct (built_entry_triples h entss Hwf Hbuilt) as (rows & Hsnd & Htri).
  assert (Hlen : length entss = length h).
  { apply Forall2_length in Htri. rewrite <- Htri.
    rewrite <- (length_map snd h), Hsnd, length_fmap. reflexivity. }
  assert (Hnnz : Z.of_nat (length (concat entss)) <= INT_MAX).
  { destruct Hbuilt as (h' & kl & rs & _ & _ & _ & _ & Hnnz & _). exact Hnnz. }
  assert (Hn : Z.of_nat (length entss) < INT_MAX).
  { destruct Hbuilt as (h' & kl & rs & [= <-] & _ & _ & _ & _ & Hn). lia. }
  exists rows, entss, (offsets entss (Datatypes.S (length entss))).
  split_and!.
  - exact Hsnd.
  - exact Htri.
  - apply csr_matrix_values_csr_of. exact Hnnz.
  - apply csr_matrix_col_index_csr_of. exact Hnnz.
  - apply csr_matrix_row_index_csr_of. exact Hn.
  - rewrite length_offsets, Hlen. reflexivity.
  - intros k Hk. rewrite offsets_lookup by lia. do 2 f_equal.
    apply (length_concat_Forall2 (entry_triple (map fst h))).
    apply Forall2_take. exact Htri.
Qed.

Lemma accessors_return_the_input_witness :
  exists (rows : list (list VALUE)) (entss : list (list (float * Z)))
         (ro : list Z),
    map snd zero_weight_rows = RArray <$> rows /\
    Forall2 (Forall2 (entry_triple (map fst zero_weight_rows))) rows entss /\
    csr_matrix_values
      (self_csr (csr_matrix_initialize zero_weight_data (RInteger 2)
                   blank_world).2)
    = Ok (RArray (DBL2NUM <$> (concat entss).*1)) /\
    csr_matrix_col_index
      (self_csr (csr_matrix_initialize zero_weight_data (RInteger 2)
                   blank_world).2)
    = Ok (RArray (INT2NUM <$> (concat entss).*2)) /\
    csr_matrix_row_index
      (self_csr (csr_matrix_initialize zero_weight_data (RInteger 2)
                   blank_world).2)
    = Ok (RArray (INT2NUM <$> ro)) /\
    length ro = Datatypes.S (length zero_weight_rows) /\
    forall k : nat,
      (k <= length zero_weight_rows)%nat ->
      ro !! k = Some (Z.of_nat (length (concat (take k rows)))).
Proof.
  apply (accessors_return_the_input zero_weight_rows (RInteger 2) blank_world).
  - exact zero_weight_wf.
  - vm_compute. reflexivity.
Defined.
